(** * eero Business Dashboard: cache refresh, health and uptime tracking

    A shallow embedding of the refresh engine of the dashboard
    ([app/dashboard.py], [app/alerts.py], [app/database.py],
    [app/computations.py]) and the properties its specification states.

    Conventions of the embedding.
    - Python [int] is [Z]; a Python number that may be a [float] is an exact
      rational [Q].  Binary64 rounding, NaN and the infinities are outside
      the model: every comparison and clamp is read on the exact value.
    - A [datetime] and the ISO-8601 text that [isoformat()] writes for it are
      the instant they denote, in microseconds since the epoch ([Z]).
    - A raised exception is a value: fallible code returns [result A], and a
      [try]/[except] is a [match] on it.
    - Whether a collaborator outside the process (the vendor API, the SQLite
      file, the mail server, the disk) answers or fails is an input of the
      call, so every theorem quantifies over both outcomes.
    - A helper that raises an exception of its own ([IndexError],
      [OverflowError]) returns an [option], [None] standing for the
      exception.  A value the code reads out of text with [float(...)] is
      given as the number read; [str.lower] is read on ASCII text. *)

From Stdlib Require Import ZArith QArith Qround Lia Lqa.
From stdpp Require Import base option list gmap strings pretty sorting.

Local Open Scope Z_scope.

(** ** Python exceptions and results *)

Inductive exn : Type :=
  | ZeroDivisionError
  | TypeError
  | OperationalError      (* sqlalchemy: the transaction was rolled back *)
  | SMTPException
  | RequestException
  | OSError.

Inductive result (A : Type) : Type :=
  | Ok (a : A)
  | Raise (e : exn).
Arguments Ok {A} a.
Arguments Raise {A} e.

Definition bind {A B : Type} (r : result A) (k : A -> result B) : result B :=
  match r with
  | Ok a => k a
  | Raise e => Raise e
  end.

Declare Scope result_scope.
Delimit Scope result_scope with result.
Notation "x <- r ;; k" := (bind r (fun x => k))
  (at level 100, r at next level, right associativity) : result_scope.
Local Open Scope result_scope.

(** ** Numbers *)

Module Num.

(** [a / b] on Python numbers: true division, [ZeroDivisionError] on a zero
    divisor. *)
Definition truediv (a b : Q) : result Q :=
  if Qeq_bool b 0 then Raise ZeroDivisionError else Ok (a / b)%Q.

(** [max(a, b)]: the first argument unless the second is strictly larger. *)
Definition max (a b : Q) : Q := if Qlt_le_dec a b then b else a.

(** [min(a, b)]: the first argument unless the second is strictly smaller. *)
Definition min (a b : Q) : Q := if Qlt_le_dec b a then b else a.

(** [round(x)]: the nearest integer, a tie going to the even one. *)
Definition round (x : Q) : Z :=
  let f := Qfloor x in
  match Qcompare (x - inject_Z f) (1 # 2) with
  | Lt => f
  | Gt => f + 1
  | Eq => if Z.even f then f else f + 1
  end.

(** [round(x, 1)]: one decimal place. *)
Definition round1 (x : Q) : Q := (inject_Z (round (x * 10)) / 10)%Q.

End Num.

(** ** Derived metrics ([app/dashboard.py], [app/computations.py]) *)

Module Metrics.

(** [calculate_health_status(total_devices, online_devices)] *)
Definition calculate_health_status (total_devices online_devices : Z)
  : result string :=
  if (total_devices =? 0) || (online_devices =? 0) then Ok "offline"%string
  else
    online_pct <- Num.truediv (inject_Z online_devices) (inject_Z total_devices) ;;
    if Qlt_le_dec (1 # 2) online_pct then Ok "healthy"%string
    else Ok "degraded"%string.

(** [calculate_bandwidth_utilization(usage_mbps, capacity_mbps)] *)
Definition calculate_bandwidth_utilization (usage_mbps capacity_mbps : Q)
  : result Q :=
  if Qle_bool capacity_mbps 0 then Ok 0%Q
  else
    ratio <- Num.truediv usage_mbps capacity_mbps ;;
    let utilization := (ratio * 100)%Q in
    Ok (Num.max 0 (Num.min 100 utilization)).

(** [compute_health_score(green_nodes, total_nodes, avg_signal_dbm,
    uptime_24h, bandwidth_utilization)] *)
Definition compute_health_score (green_nodes total_nodes : Z)
    (avg_signal_dbm uptime_24h bandwidth_utilization : Q) : result Z :=
  node_score <-
    (if total_nodes >? 0
     then q <- Num.truediv (inject_Z green_nodes) (inject_Z total_nodes) ;;
          Ok (q * 100)%Q
     else Ok 0%Q) ;;
  scaled <- Num.truediv (avg_signal_dbm + 90)%Q 60 ;;
  let signal_score := Num.max 0 (Num.min 100 (scaled * 100)%Q) in
  let uptime_score := uptime_24h in
  let bandwidth_score := (100 - bandwidth_utilization)%Q in
  let health_score :=
    Num.round (node_score * (1 # 4) + signal_score * (1 # 4)
               + uptime_score * (1 # 4) + bandwidth_score * (1 # 4))%Q in
  Ok (Z.max 0 (Z.min 100 health_score)).

(** The words of the specification: [x] clamped into [[0, 100]]. *)
Definition clamp_0_100 (x : Q) : Q :=
  if Qlt_le_dec x 0 then 0%Q
  else if Qlt_le_dec 100 x then 100%Q
  else x.

End Metrics.

(** ** The persistent store ([app/database.py]) *)

Module Store.

(** Row of [uptime_incidents]. *)
Record UptimeIncident : Type := mkIncident {
  inc_id : Z;
  inc_network_id : string;
  start_time : Z;
  end_time : option Z;
  duration_seconds : option Z;
  affected_devices : option string
}.

(** Row of [alerts]. *)
Record Alert : Type := mkAlert {
  alert_id : Z;
  alert_network_id : string;
  alert_type : string;
  severity : string;
  message : string;
  created_at : Z;
  acknowledged : bool;
  acknowledged_at : option Z
}.

(** Row of [metrics]. *)
Record Metric : Type := mkMetric {
  metric_id : Z;
  metric_network_id : string;
  metric_timestamp : Z;
  m_total_devices : Z;
  m_wireless_devices : Z;
  m_wired_devices : Z;
  m_bandwidth_usage_mbps : Q;
  m_bandwidth_capacity_mbps : Z;
  m_bandwidth_utilization : Q;
  m_avg_signal_dbm : option Q
}.

Record database : Type := mkDatabase {
  metrics : list Metric;
  uptime_incidents : list UptimeIncident;
  alerts : list Alert
}.

Definition empty : database := mkDatabase [] [] [].

(** What a session does when it leaves its [with] block:
    [session.commit()], or an exception, [session.rollback()] and re-raise
    ([get_db_session]). *)
Inductive outcome : Type := Commits | Fails.

(** [autoincrement]: one more than the largest key in the table. *)
Definition next_id {A : Type} (key : A -> Z) (rows : list A) : Z :=
  1 + foldr (fun r m => Z.max (key r) m) 0 rows.

(** [insert_metric(...)] *)
Definition insert_metric (tx : outcome) (network_id : string) (timestamp : Z)
    (total wireless wired : Z) (usage : Q) (capacity : Z) (utilization : Q)
    (avg_signal : option Q) (db : database) : result database :=
  match tx with
  | Fails => Raise OperationalError
  | Commits =>
    let row := mkMetric (next_id metric_id (metrics db)) network_id timestamp
                 total wireless wired usage capacity utilization avg_signal in
    Ok (mkDatabase (metrics db ++ [row]) (uptime_incidents db) (alerts db))
  end.

(** [insert_uptime_incident(network_id, start_time)]; [end_time],
    [duration_seconds] and [affected_devices] keep their default [None]. *)
Definition insert_uptime_incident (tx : outcome) (network_id : string)
    (start : Z) (db : database) : result database :=
  match tx with
  | Fails => Raise OperationalError
  | Commits =>
    let row := mkIncident (next_id inc_id (uptime_incidents db)) network_id
                 start None None None in
    Ok (mkDatabase (metrics db) (uptime_incidents db ++ [row]) (alerts db))
  end.

(** [insert_alert(network_id, alert_type, severity, message)];
    [created_at] defaults to the clock at insertion. *)
Definition insert_alert (tx : outcome) (now : Z)
    (network_id type_ severity_ message_ : string) (db : database)
  : result database :=
  match tx with
  | Fails => Raise OperationalError
  | Commits =>
    let row := mkAlert (next_id alert_id (alerts db)) network_id type_
                 severity_ message_ now false None in
    Ok (mkDatabase (metrics db) (uptime_incidents db) (alerts db ++ [row]))
  end.

(** [end_time IS NULL] *)
Definition is_open (inc : UptimeIncident) : bool :=
  match end_time inc with None => true | Some _ => false end.

(** [duration = int((now - inc_start).total_seconds());
    inc.duration_seconds = max(0, duration)] *)
Definition elapsed_seconds (now start : Z) : Z :=
  Z.max 0 (Z.quot (now - start) 1000000).

(** The body of the closing loop: [inc.end_time = now.isoformat()] and the
    duration. *)
Definition close (now : Z) (inc : UptimeIncident) : UptimeIncident :=
  mkIncident (inc_id inc) (inc_network_id inc) (start_time inc)
    (Some now) (Some (elapsed_seconds now (start_time inc)))
    (affected_devices inc).

(** The open incidents of one network:
    [.filter(network_id == nid).filter(end_time.is_(None))]. *)
Definition open_incidents (nid : string) (db : database)
  : list UptimeIncident :=
  filter (fun inc => inc_network_id inc = nid ∧ is_open inc = true)
         (uptime_incidents db).

End Store.

(** ** The in-memory cache ([data_cache] of [app/dashboard.py]) *)

Module Cache.

(** Entry of a [connected_users] series.  The combined series has no
    [wireless_count] key. *)
Record connectivity_sample : Type := mkConn {
  cs_timestamp : Z;
  cs_count : Z;
  cs_wireless_count : option Z
}.

(** Entry of a [signal_strength_avg] series. *)
Record signal_sample : Type := mkSignal {
  ss_timestamp : Z;
  ss_avg_dbm : Q
}.

(** [data_cache['networks'][network_id]]: the keys the refresh cycle reads
    or decides on.  A key that is absent or [null] is [None]; the two
    series default to the empty list, as [.get(key, [])] reads them. *)
Record network_cache : Type := mkNetworkCache {
  connected_users : list connectivity_sample;
  signal_strength_avg : list signal_sample;
  total_devices : option Z;
  wireless_devices : option Z;
  wired_devices : option Z;
  health_status : option string;
  last_update : option Z;
  eero_count : option Z;
  eero_online : option Z;
  bandwidth_utilization : option Q;
  bandwidth_capacity_mbps : option Z;
  bandwidth_usage_mbps : option Q;
  offline_since : option Z;
  prev_health : option string;         (* '_prev_health' *)
  uptime_24h : option Q
}.

(** The entry the cycle creates for a network it has not seen. *)
Definition fresh : network_cache :=
  mkNetworkCache [] [] None None None None None None None None None None
                 None None None.

Definition set_connected_users (l : list connectivity_sample)
    (c : network_cache) : network_cache :=
  mkNetworkCache l (signal_strength_avg c) (total_devices c)
    (wireless_devices c) (wired_devices c) (health_status c) (last_update c)
    (eero_count c) (eero_online c) (bandwidth_utilization c)
    (bandwidth_capacity_mbps c) (bandwidth_usage_mbps c) (offline_since c)
    (prev_health c) (uptime_24h c).

Definition set_signal_strength_avg (l : list signal_sample)
    (c : network_cache) : network_cache :=
  mkNetworkCache (connected_users c) l (total_devices c)
    (wireless_devices c) (wired_devices c) (health_status c) (last_update c)
    (eero_count c) (eero_online c) (bandwidth_utilization c)
    (bandwidth_capacity_mbps c) (bandwidth_usage_mbps c) (offline_since c)
    (prev_health c) (uptime_24h c).

Definition set_eeros (total green : Z) (c : network_cache) : network_cache :=
  mkNetworkCache (connected_users c) (signal_strength_avg c) (total_devices c)
    (wireless_devices c) (wired_devices c) (health_status c) (last_update c)
    (Some total) (Some green) (bandwidth_utilization c)
    (bandwidth_capacity_mbps c) (bandwidth_usage_mbps c) (offline_since c)
    (prev_health c) (uptime_24h c).

(** [network_cache.update({...})] of the cycle: the two series, the counts,
    the health status and the update time. *)
Definition update (users : list connectivity_sample)
    (signal : list signal_sample) (total wireless : Z) (health : string)
    (now : Z) (c : network_cache) : network_cache :=
  mkNetworkCache users signal (Some total) (Some wireless)
    (Some (total - wireless)) (Some health) (Some now)
    (eero_count c) (eero_online c) (bandwidth_utilization c)
    (bandwidth_capacity_mbps c) (bandwidth_usage_mbps c) (offline_since c)
    (prev_health c) (uptime_24h c).

Definition set_bandwidth (util : Q) (capacity : Z) (usage : Q)
    (c : network_cache) : network_cache :=
  mkNetworkCache (connected_users c) (signal_strength_avg c) (total_devices c)
    (wireless_devices c) (wired_devices c) (health_status c) (last_update c)
    (eero_count c) (eero_online c) (Some util) (Some capacity) (Some usage)
    (offline_since c) (prev_health c) (uptime_24h c).

Definition set_offline_since (t : option Z) (c : network_cache)
  : network_cache :=
  mkNetworkCache (connected_users c) (signal_strength_avg c) (total_devices c)
    (wireless_devices c) (wired_devices c) (health_status c) (last_update c)
    (eero_count c) (eero_online c) (bandwidth_utilization c)
    (bandwidth_capacity_mbps c) (bandwidth_usage_mbps c) t
    (prev_health c) (uptime_24h c).

Definition set_prev_health (h : string) (c : network_cache) : network_cache :=
  mkNetworkCache (connected_users c) (signal_strength_avg c) (total_devices c)
    (wireless_devices c) (wired_devices c) (health_status c) (last_update c)
    (eero_count c) (eero_online c) (bandwidth_utilization c)
    (bandwidth_capacity_mbps c) (bandwidth_usage_mbps c) (offline_since c)
    (Some h) (uptime_24h c).

Definition set_uptime_24h (u : Q) (c : network_cache) : network_cache :=
  mkNetworkCache (connected_users c) (signal_strength_avg c) (total_devices c)
    (wireless_devices c) (wired_devices c) (health_status c) (last_update c)
    (eero_count c) (eero_online c) (bandwidth_utilization c)
    (bandwidth_capacity_mbps c) (bandwidth_usage_mbps c) (offline_since c)
    (prev_health c) (Some u).

(** [data_cache['combined']] *)
Record combined_cache : Type := mkCombined {
  c_connected_users : list connectivity_sample;
  c_signal_strength_avg : list signal_sample;
  c_total_devices : Z;
  c_wireless_devices : Z;
  c_wired_devices : Z;
  c_last_update : option Z;
  c_active_networks : Z
}.

Record data_cache : Type := mkDataCache {
  networks : gmap string network_cache;
  combined : combined_cache
}.

(** [default_cache] of [initialize_data_cache]. *)
Definition default_cache : data_cache :=
  mkDataCache ∅ (mkCombined [] [] 0 0 0 None 0).

(** [series[-168:]] *)
Definition last_168 {A : Type} (series : list A) : list A :=
  drop (length series - 168)%nat series.

(** [if len(series) > 168: series = series[-168:]] *)
Definition cap {A : Type} (series : list A) : list A :=
  if (168 <? length series)%nat then last_168 series else series.

End Cache.

(** ** The process state and the effects of a call *)

(** A request sent to the vendor API. *)
Inductive api_call : Type :=
  | GetDevices (network_id : string)
  | GetEeros (network_id : string)
  | GetNetworkInfo (network_id : string).

Inductive level : Type := INFO | WARNING | ERROR.

(** The alert dictionary built by the alert engine. *)
Record alert : Type := mkAlertDict {
  a_network_id : string;
  a_alert_type : string;
  a_severity : string;
  a_message : string
}.

(** Everything a refresh cycle can read or change: the module globals of
    [app/dashboard.py] and [app/alerts.py], the database, the mail that left,
    the snapshot file with its [_saved_at], the requests sent, the log. *)
Record world : Type := mkWorld {
  cache : Cache.data_cache;                (* data_cache *)
  cache_lock : bool;                       (* _cache_lock.locked() *)
  previous_health : gmap string string;    (* alerts._previous_health *)
  db : Store.database;
  outbox : list alert;
  disk : option (Cache.data_cache * Z);    (* DATA_CACHE_FILE *)
  api_calls : list api_call;
  log : list (level * string)
}.

Definition with_cache (c : Cache.data_cache) (w : world) : world :=
  mkWorld c (cache_lock w) (previous_health w) (db w) (outbox w) (disk w)
          (api_calls w) (log w).
Definition with_cache_lock (b : bool) (w : world) : world :=
  mkWorld (cache w) b (previous_health w) (db w) (outbox w) (disk w)
          (api_calls w) (log w).
Definition with_previous_health (m : gmap string string) (w : world) : world :=
  mkWorld (cache w) (cache_lock w) m (db w) (outbox w) (disk w)
          (api_calls w) (log w).
Definition with_db (d : Store.database) (w : world) : world :=
  mkWorld (cache w) (cache_lock w) (previous_health w) d (outbox w) (disk w)
          (api_calls w) (log w).
Definition with_outbox (o : list alert) (w : world) : world :=
  mkWorld (cache w) (cache_lock w) (previous_health w) (db w) o (disk w)
          (api_calls w) (log w).
Definition with_disk (d : option (Cache.data_cache * Z)) (w : world) : world :=
  mkWorld (cache w) (cache_lock w) (previous_health w) (db w) (outbox w) d
          (api_calls w) (log w).
Definition with_api_calls (l : list api_call) (w : world) : world :=
  mkWorld (cache w) (cache_lock w) (previous_health w) (db w) (outbox w)
          (disk w) l (log w).
Definition with_log (l : list (level * string)) (w : world) : world :=
  mkWorld (cache w) (cache_lock w) (previous_health w) (db w) (outbox w)
          (disk w) (api_calls w) l.

(** A process freshly started on an empty database, with no snapshot. *)
Definition initial_world : world :=
  mkWorld Cache.default_cache false ∅ Store.empty [] None [] [].

(** A Python statement: it changes the state and returns or raises.  What it
    changed before raising stays changed. *)
Definition M (A : Type) : Type := world -> world * result A.

Module Eff.

Definition ret {A : Type} (a : A) : M A := fun w => (w, Ok a).

Definition raise {A : Type} (e : exn) : M A := fun w => (w, Raise e).

Definition bind {A B : Type} (m : M A) (k : A -> M B) : M B :=
  fun w =>
    match m w with
    | (w', Ok a) => k a w'
    | (w', Raise e) => (w', Raise e)
    end.

(** [try: body  except Exception as e: handler] *)
Definition try_except {A : Type} (body : M A) (handler : exn -> M A) : M A :=
  fun w =>
    match body w with
    | (w', Ok a) => (w', Ok a)
    | (w', Raise e) => handler e w'
    end.

Definition gets {A : Type} (f : world -> A) : M A := fun w => (w, Ok (f w)).

Definition modify (f : world -> world) : M unit := fun w => (f w, Ok tt).

(** A result computed outside the state. *)
Definition lift {A : Type} (r : result A) : M A := fun w => (w, r).

(** A database helper: its transaction commits the new tables or raises and
    leaves them as they were. *)
Definition transaction (f : Store.database -> result Store.database)
  : M unit :=
  fun w =>
    match f (db w) with
    | Ok d => (with_db d w, Ok tt)
    | Raise e => (w, Raise e)
    end.

(** [try: body  finally: cleanup] *)
Definition finally {A : Type} (body : M A) (cleanup : M unit) : M A :=
  fun w =>
    match body w with
    | (w', r) =>
      match cleanup w' with
      | (w'', Ok _) => (w'', r)
      | (w'', Raise e) => (w'', Raise e)
      end
    end.

Definition logging (l : level) (text : string) : M unit :=
  modify (fun w => with_log (log w ++ [(l, text)]) w).

(** A request to the vendor API leaves the process. *)
Definition request (c : api_call) : M unit :=
  modify (fun w => with_api_calls (api_calls w ++ [c]) w).

End Eff.

Declare Scope eff_scope.
Delimit Scope eff_scope with eff.
Notation "x <- m ;; k" := (Eff.bind m (fun x => k))
  (at level 100, m at next level, right associativity) : eff_scope.
Notation "m ;; k" := (Eff.bind m (fun _ => k))
  (at level 100, right associativity) : eff_scope.

(** [str(e)] for the log. *)
Definition str_exn (e : exn) : string :=
  match e with
  | ZeroDivisionError => "division by zero"
  | TypeError => "unsupported operand"
  | OperationalError => "database error"
  | SMTPException => "mail error"
  | RequestException => "request error"
  | OSError => "I/O error"
  end.

(** [f"{x:.1f}"] *)
Definition format_1f (x : Q) : string :=
  let tenths := Z.abs (Num.round (x * 10)) in
  (if Qlt_le_dec x 0 then "-" else "")
    +:+ pretty (tenths / 10) +:+ "." +:+ pretty (tenths mod 10).

(** ** The alert engine ([app/alerts.py]) *)

Module Alerts.

(** What the notification collaborator does with one alert:
    [notify_alert] returns [True], returns [False], or raises. *)
Inductive delivery : Type := Sent | NotSent | NotifyRaises.

(** The surroundings of one alert: the fate of the insert, the clock that
    stamps [created_at], the fate of the mail. *)
Record env : Type := mkEnv {
  insert_alert_tx : Store.outcome;
  alert_clock : Z;
  notification : delivery
}.

Local Open Scope eff_scope.

Definition notify_alert (d : delivery) (a : alert) : M bool :=
  match d with
  | Sent => Eff.modify (fun w => with_outbox (outbox w ++ [a]) w) ;;
            Eff.ret true
  | NotSent => Eff.ret false
  | NotifyRaises => Eff.raise SMTPException
  end.

Definition insert_alert (e : env) (a : alert) : M unit :=
  Eff.transaction
    (Store.insert_alert (insert_alert_tx e) (alert_clock e)
       (a_network_id a) (a_alert_type a) (a_severity a) (a_message a)).

(** The [try] block shared by both checks: insert, log, notify; any
    exception is logged. *)
Definition persist_and_notify (e : env) (generated failed : string)
    (a : alert) : M unit :=
  Eff.try_except
    (insert_alert e a ;;
     Eff.logging WARNING (generated +:+ a_message a) ;;
     _ <- notify_alert (notification e) a ;;
     Eff.ret tt)
    (fun ex => Eff.logging ERROR (failed +:+ str_exn ex)).

Definition offline_alert (network_id network_name : string) : alert :=
  mkAlertDict network_id "offline" "critical"
    (network_name +:+ " has gone offline — all devices are unreachable.").

Definition degraded_alert (network_id network_name : string) : alert :=
  mkAlertDict network_id "degraded" "warning"
    (network_name +:+ " is degraded — 50% or fewer devices are online.").

Definition bandwidth_alert (network_id network_name : string)
    (utilization : Q) : alert :=
  mkAlertDict network_id "bandwidth" "critical"
    (network_name +:+ " bandwidth at " +:+ format_1f utilization
       +:+ "% — exceeds 95% threshold.").

(** [check_health_transition(network_id, network_name, new_status)] *)
Definition check_health_transition (e : env)
    (network_id network_name new_status : string) : M (option alert) :=
  old_status <- Eff.gets (fun w => previous_health w !! network_id) ;;
  Eff.modify (fun w =>
    with_previous_health (<[network_id := new_status]> (previous_health w)) w) ;;
  match old_status with
  | None => Eff.ret None
  | Some old =>
    if decide (old = new_status) then Eff.ret None
    else if decide (new_status = "offline") then
      let a := offline_alert network_id network_name in
      persist_and_notify e "Alert generated: " "Failed to persist alert: " a ;;
      Eff.ret (Some a)
    else if decide (new_status = "degraded" ∧ old = "healthy") then
      let a := degraded_alert network_id network_name in
      persist_and_notify e "Alert generated: " "Failed to persist alert: " a ;;
      Eff.ret (Some a)
    else if decide (new_status = "healthy"
                    ∧ (old = "offline" ∨ old = "degraded")) then
      Eff.logging INFO
        ("Network " +:+ network_id +:+ " (" +:+ network_name
           +:+ ") recovered to healthy") ;;
      Eff.ret None
    else Eff.ret None
  end.

(** [check_bandwidth_alert(network_id, network_name, utilization)] *)
Definition check_bandwidth_alert (e : env)
    (network_id network_name : string) (utilization : Q)
  : M (option alert) :=
  if Qlt_le_dec 95 utilization then
    let a := bandwidth_alert network_id network_name utilization in
    persist_and_notify e "Bandwidth alert: "
      "Failed to persist bandwidth alert: " a ;;
    Eff.ret (Some a)
  else Eff.ret None.

(** [process_network_alerts(network_id, network_name, health_status,
    bandwidth_utilization)] *)
Definition process_network_alerts (health_env bandwidth_env : env)
    (network_id network_name health_status : string)
    (bandwidth_utilization : Q) : M (list alert) :=
  health_alert <-
    check_health_transition health_env network_id network_name health_status ;;
  bw_alert <-
    check_bandwidth_alert bandwidth_env network_id network_name
      bandwidth_utilization ;;
  Eff.ret (option_list health_alert ++ option_list bw_alert).

(** [reset_health_tracking()] *)
Definition reset_health_tracking : M unit :=
  Eff.modify (with_previous_health ∅).

(** One observation after another for one network, each in its own
    surroundings; the alerts returned, in order. *)
Fixpoint observe (network_id network_name : string)
    (steps : list (env * string)) : M (list (option alert)) :=
  match steps with
  | [] => Eff.ret []
  | (e, status) :: rest =>
    a <- check_health_transition e network_id network_name status ;;
    more <- observe network_id network_name rest ;;
    Eff.ret (a :: more)
  end.

End Alerts.

(** ** The refresh cycle ([update_cache] of [app/dashboard.py]) *)

Module Refresh.

Import Cache.
Local Open Scope eff_scope.

(** A device of the vendor's list, by the keys the cycle counts on:
    [connected], [last_active] (parsed; [None] when absent or unreadable),
    [wireless] and [interface.signal_dbm] (as a number; [None] for ['N/A'],
    [null] or text that is no number). *)
Record device : Type := mkDevice {
  connected : bool;
  last_active : option Z;
  wireless : bool;
  signal_dbm : option Q
}.

(** [RECENTLY_ACTIVE_THRESHOLD], in seconds. *)
Definition RECENTLY_ACTIVE_THRESHOLD : Z := 900.

(** [is_device_active(device)], at clock [now]. *)
Definition is_device_active (now : Z) (d : device) : bool :=
  if connected d then true
  else match last_active d with
       | None => false
       | Some la => (now - la) <=? RECENTLY_ACTIVE_THRESHOLD * 1000000
       end.

(** An entry of [config['networks']]. *)
Record network_config : Type := mkNetwork {
  net_id : option string;          (* network.get('id') *)
  net_name : option string;        (* network.get('name') *)
  net_active : bool                (* network.get('active', True) *)
}.

(** The answer to the request for the node inventory: the request raises,
    or it comes back with a status code and, when [data] is a list, the
    [status] of each node in it. *)
Inductive node_inventory : Type :=
  | InventoryRaises
  | Inventory (status_code : Z) (data : option (list string)).

(** What the world outside answers while one network is processed. *)
Record network_env : Type := mkNetworkEnv {
  (** [get_all_devices], which answers with a list, empty after its
      retries; [Raise]: a list the comprehension over it cannot read. *)
  devices_response : result (list device);
  (** The clock [is_device_active] reads. *)
  device_clock : Z;
  eeros_response : node_inventory;
  (** [speed.up.value] and [speed.down.value] of [get_network_info], a
      missing one read as 0; [Raise]: a payload of another shape. *)
  network_info_response : result (Q * Q);
  (** The fate of each session the turn may open: the recovery that closes
      the open incidents, the insert of a new incident, the query for the
      first offline alert, the insert of the metrics row. *)
  close_incidents_tx : Store.outcome;
  insert_incident_tx : Store.outcome;
  offline_alert_query : Store.outcome;
  insert_metric_tx : Store.outcome;
  (** The surroundings of the two alert checks. *)
  health_alert_env : Alerts.env;
  bandwidth_alert_env : Alerts.env
}.

(** What the world outside answers during one cycle: the networks of
    [load_config()], each with its answers; the clock read at the start of
    the cycle; whether the snapshot file can be written, and the clock
    [save_data_cache] stamps it with; the clock the [except] block reads. *)
Record cycle_env : Type := mkCycleEnv {
  config_networks : list (network_config * network_env);
  current_time : Z;
  disk_writable : bool;
  saved_at : Z;
  failure_time : Z
}.

(** The lists the loop fills for the combined cache. *)
Record accumulators : Type := mkAcc {
  combined_devices : list device;
  combined_signal_values : list Q
}.

Definition len {A : Type} (l : list A) : Z := Z.of_nat (length l).

Definition py_sum (l : list Q) : Q := fold_left Qplus l 0%Q.

Definition ascii_lower (c : Ascii.ascii) : Ascii.ascii :=
  let n := Ascii.nat_of_ascii c in
  if ((65 <=? n) && (n <=? 90))%nat then Ascii.ascii_of_nat (n + 32) else c.

Fixpoint lower (s : string) : string :=
  match s with
  | EmptyString => EmptyString
  | String c rest => String (ascii_lower c) (lower rest)
  end.

(** The signal values a network contributes: wireless devices whose
    [signal_dbm] is a number within [[-100, -10]]. *)
Definition signal_values (devices : list device) : list Q :=
  omap (fun d =>
          if wireless d then
            match signal_dbm d with
            | Some v => if Qle_bool (-100) v && Qle_bool v (-10)
                        then Some v else None
            | None => None
            end
          else None) devices.

Definition entry (network_id : string) (w : world) : network_cache :=
  default fresh (networks (cache w) !! network_id).

(** An assignment through the alias
    [network_cache = data_cache['networks'][network_id]], which the cycle
    binds once the entry is there. *)
Definition update_entry (network_id : string)
    (f : network_cache -> network_cache) : M unit :=
  Eff.modify (fun w =>
    with_cache (mkDataCache
                  (<[network_id := f (entry network_id w)]> (networks (cache w)))
                  (combined (cache w))) w).

Definition update_combined (f : combined_cache -> combined_cache) : M unit :=
  Eff.modify (fun w =>
    with_cache (mkDataCache (networks (cache w)) (f (combined (cache w)))) w).

(** Health from the node inventory, or from the clients when there is none;
    with the node counts to store. *)
Definition node_health (eeros : node_inventory) (n_connected : Z)
  : string * option (Z * Z) :=
  let fallback := if n_connected >? 0 then "healthy" else "offline" in
  match eeros with
  | Inventory 200 (Some ((_ :: _) as eero_data)) =>
    let total_nodes := len eero_data in
    let green_nodes :=
      len (filter (fun s => lower s = "green") eero_data) in
    (if green_nodes =? total_nodes then "healthy"
     else if green_nodes >? 0 then "degraded"
     else "offline", Some (total_nodes, green_nodes))
  | _ => (fallback, None)
  end.

(** Capacity, usage and utilization; the [except] branch gives zeros. *)
Definition bandwidth_figures (response : result (Q * Q)) (n_connected : Z)
  : Z * Q * Q :=
  let attempt :=
    (speed <- response ;;
     let capacity_mbps := Num.round (fst speed + snd speed) in
     let usage_mbps := (inject_Z n_connected * (5 # 2))%Q in
     bw_util <- (if capacity_mbps >? 0
                 then Metrics.calculate_bandwidth_utilization
                        usage_mbps (inject_Z capacity_mbps)
                 else Ok 0%Q) ;;
     Ok (capacity_mbps, usage_mbps, bw_util))%result in
  match attempt with
  | Ok figures => figures
  | Raise _ => (0, 0%Q, 0%Q)
  end.

(** The recovery transaction: every open incident of the network gets its
    [end_time] and duration; commit, or roll back and raise. *)
Definition close_open_incidents (tx : Store.outcome) (now : Z)
    (network_id : string) (d : Store.database) : result Store.database :=
  match tx with
  | Store.Fails => Raise OperationalError
  | Store.Commits =>
    Ok (Store.mkDatabase (Store.metrics d)
          (map (fun inc =>
                  if decide (Store.inc_network_id inc = network_id
                             ∧ Store.is_open inc = true)
                  then Store.close now inc else inc)
               (Store.uptime_incidents d))
          (Store.alerts d))
  end.

(** Uptime tracking: the comparison of this cycle's health with
    [_prev_health], and the incident it closes or opens. *)
Definition uptime_tracking (e : network_env) (now : Z)
    (network_id health_status : string) : M unit :=
  prev_health <- Eff.gets (fun w => prev_health (entry network_id w)) ;;
  if decide (prev_health = Some "offline" ∧ health_status ≠ "offline") then
    update_entry network_id (set_offline_since None) ;;
    Eff.try_except
      (open_count <- Eff.gets (fun w =>
         length (Store.open_incidents network_id (db w))) ;;
       Eff.transaction
         (close_open_incidents (close_incidents_tx e) now network_id) ;;
       Eff.logging INFO
         ("Closed " +:+ pretty open_count
            +:+ " open uptime incident(s) for network " +:+ network_id
            +:+ " on recovery"))
      (fun ex =>
         Eff.logging ERROR
           ("Failed to close uptime incidents on recovery for "
              +:+ network_id +:+ ": " +:+ str_exn ex))
  else if decide (health_status = "offline"
                  ∧ prev_health ≠ Some "offline" ∧ prev_health ≠ None) then
    update_entry network_id (set_offline_since (Some now)) ;;
    Eff.try_except
      (Eff.transaction
         (Store.insert_uptime_incident (insert_incident_tx e) network_id now))
      (fun ex =>
         Eff.logging ERROR
           ("Failed to record uptime incident: " +:+ str_exn ex))
  else Eff.ret tt.

(** [.order_by(Alert.created_at.asc()).first()] over the offline alerts of
    the network. *)
Definition first_offline_alert (network_id : string) (d : Store.database)
  : option Store.Alert :=
  foldr (fun a best =>
           if decide (Store.alert_network_id a = network_id
                      ∧ Store.alert_type a = "offline")
           then match best with
                | Some b => if Store.created_at a <=? Store.created_at b
                            then Some a else Some b
                | None => Some a
                end
           else best)
        None (Store.alerts d).

(** [offline_since] while the network is offline: the first offline alert
    on record, else what is there, else now. *)
Definition derive_offline_since (e : network_env) (now : Z)
    (network_id health_status : string) : M unit :=
  if decide (health_status = "offline") then
    match offline_alert_query e with
    | Store.Commits =>
      first_alert <- Eff.gets (fun w => first_offline_alert network_id (db w)) ;;
      match first_alert with
      | Some a =>
        update_entry network_id (set_offline_since (Some (Store.created_at a)))
      | None => Eff.ret tt
      end
    | Store.Fails => Eff.ret tt
    end ;;
    since <- Eff.gets (fun w => offline_since (entry network_id w)) ;;
    match since with
    | None => update_entry network_id (set_offline_since (Some now))
    | Some _ => Eff.ret tt
    end
  else Eff.ret tt.

(** The share of samples with a device connected, in percent. *)
Definition uptime_pct (history : list connectivity_sample) : Q :=
  match history with
  | [] => 100%Q
  | _ =>
    let online_points := len (filter (fun p => 0 < cs_count p) history) in
    Num.round1 (inject_Z online_points / inject_Z (len history) * 100)%Q
  end.

Definition average (values : list Q) : Q :=
  (py_sum values / inject_Z (len values))%Q.

Definition display_name (network : network_config) (network_id : string)
  : string :=
  default ("Network " +:+ network_id) (net_name network).

(** [if network_id not in data_cache['networks']: ... = {...}] *)
Definition ensure_entry (network_id : string) : M unit :=
  Eff.modify (fun w =>
    match networks (cache w) !! network_id with
    | Some _ => w
    | None =>
      with_cache (mkDataCache (<[network_id := fresh]> (networks (cache w)))
                              (combined (cache w))) w
    end).

(** "Update network-specific time-series": each series is appended to in
    place, through the alias of the cached list; the local name is then
    bound to the capped list, which [network_cache.update] stores later. *)
Definition update_time_series (now : Z) (network_id : string)
    (n_connected n_wireless : Z) (network_signal_values : list Q)
  : M (list connectivity_sample * list signal_sample) :=
  update_entry network_id (fun c =>
    set_connected_users
      (connected_users c ++ [mkConn now n_connected (Some n_wireless)]) c) ;;
  network_connected_users <-
    Eff.gets (fun w => cap (connected_users (entry network_id w))) ;;
  match network_signal_values with
  | [] => Eff.ret tt
  | _ =>
    update_entry network_id (fun c =>
      set_signal_strength_avg
        (signal_strength_avg c ++
           [mkSignal now (Num.round1 (average network_signal_values))]) c)
  end ;;
  network_signal_strength_avg <-
    Eff.gets (fun w => cap (signal_strength_avg (entry network_id w))) ;;
  Eff.ret (network_connected_users, network_signal_strength_avg).

(** "Calculate health status based on eero node status" *)
Definition health_check (e : network_env) (network_id : string)
    (n_connected : Z) : M string :=
  Eff.request (GetEeros network_id) ;;
  match eeros_response e with
  | InventoryRaises =>
    Eff.logging WARNING
      ("Eero nodes health check failed for " +:+ network_id +:+ ": "
         +:+ str_exn RequestException)
  | Inventory _ _ => Eff.ret tt
  end ;;
  match snd (node_health (eeros_response e) n_connected) with
  | Some (total_nodes, green_nodes) =>
    update_entry network_id (set_eeros total_nodes green_nodes)
  | None => Eff.ret tt
  end ;;
  Eff.ret (fst (node_health (eeros_response e) n_connected)).

(** "Bandwidth tracking" *)
Definition bandwidth_tracking (e : network_env) (network_id : string)
    (n_connected : Z) : M (Z * Q * Q) :=
  Eff.request (GetNetworkInfo network_id) ;;
  let '(capacity_mbps, usage_mbps, bw_util) :=
    bandwidth_figures (network_info_response e) n_connected in
  update_entry network_id
    (set_bandwidth (Num.round1 bw_util) capacity_mbps (Num.round1 usage_mbps)) ;;
  Eff.ret (capacity_mbps, usage_mbps, bw_util).

(** "Calculate uptime percentage" *)
Definition uptime_percentage (network_id : string) : M unit :=
  history <- Eff.gets (fun w => connected_users (entry network_id w)) ;;
  update_entry network_id (set_uptime_24h (uptime_pct history)).

(** "Persist metrics to database" *)
Definition persist_metrics (e : network_env) (now : Z) (network_id : string)
    (n_connected n_wireless : Z) (network_signal_values : list Q)
    (capacity_mbps : Z) (usage_mbps bw_util : Q) : M unit :=
  Eff.try_except
    (let avg_sig :=
       match network_signal_values with
       | [] => None
       | _ => Some (Num.round1 (average network_signal_values))
       end in
     Eff.transaction
       (Store.insert_metric (insert_metric_tx e) network_id now
          n_connected n_wireless (n_connected - n_wireless)
          (Num.round1 usage_mbps) capacity_mbps (Num.round1 bw_util) avg_sig))
    (fun ex =>
       Eff.logging ERROR ("Failed to persist metrics: " +:+ str_exn ex)).

(** [connected_devices = [d for d in network_devices if is_device_active(d)]] *)
Definition connected_of (e : network_env) (network_devices : list device)
  : list device :=
  filter (fun d => is_device_active (device_clock e) d = true) network_devices.

(** The [health_status] the cycle settles on for a network. *)
Definition health_of (e : network_env) (network_devices : list device)
  : string :=
  fst (node_health (eeros_response e) (len (connected_of e network_devices))).

(** The loop body once the device list is in, from the filter of the
    active devices to the alert checks. *)
Definition refresh_network (now : Z) (network : network_config)
    (e : network_env) (network_id : string) (network_devices : list device)
    (acc : accumulators) : M accumulators :=
  let connected_devices := connected_of e network_devices in
  let wireless_devices :=
    filter (fun d => wireless d = true) connected_devices in
  let network_signal_values := signal_values connected_devices in
  ensure_entry network_id ;;
  series <- update_time_series now network_id (len connected_devices)
              (len wireless_devices) network_signal_values ;;
  health_status <- health_check e network_id (len connected_devices) ;;
  update_entry network_id
    (update (fst series) (snd series) (len connected_devices)
            (len wireless_devices) health_status now) ;;
  figures <- bandwidth_tracking e network_id (len connected_devices) ;;
  let '(capacity_mbps, usage_mbps, bw_util) := figures in
  uptime_tracking e now network_id health_status ;;
  derive_offline_since e now network_id health_status ;;
  update_entry network_id (set_prev_health health_status) ;;
  uptime_percentage network_id ;;
  persist_metrics e now network_id (len connected_devices)
    (len wireless_devices) network_signal_values capacity_mbps usage_mbps
    bw_util ;;
  _ <- Alerts.process_network_alerts (health_alert_env e)
         (bandwidth_alert_env e) network_id
         (display_name network network_id) health_status bw_util ;;
  Eff.ret (mkAcc (combined_devices acc ++ connected_devices)
                 (combined_signal_values acc ++ network_signal_values)).

Definition usable_id (network : network_config) : option string :=
  match net_id network with
  | None | Some "" => None
  | Some network_id => Some network_id
  end.

(** The body of the loop over the active networks. *)
Definition process_network (now : Z) (network : network_config)
    (e : network_env) (acc : accumulators) : M accumulators :=
  match usable_id network with
  | None => Eff.ret acc                                          (* continue *)
  | Some network_id =>
    Eff.request (GetDevices network_id) ;;
    network_devices <- Eff.lift (devices_response e) ;;
    match network_devices with
    | [] => Eff.ret acc                                          (* continue *)
    | _ => refresh_network now network e network_id network_devices acc
    end
  end.

Fixpoint process_networks (now : Z)
    (todo : list (network_config * network_env)) (acc : accumulators)
  : M accumulators :=
  match todo with
  | [] => Eff.ret acc
  | (network, e) :: rest =>
    acc' <- process_network now network e acc ;;
    process_networks now rest acc'
  end.

(** [save_data_cache()] *)
Definition save_data_cache (e : cycle_env) : M bool :=
  if disk_writable e then
    Eff.modify (fun w => with_disk (Some (cache w, saved_at e)) w) ;;
    Eff.logging INFO "Data cache saved to disk" ;;
    Eff.ret true
  else
    Eff.logging ERROR ("Failed to save data cache: " +:+ str_exn OSError) ;;
    Eff.ret false.

(** [active_networks = [n for n in networks if n.get('active', True)]] *)
Definition active_networks (e : cycle_env)
  : list (network_config * network_env) :=
  filter (fun p => net_active (fst p) = true) (config_networks e).

Definition no_accumulated : accumulators := mkAcc [] [].

(** After the loop: the combined cache, then the snapshot. *)
Definition finish_cycle (e : cycle_env) (acc : accumulators) : M unit :=
  let now := current_time e in
  update_combined (fun c =>
    mkCombined
      (c_connected_users c ++ [mkConn now (len (combined_devices acc)) None])
      (c_signal_strength_avg c) (c_total_devices c) (c_wireless_devices c)
      (c_wired_devices c) (c_last_update c) (c_active_networks c)) ;;
  combined_connected_users <-
    Eff.gets (fun w => cap (c_connected_users (combined (cache w)))) ;;
  match combined_signal_values acc with
  | [] => Eff.ret tt
  | _ =>
    update_combined (fun c =>
      mkCombined (c_connected_users c)
        (c_signal_strength_avg c ++
           [mkSignal now (Num.round1 (average (combined_signal_values acc)))])
        (c_total_devices c) (c_wireless_devices c)
        (c_wired_devices c) (c_last_update c) (c_active_networks c))
  end ;;
  combined_signal_strength_avg <-
    Eff.gets (fun w => cap (c_signal_strength_avg (combined (cache w)))) ;;
  let combined_wireless :=
    len (filter (fun d => wireless d = true) (combined_devices acc)) in
  let combined_wired := len (combined_devices acc) - combined_wireless in
  update_combined (fun _ =>
    mkCombined combined_connected_users combined_signal_strength_avg
      (len (combined_devices acc)) combined_wireless combined_wired
      (Some now) (len (active_networks e))) ;;
  Eff.logging INFO
    ("Multi-network cache updated: " +:+ pretty (len (active_networks e))
       +:+ " networks, " +:+ pretty (len (combined_devices acc))
       +:+ " total devices") ;;
  _ <- save_data_cache e ;;
  Eff.ret tt.

(** The [try] block of [update_cache]. *)
Definition cycle (e : cycle_env) : M unit :=
  Eff.logging INFO "Starting multi-network cache update..." ;;
  match active_networks e with
  | [] => Eff.logging WARNING "No active networks configured"   (* return *)
  | todo =>
    acc <- process_networks (current_time e) todo no_accumulated ;;
    finish_cycle e acc
  end.

(** The [except Exception] block of [update_cache]. *)
Definition on_failure (e : cycle_env) (ex : exn) : M unit :=
  Eff.logging ERROR ("Multi-network cache update error: " +:+ str_exn ex) ;;
  update_combined (fun c =>
    mkCombined (c_connected_users c) (c_signal_strength_avg c)
      (c_total_devices c) (c_wireless_devices c) (c_wired_devices c)
      (Some (failure_time e)) (c_active_networks c)) ;;
  _ <- save_data_cache e ;;
  Eff.ret tt.

(** [_cache_lock.acquire(blocking=False)] *)
Definition acquire : M bool :=
  fun w =>
    if cache_lock w then (w, Ok false)
    else (with_cache_lock true w, Ok true).

(** [_cache_lock.release()] *)
Definition release : M unit := Eff.modify (with_cache_lock false).

Definition skipped : level * string :=
  (INFO, "Cache update already in progress, skipping duplicate request").

(** [update_cache()] *)
Definition update_cache (e : cycle_env) : M unit :=
  acquired <- acquire ;;
  if negb acquired then Eff.logging (fst skipped) (snd skipped)  (* return *)
  else Eff.finally (Eff.try_except (cycle e) (on_failure e)) release.

(** One cycle after another, as the background thread runs them. *)
Fixpoint refresh_cycles (cycles : list cycle_env) : M unit :=
  match cycles with
  | [] => Eff.ret tt
  | e :: rest => update_cache e ;; refresh_cycles rest
  end.

(** [health and health != 'offline'] for the cached health of a network. *)
Definition currently_online (w : world) (network_id : string) : bool :=
  match networks (cache w) !! network_id with
  | Some c =>
    match health_status c with
    | Some health =>
      bool_decide (health ≠ "" ∧ health ≠ "offline")
    | None => false
    end
  | None => false
  end.

(** [_close_orphaned_incidents()], run once at start, at clock [now]. *)
Definition close_orphaned_incidents (tx : Store.outcome) (now : Z) : M unit :=
  Eff.try_except
    (match tx with
     | Store.Fails => Eff.raise OperationalError
     | Store.Commits =>
       Eff.modify (fun w =>
         let orphaned inc :=
           Store.is_open inc && currently_online w (Store.inc_network_id inc) in
         let closed :=
           filter (fun inc => orphaned inc = true)
                  (Store.uptime_incidents (db w)) in
         with_log
           (log w ++
              map (fun inc =>
                     (INFO, "Closed orphaned incident for network "
                              +:+ Store.inc_network_id inc))
                  closed)
           (with_db
              (Store.mkDatabase (Store.metrics (db w))
                 (map (fun inc =>
                         if orphaned inc then Store.close now inc else inc)
                      (Store.uptime_incidents (db w)))
                 (Store.alerts (db w)))
              w))
     end)
    (fun ex =>
       Eff.logging ERROR
         ("Failed to close orphaned incidents: " +:+ str_exn ex)).

End Refresh.

(** ** Threads calling [update_cache] *)

Module Threads.

Import Refresh.

(** Where a thread stands in [update_cache]. *)
Inductive thread : Type :=
  | Calling (e : cycle_env)        (* about to try the lock *)
  | Entered (e : cycle_env)        (* lock taken, at the top of [try] *)
  | Looping (e : cycle_env) (todo : list (network_config * network_env))
            (acc : accumulators)   (* in the loop, lock held *)
  | Returned.

Definition in_cycle (t : thread) : bool :=
  match t with
  | Entered _ | Looping _ _ _ => true
  | Calling _ | Returned => false
  end.

Definition finished (t : thread) : bool :=
  match t with Returned => true | _ => false end.

(** The next atomic piece of [update_cache] for a thread: the attempt on
    the lock; the entry into [try]; one network of the loop; the end of the
    cycle with [finally]. *)
Definition advance (t : thread) (w : world) : thread * world :=
  match t with
  | Calling e =>
    match acquire w with
    | (w', Ok true) => (Entered e, w')
    | (w', _) => (Returned, fst (Eff.logging (fst skipped) (snd skipped) w'))
    end
  | Entered e =>
    let w1 := fst (Eff.logging INFO "Starting multi-network cache update..." w) in
    match active_networks e with
    | [] =>
      (Returned,
       fst (release (fst (Eff.logging WARNING "No active networks configured" w1))))
    | todo => (Looping e todo no_accumulated, w1)
    end
  | Looping e [] acc =>
    match Eff.try_except (finish_cycle e acc) (on_failure e) w with
    | (w', _) => (Returned, fst (release w'))
    end
  | Looping e ((network, ne) :: rest) acc =>
    match process_network (current_time e) network ne acc w with
    | (w', Ok acc') => (Looping e rest acc', w')
    | (w', Raise ex) => (Returned, fst (release (fst (on_failure e ex w'))))
    end
  | Returned => (Returned, w)
  end.

(** The threads of the process and the state they share. *)
Definition configuration : Type := list thread * world.

(** Some thread that has not returned takes its next step. *)
Inductive step : configuration -> configuration -> Prop :=
  | step_thread (ts : list thread) (w : world) (i : nat) (t : thread) :
      ts !! i = Some t ->
      finished t = false ->
      step (ts, w) (<[i := fst (advance t w)]> ts, snd (advance t w)).

Inductive reachable (c0 : configuration) : configuration -> Prop :=
  | reachable_start : reachable c0 c0
  | reachable_step (c c' : configuration) :
      reachable c0 c -> step c c' -> reachable c0 c'.

(** A schedule picks the thread of each step. *)
Fixpoint run (schedule : list nat) (c : configuration) : configuration :=
  match schedule with
  | [] => c
  | i :: rest =>
    match fst c !! i with
    | Some t =>
      if finished t then run rest c
      else run rest (<[i := fst (advance t (snd c))]> (fst c),
                     snd (advance t (snd c)))
    | None => run rest c
    end
  end.

(** One thread alone, stepped until it returns. *)
Fixpoint alone (fuel : nat) (t : thread) (w : world) : thread * world :=
  match fuel with
  | O => (t, w)
  | S n => if finished t then (t, w)
           else let '(t', w') := advance t w in alone n t' w'
  end.

End Threads.

(** ** Assertions about effects *)

(** The statement leaves the observation [f] of the state as it was. *)
Definition keeps {A B : Type} (f : world -> B) (m : M A) : Prop :=
  forall w, f (fst (m w)) = f w.

(** From a state in [P], the statement returns (it does not raise) some [a],
    in a state in [Q a]. *)
Definition ensures {A : Type} (P : world -> Prop) (m : M A)
    (Q : A -> world -> Prop) : Prop :=
  forall w, P w -> exists a, snd (m w) = Ok a /\ Q a (fst (m w)).

(** The statement returns: whatever the state, it does not raise. *)
Definition returns {A : Type} (m : M A) : Prop :=
  forall w, exists a, snd (m w) = Ok a.

(** The statement maintains [I], whether it returns or raises. *)
Definition preserves {A : Type} (I : world -> Prop) (m : M A) : Prop :=
  forall w, I w -> I (fst (m w)).

(** The table of incidents. *)
Definition incidents (w : world) : list Store.UptimeIncident :=
  Store.uptime_incidents (db w).

(** The number of open incidents of a network. *)
Definition open_count (network_id : string) (w : world) : nat :=
  length (Store.open_incidents network_id (db w)).

(** The previous-health marker of a network, [None] when the cache has no
    entry or the entry has no marker. *)
Definition marker (network_id : string) (w : world) : option string :=
  Cache.prev_health (Refresh.entry network_id w).

(** What the incident state machine of one network stands on: its open
    incidents and its marker. *)
Definition uptime_view (network_id : string) (w : world)
  : list Store.UptimeIncident * option string :=
  (Store.open_incidents network_id (db w), marker network_id w).

(** Between cycles: no open incident, or one while the marker says offline. *)
Definition balanced (v : list Store.UptimeIncident * option string) : Prop :=
  length (fst v) = 0%nat
  \/ (length (fst v) = 1%nat /\ snd v = Some "offline").

Definition tracked (network_id : string) (w : world) : Prop :=
  balanced (uptime_view network_id w).

(** Inside the loop body, between the uptime tracking for health [h] and the
    update of the marker: an open incident means the network is offline now. *)
Definition settling (h : string)
    (v : list Store.UptimeIncident * option string) : Prop :=
  length (fst v) = 0%nat \/ (length (fst v) = 1%nat /\ h = "offline").

(** What the uptime tracking of a network does to the database, by the
    marker [prev] it finds and the health [h] of this cycle: the recovery
    transaction, the insert of a new incident, or nothing. *)
Definition incident_step (e : Refresh.network_env) (now : Z)
    (network_id : string) (prev : option string) (h : string)
    (d : Store.database) : Store.database :=
  if decide (prev = Some "offline" /\ h <> "offline") then
    match Refresh.close_open_incidents (Refresh.close_incidents_tx e) now
            network_id d with
    | Ok d' => d'
    | Raise _ => d
    end
  else if decide (h = "offline" /\ prev <> Some "offline" /\ prev <> None) then
    match Store.insert_uptime_incident (Refresh.insert_incident_tx e)
            network_id now d with
    | Ok d' => d'
    | Raise _ => d
    end
  else d.

(** No recovery transaction of the cycle fails. *)
Definition closes_commit (e : Refresh.cycle_env) : Prop :=
  Forall (fun p => Refresh.close_incidents_tx (snd p) = Store.Commits)
         (Refresh.config_networks e).

(** Every series of the cache is within the cap. *)
Definition cache_bounded (c : Cache.data_cache) : Prop :=
  (forall network_id n,
      Cache.networks c !! network_id = Some n ->
      (length (Cache.connected_users n) <= 168)%nat
      /\ (length (Cache.signal_strength_avg n) <= 168)%nat)
  /\ (length (Cache.c_connected_users (Cache.combined c)) <= 168)%nat
  /\ (length (Cache.c_signal_strength_avg (Cache.combined c)) <= 168)%nat.

Definition series_bounded (w : world) : Prop := cache_bounded (cache w).

(** The signal sample of a cycle, if any device reported a valid signal. *)
Definition signal_entry (now : Z) (values : list Q)
  : list Cache.signal_sample :=
  match values with
  | [] => []
  | _ => [Cache.mkSignal now (Num.round1 (Refresh.average values))]
  end.

(** [data_cache['networks'].get(network_id, {}).get('health_status')] *)
Definition cached_health (w : world) (network_id : string) : option string :=
  match Cache.networks (cache w) !! network_id with
  | Some n => Cache.health_status n
  | None => None
  end.

(** The rule of the specification for startup reconciliation: close when the
    cached health is not offline. *)
Definition spec_closes_orphan (cached_health : option string) : Prop :=
  cached_health <> Some "offline".

(** The alert a health transition calls for, by the last status seen. *)
Definition transition_alert (old_status : option string)
    (network_id network_name new_status : string) : option alert :=
  match old_status with
  | None => None
  | Some old =>
    if decide (old = new_status) then None
    else if decide (new_status = "offline")
         then Some (Alerts.offline_alert network_id network_name)
    else if decide (new_status = "degraded" /\ old = "healthy")
         then Some (Alerts.degraded_alert network_id network_name)
    else None
  end.

(** The rows an alert leaves in the table: one if its insert commits. *)
Definition alert_rows (e : Alerts.env) (a : option alert) (d : Store.database)
  : list Store.Alert :=
  match a, Alerts.insert_alert_tx e with
  | Some a, Store.Commits =>
    [Store.mkAlert (Store.next_id Store.alert_id (Store.alerts d))
       (a_network_id a) (a_alert_type a) (a_severity a) (a_message a)
       (Alerts.alert_clock e) false None]
  | _, _ => []
  end.

(** At most one thread is inside a cycle, and none while the lock is free. *)
Definition exclusive (c : Threads.configuration) : Prop :=
  (cache_lock (snd c) = false ->
   forall i t, fst c !! i = Some t -> Threads.in_cycle t = false)
  /\ (forall i j ti tj,
         fst c !! i = Some ti -> fst c !! j = Some tj ->
         Threads.in_cycle ti = true -> Threads.in_cycle tj = true -> i = j).

(** The state a skipped call leaves: the state it found, one log line more. *)
Definition skip (w : world) : world := with_log (log w ++ [Refresh.skipped]) w.

(** What identifies an alert row: network, type and severity. *)
Definition alert_summary (r : Store.Alert) : string * string * string :=
  (Store.alert_network_id r, Store.alert_type r, Store.severity r).

(** The summaries of the rows an alert leaves when its insert commits. *)
Definition persisted (e : Alerts.env) (summary : string * string * string)
  : list (string * string * string) :=
  match Alerts.insert_alert_tx e with
  | Store.Commits => [summary]
  | Store.Fails => []
  end.

(** No recovery transaction fails in what a thread has yet to run. *)
Definition thread_commits (t : Threads.thread) : Prop :=
  match t with
  | Threads.Calling e | Threads.Entered e => closes_commit e
  | Threads.Looping _ todo _ =>
    Forall (fun p => Refresh.close_incidents_tx (snd p) = Store.Commits) todo
  | Threads.Returned => True
  end.

(** ** A monitored site, for worked examples *)

Module Scenario.

Import Refresh.

Definition quiet : Alerts.env := Alerts.mkEnv Store.Commits 5 Alerts.NotSent.

(** A wireless client, connected, at -55 dBm. *)
Definition laptop : device := mkDevice true None true (Some (-55)%Q).

(** One client online, a single node whose status is [node_status], a
    100/20 link, and the given fate of the recovery transaction. *)
Definition answers (node_status : string) (recovery : Store.outcome)
  : network_env :=
  mkNetworkEnv (Ok [laptop]) 0 (Inventory 200 (Some [node_status])) (Ok (100, 20)%Q)
               recovery Store.Commits Store.Commits Store.Commits quiet quiet.

(** The database is down and the mail server raises. *)
Definition unreachable : Alerts.env :=
  Alerts.mkEnv Store.Fails 5 Alerts.NotifyRaises.

(** The site's only node is red while every transaction fails. *)
Definition outage : network_env :=
  mkNetworkEnv (Ok [laptop]) 0 (Inventory 200 (Some ["red"])) (Ok (100, 20)%Q)
               Store.Fails Store.Fails Store.Fails Store.Fails
               unreachable unreachable.

Definition site : network_config := mkNetwork (Some "n1") (Some "Site") true.

(** A cycle at [t] seconds. *)
Definition cycle_at (t : Z) (node_status : string) (recovery : Store.outcome)
  : cycle_env :=
  mkCycleEnv [(site, answers node_status recovery)] (t * 1000000) true
             (t * 1000000) (t * 1000000).

(** Up, down, up, down, every transaction committing. *)
Definition steady : list cycle_env :=
  [cycle_at 60 "green" Store.Commits; cycle_at 120 "red" Store.Commits;
   cycle_at 180 "green" Store.Commits; cycle_at 240 "red" Store.Commits].

(** The same, but the database is unreachable at the recovery. *)
Definition flapping : list cycle_env :=
  [cycle_at 60 "green" Store.Commits; cycle_at 120 "red" Store.Commits;
   cycle_at 180 "green" Store.Fails; cycle_at 240 "red" Store.Commits].

(** A process restarted with an empty cache on a database that holds one
    incident of the site, opened at second 60 and never closed. *)
Definition restarted : world :=
  with_db (Store.mkDatabase []
             [Store.mkIncident 1 "n1" 60000000 None None None] [])
          initial_world.

(** The same, with the site's health cached by a first cycle. *)
Definition restarted_with (health : string) : world :=
  with_cache
    (Cache.mkDataCache
       {[ "n1" := Cache.update [] [] 1 1 health 90000000 Cache.fresh ]}
       (Cache.combined Cache.default_cache))
    restarted.

End Scenario.

(** ** Gauges, grades and chart helpers ([app/computations.py]) *)

Module Computations.

(** The loop of [get_gauge_color]: the colour of the first threshold the
    value meets or exceeds. *)
Fixpoint first_met (value : Q) (thresholds : list (Q * string))
  : option string :=
  match thresholds with
  | [] => None
  | (threshold, color) :: rest =>
    if Qle_bool threshold value then Some color else first_met value rest
  end.

(** [get_gauge_color(value, thresholds)]; [None] is the [IndexError] of
    [thresholds[-1]] on an empty list. *)
Definition get_gauge_color (value : Q) (thresholds : list (Q * string))
  : option string :=
  match first_met value thresholds with
  | Some color => Some color
  | None => snd <$> last thresholds
  end.

(** [get_health_gauge_color(score)] *)
Definition get_health_gauge_color (score : Q) : option string :=
  get_gauge_color score
    [(80%Q, "#4CAF50"); (50%Q, "#FFC107"); (0%Q, "#F44336")].

(** [get_bandwidth_gauge_color(utilization)] *)
Definition get_bandwidth_gauge_color (utilization : Q) : string :=
  if Qle_bool utilization 60 then "#4CAF50"
  else if Qle_bool utilization 80 then "#FFC107"
  else "#F44336".


(** [score_to_grade(score)] *)
Definition score_to_grade (score : Q) : string :=
  if Qle_bool 90 score then "A"
  else if Qle_bool 80 score then "B"
  else if Qle_bool 70 score then "C"
  else if Qle_bool 60 score then "D"
  else "F".

(** [filter_nonzero_segments(device_type_dict)] *)
Definition filter_nonzero_segments (device_type_dict : gmap string Z)
  : gmap string Z :=
  filter (fun kv => 0 < kv.2) device_type_dict.

(** The dictionary [get_signal_bar_data] returns. *)
Record signal_bar : Type := mkSignalBar {
  filled : Z;
  unfilled : Z;
  color : string
}.

(** [get_signal_bar_data(mesh_quality)] *)
Definition get_signal_bar_data (mesh_quality : Z) : signal_bar :=
  let clamped := Z.max 1 (Z.min 5 mesh_quality) in
  let color :=
    if 4 <=? clamped then "#4CAF50"
    else if 2 <=? clamped then "#FFC107"
    else "#F44336" in
  mkSignalBar clamped (5 - clamped) color.

(** [check_firmware_consistency(version_list)] *)
Definition check_firmware_consistency (version_list : list string) : bool :=
  if (length version_list <=? 1)%nat then true
  else bool_decide (size (list_to_set version_list : gset string) = 1%nat).

End Computations.

(** ** Device helpers ([app/dashboard.py]) *)

Module Devices.

(** [k in text] on strings: [k] starts [text] or occurs further in. *)
Fixpoint contains (k text : string) : bool :=
  String.prefix k text
  || match text with
     | EmptyString => false
     | String _ rest => contains k rest
     end.

(** [any(k in text for k in keywords)] *)
Definition any_in (keywords : list string) (text : string) : bool :=
  existsb (fun k => contains k text) keywords.

(** [detect_device_os(device)], from [str(device.get('manufacturer', ''))]
    and [str(device.get('hostname', ''))]; [lower] is [str.lower] on ASCII
    text. *)
Definition detect_device_os (manufacturer hostname : string) : string :=
  let manufacturer := Refresh.lower manufacturer in
  let hostname := Refresh.lower hostname in
  let text := manufacturer +:+ " " +:+ hostname in
  if any_in ["amazon"; "amazon technologies"] manufacturer then "Amazon"
  else if any_in ["echo"; "alexa"; "fire tv"; "kindle"] text then "Amazon"
  else if any_in ["apple"; "apple inc"] manufacturer then "iOS"
  else if any_in ["iphone"; "ipad"; "mac"; "ios"; "apple"] text then "iOS"
  else if any_in ["samsung"; "google"; "lg electronics"; "htc"; "sony";
                  "motorola"; "huawei"; "xiaomi"; "oneplus"] manufacturer
       then "Android"
  else if any_in ["android"; "pixel"; "galaxy"] text then "Android"
  else if any_in ["microsoft"; "dell"; "hp"; "lenovo"; "asus"; "acer"; "msi"]
            manufacturer
       then "Windows"
  else if any_in ["windows"; "microsoft"; "surface"] text then "Windows"
  else if any_in ["sony computer entertainment"; "nintendo"] manufacturer
       then "Gaming"
  else if any_in ["playstation"; "xbox"; "nintendo"; "steam deck"] text
       then "Gaming"
  else if any_in ["roku"; "nvidia"; "chromecast"] manufacturer
       then "Streaming"
  else if any_in ["roku"; "chromecast"; "nvidia shield"; "apple tv"] text
       then "Streaming"
  else "Other".

(** The keys of [network_os_counts], which [update_cache] indexes with the
    result of [detect_device_os]. *)
Definition os_count_keys : list string :=
  ["iOS"; "Android"; "Windows"; "Amazon"; "Gaming"; "Streaming"; "Other"].

(** What [interface.signal_dbm] can hold: nothing to read ([None], [''],
    ['N/A'], or a text [float()] rejects), a number, or a text that
    [float()] reads as [dbm] once [' dBm'] is cut off. *)
Inductive reading : Type :=
  | NoReading
  | Number (dbm : Q)
  | Text (dbm : Q).

(** The guard and the parse that open [convert_signal_dbm_to_percent] and
    [get_signal_quality]: [not signal_dbm] also holds for the number 0. *)
Definition parsed (signal_dbm : reading) : option Q :=
  match signal_dbm with
  | NoReading => None
  | Number dbm => if Qeq_bool dbm 0 then None else Some dbm
  | Text dbm => Some dbm
  end.

(** [int(x)]: truncation towards zero. *)
Definition py_int (x : Q) : Z := Z.quot (Qnum x) (Z.pos (Qden x)).

(** [convert_signal_dbm_to_percent(signal_dbm)] *)
Definition convert_signal_dbm_to_percent (signal_dbm : reading) : Z :=
  match parsed signal_dbm with
  | None => 0
  | Some dbm =>
    if Qle_bool (-50) dbm then 100
    else if Qle_bool dbm (-100) then 0
    else py_int (2 * (dbm + 100))
  end.

(** [get_signal_quality(signal_dbm)] *)
Definition get_signal_quality (signal_dbm : reading) : string :=
  match parsed signal_dbm with
  | None => "Unknown"
  | Some dbm =>
    if Qle_bool (-50) dbm then "Excellent"
    else if Qle_bool (-60) dbm then "Very Good"
    else if Qle_bool (-70) dbm then "Good"
    else if Qle_bool (-80) dbm then "Fair"
    else "Poor"
  end.

(** [filter_data_by_timerange(data, hours)] at clock [now], over entries
    with a [timestamp]; [earliest] and [latest] are [datetime.min] and
    [datetime.max] on that clock.  [None] is the [OverflowError] of
    [timedelta(hours=hours)] or of the subtraction, when the cutoff is no
    datetime. *)
Definition filter_data_by_timerange {A : Type} (timestamp : A -> Z)
    (earliest latest now : Z) (data : list A) (hours : Z)
  : option (list A) :=
  match data with
  | [] => Some data
  | _ =>
    if hours =? 0 then Some data
    else if 999999999 <? Z.abs (hours / 24) then None
    else
      let cutoff_time := now - hours * 3600000000 in
      if (cutoff_time <? earliest) || (latest <? cutoff_time) then None
      else Some (filter (fun entry => cutoff_time <= timestamp entry) data)
  end.

End Devices.

(** ** Alert and metric queries ([app/database.py], [app/alerts.py]) *)

Module Queries.

Local Open Scope eff_scope.

(** A session whose block reads the tables and returns a value, which may
    change them: the commit gives the new tables and the value, a failure
    rolls back and raises. *)
Definition session {A : Type}
    (f : Store.database -> result (Store.database * A)) : M A :=
  fun w =>
    match f (db w) with
    | Ok (d, a) => (with_db d w, Ok a)
    | Raise e => (w, Raise e)
    end.

(** [.order_by(Alert.created_at.desc())] *)
Definition newer_first (a b : Store.Alert) : Prop :=
  Store.created_at b <= Store.created_at a.

(** [.order_by(Metric.timestamp.asc())] *)
Definition older_first (a b : Store.Metric) : Prop :=
  Store.metric_timestamp a <= Store.metric_timestamp b.

#[global] Instance newer_first_dec (a b : Store.Alert)
  : Decision (newer_first a b) := Z_le_dec _ _.

#[global] Instance older_first_dec (a b : Store.Metric)
  : Decision (older_first a b) := Z_le_dec _ _.

(** [get_alerts(network_id, acknowledged)]; rows stamped alike come in the
    order of their insertion. *)
Definition get_alerts (tx : Store.outcome) (network_id : option string)
    (acknowledged : option bool) (d : Store.database)
  : result (Store.database * list Store.Alert) :=
  match tx with
  | Store.Fails => Raise OperationalError
  | Store.Commits =>
    let query := Store.alerts d in
    let query :=
      match network_id with
      | Some nid => filter (fun a => Store.alert_network_id a = nid) query
      | None => query
      end in
    let query :=
      match acknowledged with
      | Some b => filter (fun a => Store.acknowledged a = b) query
      | None => query
      end in
    Ok (d, merge_sort newer_first query)
  end.

(** [get_metrics(network_id, since)]; [since] is [None] for [None] and
    for the empty text. *)
Definition get_metrics (tx : Store.outcome) (network_id : string)
    (since : option Z) (d : Store.database)
  : result (Store.database * list Store.Metric) :=
  match tx with
  | Store.Fails => Raise OperationalError
  | Store.Commits =>
    let query :=
      filter (fun m => Store.metric_network_id m = network_id)
             (Store.metrics d) in
    let query :=
      match since with
      | Some t => filter (fun m => t <= Store.metric_timestamp m) query
      | None => query
      end in
    Ok (d, merge_sort older_first query)
  end.

(** [alert.acknowledged = True; alert.acknowledged_at = now] on
    [.filter(Alert.id == alert_id).first()]; [None] when no row has the
    key. *)
Fixpoint acknowledge_first (now alert_id : Z) (rows : list Store.Alert)
  : option (list Store.Alert) :=
  match rows with
  | [] => None
  | a :: rest =>
    if Store.alert_id a =? alert_id then
      Some (Store.mkAlert (Store.alert_id a) (Store.alert_network_id a)
              (Store.alert_type a) (Store.severity a) (Store.message a)
              (Store.created_at a) true (Some now) :: rest)
    else cons a <$> acknowledge_first now alert_id rest
  end.

(** [acknowledge_alert(alert_id)], at clock [now] *)
Definition acknowledge_alert (tx : Store.outcome) (now alert_id : Z)
    (d : Store.database) : result (Store.database * bool) :=
  match tx with
  | Store.Fails => Raise OperationalError
  | Store.Commits =>
    match acknowledge_first now alert_id (Store.alerts d) with
    | None => Ok (d, false)
    | Some rows =>
      Ok (Store.mkDatabase (Store.metrics d) (Store.uptime_incidents d) rows,
          true)
    end
  end.

(** [l[:limit]] *)
Definition slice_to {A : Type} (limit : Z) (l : list A) : list A :=
  if 0 <=? limit then take (Z.to_nat limit) l
  else take (length l - Z.to_nat (- limit)) l.

(** [get_recent_alerts(limit, network_id)]; the dictionaries it builds
    carry the columns of the rows. *)
Definition get_recent_alerts (tx : Store.outcome) (limit : Z)
    (network_id : option string) : M (list Store.Alert) :=
  Eff.try_except
    (alerts <- session (get_alerts tx network_id None) ;;
     Eff.ret (slice_to limit alerts))
    (fun ex =>
       Eff.logging ERROR ("Failed to fetch alerts: " +:+ str_exn ex) ;;
       Eff.ret []).

(** [get_unacknowledged_count()] *)
Definition get_unacknowledged_count (tx : Store.outcome) : M Z :=
  Eff.try_except
    (alerts <- session (get_alerts tx None (Some false)) ;;
     Eff.ret (Refresh.len alerts))
    (fun _ => Eff.ret 0).

(** [ack_alert(alert_id)] *)
Definition ack_alert (tx : Store.outcome) (now alert_id : Z) : M bool :=
  Eff.try_except
    (session (acknowledge_alert tx now alert_id))
    (fun ex =>
       Eff.logging ERROR
         ("Failed to acknowledge alert " +:+ pretty alert_id +:+ ": "
            +:+ str_exn ex) ;;
       Eff.ret false).


End Queries.

(** ** The start of the process ([app/dashboard.py], [app/alerts.py]) *)

Module Startup.

Import Cache.
Local Open Scope eff_scope.

(** [load_data_cache()] at clock [now]; [readable]: the file, when it is
    there, can be opened and parsed; [traffic_networks]: the size of the
    [_traffic_history] saved in it. *)
Definition load_data_cache (readable : bool) (now traffic_networks : Z)
  : M (option data_cache) :=
  saved <- Eff.gets disk ;;
  match saved with
  | Some (saved_cache, saved_at) =>
    if readable then
      let age_hours := (inject_Z (now - saved_at) / 3600000000)%Q in
      if Qlt_le_dec 24 age_hours then
        Eff.logging INFO
          ("Cached data is " +:+ format_1f age_hours
             +:+ " hours old, starting fresh") ;;
        Eff.ret None
      else
        Eff.logging INFO
          ("Restored traffic history from disk ("
             +:+ pretty traffic_networks +:+ " networks)") ;;
        Eff.logging INFO "Loaded data cache from disk" ;;
        Eff.ret (Some saved_cache)
    else
      Eff.logging ERROR ("Failed to load data cache: " +:+ str_exn OSError) ;;
      Eff.ret None
  | None => Eff.ret None
  end.

(** [initialize_data_cache()] *)
Definition initialize_data_cache (readable : bool)
    (now traffic_networks : Z) : M data_cache :=
  saved_cache <- load_data_cache readable now traffic_networks ;;
  match saved_cache with
  | Some saved =>
    Eff.logging INFO "Restored data cache from disk" ;;
    Eff.ret saved
  | None => Eff.ret default_cache
  end.

(** What importing the modules does when the process starts:
    [_previous_health = {}], [data_cache = initialize_data_cache()],
    [_cache_lock = threading.Lock()]. *)
Definition import_modules (readable : bool) (now traffic_networks : Z)
  : M unit :=
  Eff.modify (with_previous_health ∅) ;;
  data_cache <- initialize_data_cache readable now traffic_networks ;;
  Eff.modify (with_cache data_cache) ;;
  Eff.modify (with_cache_lock false).

End Startup.

(** ** Assertions about the queries and the tables *)

(** The rows a query for alerts selects, before they are ordered. *)
Definition selected (network_id : option string) (acknowledged : option bool)
    (d : Store.database) : list Store.Alert :=
  filter (fun a => (network_id = None
                    \/ network_id = Some (Store.alert_network_id a))
                   /\ (acknowledged = None
                       \/ acknowledged = Some (Store.acknowledged a)))
         (Store.alerts d).

(** The row of an alert once it is acknowledged at [now]. *)
Definition acknowledged_row (now : Z) (a : Store.Alert) : Store.Alert :=
  Store.mkAlert (Store.alert_id a) (Store.alert_network_id a)
    (Store.alert_type a) (Store.severity a) (Store.message a)
    (Store.created_at a) true (Some now).

(** What the cache is initialised with: the snapshot when there is one that
    can be read and is at most 24 hours old, else the empty default. *)
Definition restored (readable : bool) (now : Z) (w : world)
  : Cache.data_cache :=
  match disk w with
  | Some (saved_cache, saved_at) =>
    if readable && (now - saved_at <=? 86400000000) then saved_cache
    else Cache.default_cache
  | None => Cache.default_cache
  end.

(** The snapshot on disk is the cache in memory, as stamped by the cycle. *)
Definition saved_now (e : Refresh.cycle_env) (w : world) : Prop :=
  disk w = Some (cache w, Refresh.saved_at e).

(** The offline marker and the offline time of a network go together. *)
Definition offline_marked (network_id : string) (w : world) : Prop :=
  is_Some (Cache.offline_since (Refresh.entry network_id w))
  <-> marker network_id w = Some "offline".

(** An incident row is kept as it is or, when it was open, closed. *)
Definition incident_kept (a b : Store.UptimeIncident) : Prop :=
  b = a \/ (Store.is_open a = true /\ exists t, b = Store.close t a).

(** Nothing is lost between two states of the database: every metrics row
    and every alert row is where it was, as it was; every incident row is
    where it was, kept or closed. *)
Definition grows (d d' : Store.database) : Prop :=
  (forall i m, Store.metrics d !! i = Some m -> Store.metrics d' !! i = Some m)
  /\ (forall i a, Store.alerts d !! i = Some a -> Store.alerts d' !! i = Some a)
  /\ (forall i inc,
        Store.uptime_incidents d !! i = Some inc ->
        exists inc',
          Store.uptime_incidents d' !! i = Some inc'
          /\ incident_kept inc inc').

(** The network a request is about. *)
Definition requested (c : api_call) : string :=
  match c with
  | GetDevices network_id | GetEeros network_id
  | GetNetworkInfo network_id => network_id
  end.

(** The alerts on record that are about health. *)
Definition health_alerts (w : world) : list Store.Alert :=
  filter (fun a => Store.alert_type a <> "bandwidth") (Store.alerts (db w)).

(** What the dashboard reads from the cache entry of a network: the health
    is the status the incident tracking saw last, and there is an offline
    time exactly while that health is offline. *)
Definition entry_consistent (c : Cache.network_cache) : Prop :=
  Cache.health_status c = Cache.prev_health c
  /\ (is_Some (Cache.offline_since c)
      <-> Cache.health_status c = Some "offline").

(** What the alert engine stands on: the alerts on record and its memory
    of the health of each network. *)
Definition engine_view (w : world) : list Store.Alert * gmap string string :=
  (Store.alerts (db w), previous_health w).

(** The networks a cycle is to refresh, by the keys it can use. *)
Definition refreshed (e : Refresh.cycle_env) : list string :=
  omap (fun p => Refresh.usable_id (fst p)) (Refresh.active_networks e).

(** The requests sent since [calls0] are all about networks in [ids]. *)
Definition requests_within (ids : list string) (calls0 : list api_call)
    (w : world) : Prop :=
  exists new,
    api_calls w = calls0 ++ new
    /\ Forall (fun c => requested c ∈ ids) new.

(** The alert has a row in the table. *)
Definition on_record (a : alert) (d : Store.database) : Prop :=
  exists row,
    row ∈ Store.alerts d
    /\ Store.alert_network_id row = a_network_id a
    /\ Store.alert_type row = a_alert_type a
    /\ Store.severity row = a_severity a
    /\ Store.message row = a_message a.

(** Every alert that was mailed is on record. *)
Definition mailed_on_record (w : world) : Prop :=
  forall a, a ∈ outbox w -> on_record a (db w).

(** * Properties *)

(** ** Derived metrics *)

Section MetricFacts.

Local Open Scope Q_scope.

Lemma truediv_ok (a b : Q) : ~ b == 0 -> Num.truediv a b = Ok (a / b).
Proof.
  intros Hb. unfold Num.truediv.
  destruct (Qeq_bool b 0) eqn:E; [|reflexivity].
  apply Qeq_bool_iff in E. contradiction.
Qed.

Lemma inject_Z_nonzero (z : Z) : z <> 0%Z -> ~ inject_Z z == 0.
Proof. intros Hz H. apply Hz. unfold Qeq in H. simpl in H. lia. Qed.


(** The nested [max(0, min(100, x))] of the code is the clamp of the
    specification. *)
Lemma max_min_is_clamp (x : Q) :
  Num.max 0 (Num.min 100 x) == Metrics.clamp_0_100 x.
Proof.
  unfold Num.max, Num.min, Metrics.clamp_0_100.
  destruct (Qlt_le_dec x 100);
  repeat match goal with
         | |- context [Qlt_le_dec ?a ?b] => destruct (Qlt_le_dec a b)
         end; lra.
Qed.

Lemma clamp_bounds (x : Q) :
  0 <= Metrics.clamp_0_100 x /\ Metrics.clamp_0_100 x <= 100.
Proof.
  unfold Metrics.clamp_0_100.
  destruct (Qlt_le_dec x 0); [lra|].
  destruct (Qlt_le_dec 100 x); lra.
Qed.

End MetricFacts.

(** ** Effects: composition rules *)

Section EffectRules.

Context {A B C : Type}.
Implicit Types (f : world -> C).

Lemma keeps_ret f (a : A) : keeps f (Eff.ret a).
Proof. intros w. reflexivity. Qed.

Lemma keeps_raise f (e : exn) : keeps f (@Eff.raise A e).
Proof. intros w. reflexivity. Qed.

Lemma keeps_gets f (g : world -> A) : keeps f (Eff.gets g).
Proof. intros w. reflexivity. Qed.

Lemma keeps_lift f (r : result A) : keeps f (Eff.lift r).
Proof. intros w. reflexivity. Qed.

Lemma keeps_bind f (m : M A) (k : A -> M B) :
  keeps f m -> (forall a, keeps f (k a)) -> keeps f (Eff.bind m k).
Proof.
  intros Hm Hk w. unfold Eff.bind. specialize (Hm w).
  destruct (m w) as [w' [a|e]]; simpl in *.
  - rewrite Hk. exact Hm.
  - exact Hm.
Qed.

Lemma keeps_try_except f (body : M A) (handler : exn -> M A) :
  keeps f body -> (forall e, keeps f (handler e)) ->
  keeps f (Eff.try_except body handler).
Proof.
  intros Hm Hk w. unfold Eff.try_except. specialize (Hm w).
  destruct (body w) as [w' [a|e]]; simpl in *.
  - exact Hm.
  - rewrite Hk. exact Hm.
Qed.

Lemma keeps_finally f (body : M A) (cleanup : M unit) :
  keeps f body -> keeps f cleanup -> keeps f (Eff.finally body cleanup).
Proof.
  intros Hm Hk w. unfold Eff.finally. specialize (Hm w).
  destruct (body w) as [w' r]; simpl in *.
  specialize (Hk w'). destruct (cleanup w') as [w'' [[]|e]]; simpl in *; congruence.
Qed.

Lemma keeps_modify f (g : world -> world) :
  (forall w, f (g w) = f w) -> keeps f (Eff.modify g).
Proof. intros H w. apply H. Qed.

Lemma keeps_logging f (l : level) (text : string) :
  (forall w entries, f (with_log entries w) = f w) ->
  keeps f (Eff.logging l text).
Proof. intros H w. apply H. Qed.

Lemma keeps_request f (c : api_call) :
  (forall w calls, f (with_api_calls calls w) = f w) ->
  keeps f (Eff.request c).
Proof. intros H w. apply H. Qed.

Lemma keeps_transaction f (g : Store.database -> result Store.database) :
  (forall w d, g (db w) = Ok d -> f (with_db d w) = f w) ->
  keeps f (Eff.transaction g).
Proof.
  intros H w. unfold Eff.transaction.
  destruct (g (db w)) eqn:E; simpl; [apply H; assumption | reflexivity].
Qed.

Lemma ensures_ret (P : world -> Prop) (a : A) (Q : A -> world -> Prop) :
  (forall w, P w -> Q a w) -> ensures P (Eff.ret a) Q.
Proof. intros H w Hw. exists a. split; [reflexivity | apply H, Hw]. Qed.

Lemma ensures_bind (P : world -> Prop) (m : M A) (R : A -> world -> Prop)
    (k : A -> M B) (Q : B -> world -> Prop) :
  ensures P m R -> (forall a, ensures (R a) (k a) Q) ->
  ensures P (Eff.bind m k) Q.
Proof.
  intros Hm Hk w Hw. destruct (Hm w Hw) as (a & Ha & HR).
  unfold Eff.bind. destruct (m w) as [w' r]; simpl in *. subst r.
  apply Hk, HR.
Qed.

(** A statement that returns and keeps [f] carries any assertion on [f]. *)
Lemma ensures_kept f (m : M A) (J : C -> Prop) :
  returns m -> keeps f m ->
  ensures (fun w => J (f w)) m (fun _ w => J (f w)).
Proof.
  intros Ht Hk w Hw. destruct (Ht w) as (a & Ha).
  exists a. split; [assumption | rewrite Hk; assumption].
Qed.

Lemma ensures_preserves (I : world -> Prop) (m : M A) :
  ensures I m (fun _ => I) -> preserves I m.
Proof. intros H w Hw. destruct (H w Hw) as (a & _ & Ha). exact Ha. Qed.

Lemma keeps_preserves f (m : M A) (J : C -> Prop) :
  keeps f m -> preserves (fun w => J (f w)) m.
Proof. intros Hk w Hw. rewrite Hk. exact Hw. Qed.

Lemma keeps_pair {D : Type} f (g : world -> D) (m : M A) :
  keeps f m -> keeps g m -> keeps (fun w => (f w, g w)) m.
Proof. intros Hf Hg w. simpl. rewrite Hf, Hg. reflexivity. Qed.

Lemma returns_ret (a : A) : returns (Eff.ret a).
Proof. intros w. exists a. reflexivity. Qed.

Lemma returns_gets (g : world -> A) : returns (Eff.gets g).
Proof. intros w. eexists. reflexivity. Qed.

Lemma returns_lift (a : A) : returns (Eff.lift (Ok a)).
Proof. intros w. exists a. reflexivity. Qed.

Lemma returns_bind (m : M A) (k : A -> M B) :
  returns m -> (forall a, returns (k a)) -> returns (Eff.bind m k).
Proof.
  intros Hm Hk w. destruct (Hm w) as (a & Ha). unfold Eff.bind.
  destruct (m w) as [w' r]; simpl in *. subst r. apply Hk.
Qed.

(** A handler that returns makes the whole [try] return, whatever the body
    raises. *)
Lemma returns_try_except (body : M A) (handler : exn -> M A) :
  (forall e, returns (handler e)) -> returns (Eff.try_except body handler).
Proof.
  intros Hh w. unfold Eff.try_except.
  destruct (body w) as [w' [a|e]]; [exists a; reflexivity | apply Hh].
Qed.

Lemma returns_finally (body : M A) (cleanup : M unit) :
  returns body -> returns cleanup -> returns (Eff.finally body cleanup).
Proof.
  intros Hb Hc w. unfold Eff.finally. destruct (Hb w) as (a & Ha).
  destruct (body w) as [w' r]; simpl in *. subst r.
  destruct (Hc w') as ([] & Hu). destruct (cleanup w') as [w'' r]; simpl in *.
  subst r. exists a. reflexivity.
Qed.

Lemma preserves_bind (I : world -> Prop) (m : M A) (k : A -> M B) :
  preserves I m -> (forall a, preserves I (k a)) ->
  preserves I (Eff.bind m k).
Proof.
  intros Hm Hk w Hw. unfold Eff.bind. specialize (Hm w Hw).
  destruct (m w) as [w' [a|e]]; simpl in *; [apply Hk|]; assumption.
Qed.

Lemma preserves_try_except (I : world -> Prop) (body : M A)
    (handler : exn -> M A) :
  preserves I body -> (forall e, preserves I (handler e)) ->
  preserves I (Eff.try_except body handler).
Proof.
  intros Hm Hk w Hw. unfold Eff.try_except. specialize (Hm w Hw).
  destruct (body w) as [w' [a|e]]; simpl in *; [|apply Hk]; assumption.
Qed.

Lemma preserves_finally (I : world -> Prop) (body : M A) (cleanup : M unit) :
  preserves I body -> preserves I cleanup ->
  preserves I (Eff.finally body cleanup).
Proof.
  intros Hm Hk w Hw. unfold Eff.finally. specialize (Hm w Hw).
  destruct (body w) as [w' r]; simpl in *. specialize (Hk w' Hm).
  destruct (cleanup w') as [w'' [[]|e]]; simpl in *; assumption.
Qed.

End EffectRules.

Lemma returns_modify (g : world -> world) : returns (Eff.modify g).
Proof. intros w. exists tt. reflexivity. Qed.

Lemma returns_logging (l : level) (text : string) : returns (Eff.logging l text).
Proof. apply returns_modify. Qed.

Lemma returns_request (c : api_call) : returns (Eff.request c).
Proof. apply returns_modify. Qed.

(** Routine steps of a proof that a statement keeps an observation which the
    lock, the log, the requests and the mail do not enter. *)
Ltac keeps_step side :=
  first
    [ apply keeps_ret | apply keeps_raise | apply keeps_gets | apply keeps_lift
    | apply keeps_bind; [|intros ?]
    | apply keeps_try_except; [|intros ?]
    | apply keeps_finally
    | apply keeps_logging; intros; reflexivity
    | apply keeps_request; intros; reflexivity
    | apply keeps_modify; intros; solve [reflexivity | side]
    | apply keeps_transaction; intros; solve [reflexivity | side]
    | match goal with
      | |- keeps _ (match ?x with _ => _ end) => destruct x
      end
    | solve [side] ].

Ltac returns_step side :=
  first
    [ apply returns_ret | apply returns_gets | apply returns_lift
    | apply returns_modify | apply returns_logging | apply returns_request
    | apply returns_bind; [|intros ?]
    | apply returns_try_except; intros ?
    | apply returns_finally
    | match goal with
      | |- returns (match ?x with _ => _ end) => destruct x
      end
    | solve [side] ].


(** ** The alert engine *)

Lemma fst_bind_ok {A B : Type} (m : M A) (k : A -> M B) (w : world) (a : A) :
  snd (m w) = Ok a -> fst (Eff.bind m k w) = fst (k a (fst (m w))).
Proof. unfold Eff.bind. destruct (m w) as [w' r]; simpl. intros ->. reflexivity. Qed.

Lemma snd_bind_ok {A B : Type} (m : M A) (k : A -> M B) (w : world) (a : A) :
  snd (m w) = Ok a -> snd (Eff.bind m k w) = snd (k a (fst (m w))).
Proof. unfold Eff.bind. destruct (m w) as [w' r]; simpl. intros ->. reflexivity. Qed.

Lemma bind_ok {A B : Type} (m : M A) (k : A -> M B) (w : world) (a : A) :
  snd (m w) = Ok a -> Eff.bind m k w = k a (fst (m w)).
Proof. unfold Eff.bind. destruct (m w) as [w' r]; simpl. intros ->. reflexivity. Qed.

Section AlertFacts.

Variable e : Alerts.env.
Variables network_id network_name : string.

(** The [try] block around insert and notify swallows every failure. *)
Lemma persist_and_notify_returns (generated failed : string) (a : alert)
    (w : world) :
  snd (Alerts.persist_and_notify e generated failed a w) = Ok tt.
Proof.
  unfold Alerts.persist_and_notify, Eff.try_except, Alerts.insert_alert,
    Eff.bind, Eff.transaction, Store.insert_alert, Alerts.notify_alert.
  destruct (Alerts.insert_alert_tx e); simpl; [|reflexivity].
  destruct (Alerts.notification e); reflexivity.
Qed.

Lemma persist_and_notify_keeps_previous_health (generated failed : string)
    (a : alert) :
  keeps previous_health (Alerts.persist_and_notify e generated failed a).
Proof.
  unfold Alerts.persist_and_notify, Alerts.insert_alert, Alerts.notify_alert.
  repeat keeps_step idtac.
Qed.

Lemma persist_and_notify_alerts (generated failed : string) (a : alert)
    (w : world) :
  Store.alerts (db (fst (Alerts.persist_and_notify e generated failed a w)))
  = Store.alerts (db w) ++ alert_rows e (Some a) (db w).
Proof.
  unfold Alerts.persist_and_notify, Eff.try_except, Alerts.insert_alert,
    Eff.bind, Eff.transaction, Store.insert_alert, Alerts.notify_alert,
    alert_rows.
  destruct (Alerts.insert_alert_tx e); simpl;
    [destruct (Alerts.notification e); reflexivity
    | symmetry; apply app_nil_r].
Qed.

(** What [check_health_transition] returns: the alert the transition calls
    for, whatever the store and the mail do. *)
Lemma check_health_transition_result (new_status : string) (w : world) :
  snd (Alerts.check_health_transition e network_id network_name new_status w)
  = Ok (transition_alert (previous_health w !! network_id)
          network_id network_name new_status).
Proof.
  unfold Alerts.check_health_transition, transition_alert.
  unfold Eff.bind at 1. simpl. unfold Eff.bind at 1. simpl.
  destruct (previous_health w !! network_id) as [old|]; [|reflexivity].
  destruct (decide (old = new_status)); [reflexivity|].
  destruct (decide (new_status = "offline")).
  { erewrite snd_bind_ok by apply persist_and_notify_returns. reflexivity. }
  destruct (decide (new_status = "degraded" /\ old = "healthy")).
  { erewrite snd_bind_ok by apply persist_and_notify_returns. reflexivity. }
  destruct (decide (new_status = "healthy"
                    /\ (old = "offline" \/ old = "degraded"))); reflexivity.
Qed.

(** The last-seen map after the call. *)
Lemma check_health_transition_records (new_status : string) (w : world) :
  previous_health
    (fst (Alerts.check_health_transition e network_id network_name
            new_status w))
  = <[network_id := new_status]> (previous_health w).
Proof.
  unfold Alerts.check_health_transition.
  unfold Eff.bind at 1. simpl. unfold Eff.bind at 1. simpl.
  destruct (previous_health w !! network_id) as [old|]; [|reflexivity].
  repeat match goal with
         | |- context [decide ?P] => destruct (decide P)
         end;
    try reflexivity;
    try (erewrite fst_bind_ok by apply persist_and_notify_returns; simpl;
         rewrite persist_and_notify_keeps_previous_health; reflexivity).
Qed.

(** The rows the call adds to the alert table. *)
Lemma check_health_transition_rows (new_status : string) (w : world) :
  Store.alerts
    (db (fst (Alerts.check_health_transition e network_id network_name
                new_status w)))
  = Store.alerts (db w)
      ++ alert_rows e (transition_alert (previous_health w !! network_id)
                         network_id network_name new_status) (db w).
Proof.
  unfold Alerts.check_health_transition, transition_alert.
  unfold Eff.bind at 1. simpl. unfold Eff.bind at 1. simpl.
  destruct (previous_health w !! network_id) as [old|];
    [|symmetry; apply app_nil_r].
  repeat match goal with
         | |- context [decide ?P] => destruct (decide P)
         end;
    try (symmetry; apply app_nil_r);
    erewrite fst_bind_ok by apply persist_and_notify_returns; simpl;
    rewrite persist_and_notify_alerts; reflexivity.
Qed.

Lemma check_bandwidth_alert_result (utilization : Q) (w : world) :
  snd (Alerts.check_bandwidth_alert e network_id network_name utilization w)
  = Ok (if Qlt_le_dec 95 utilization
        then Some (Alerts.bandwidth_alert network_id network_name utilization)
        else None).
Proof.
  unfold Alerts.check_bandwidth_alert.
  destruct (Qlt_le_dec 95 utilization); [|reflexivity].
  erewrite snd_bind_ok by apply persist_and_notify_returns. reflexivity.
Qed.

End AlertFacts.

(** ** The store *)

Section StoreFacts.

Variables (network_id : string) (d d' : Store.database).

Lemma open_incidents_insert_metric tx nid ts total wl wd usage cap util sig :
  Store.insert_metric tx nid ts total wl wd usage cap util sig d = Ok d' ->
  Store.uptime_incidents d' = Store.uptime_incidents d.
Proof. destruct tx; simpl; [intros [= <-]; reflexivity | discriminate]. Qed.

Lemma open_incidents_insert_alert tx now nid type sev msg :
  Store.insert_alert tx now nid type sev msg d = Ok d' ->
  Store.uptime_incidents d' = Store.uptime_incidents d.
Proof. destruct tx; simpl; [intros [= <-]; reflexivity | discriminate]. Qed.

(** A committed insert adds one open incident to its network and none to
    the others. *)
Lemma open_incidents_insert tx nid now :
  Store.insert_uptime_incident tx nid now d = Ok d' ->
  Store.open_incidents network_id d'
  = Store.open_incidents network_id d
      ++ (if decide (nid = network_id)
          then [Store.mkIncident
                  (Store.next_id Store.inc_id (Store.uptime_incidents d))
                  nid now None None None]
          else []).
Proof.
  destruct tx; simpl; [intros [= <-] | discriminate].
  unfold Store.open_incidents. simpl. rewrite filter_app. f_equal.
  destruct (decide (nid = network_id)) as [->|Hne].
  - apply filter_singleton_True; [exact [] | split; reflexivity].
  - apply filter_singleton_False; [exact [] | simpl; tauto].
Qed.

(** A committed recovery leaves its network no open incident and the open
    incidents of the others as they were. *)
Lemma open_incidents_close tx nid now :
  Refresh.close_open_incidents tx now nid d = Ok d' ->
  Store.open_incidents network_id d'
  = if decide (nid = network_id) then []
    else Store.open_incidents network_id d.
Proof.
  destruct tx; simpl; [intros [= <-] | discriminate].
  unfold Store.open_incidents. simpl.
  induction (Store.uptime_incidents d) as [|inc l IH]; simpl.
  { destruct (decide (nid = network_id)); reflexivity. }
  destruct (decide (Store.inc_network_id inc = nid /\ Store.is_open inc = true))
    as [[Hn Ho]|Hno].
  - rewrite filter_cons_False by (simpl; unfold Store.is_open; simpl; intros [_ ?]; discriminate).
    rewrite IH. destruct (decide (nid = network_id)) as [->|Hne]; [reflexivity|].
    rewrite filter_cons_False by (intros [? _]; congruence). reflexivity.
  - rewrite !filter_cons, IH.
    destruct (decide (Store.inc_network_id inc = network_id
                      /\ Store.is_open inc = true)) as [[Hn Ho]|Hno'];
      destruct (decide (nid = network_id)) as [->|Hne]; try reflexivity.
    exfalso. apply Hno. split; assumption.
Qed.

End StoreFacts.

(** ** The cache entry of a network *)

Section EntryFacts.

Import Refresh Cache.

Lemma entry_update_entry (nid : string) (f : network_cache -> network_cache)
    (w : world) :
  entry nid (fst (update_entry nid f w)) = f (entry nid w).
Proof. unfold entry at 1. simpl. rewrite lookup_insert_eq. reflexivity. Qed.

Lemma lookup_update_entry_ne (nid other : string)
    (f : network_cache -> network_cache) (w : world) :
  nid <> other ->
  networks (cache (fst (update_entry nid f w))) !! other
  = networks (cache w) !! other.
Proof. intros H. simpl. apply lookup_insert_ne, H. Qed.

Lemma lookup_ensure_entry_ne (nid other : string) (w : world) :
  nid <> other ->
  networks (cache (fst (ensure_entry nid w))) !! other
  = networks (cache w) !! other.
Proof.
  intros H. simpl. destruct (networks (cache w) !! nid); [reflexivity|].
  simpl. apply lookup_insert_ne, H.
Qed.

Lemma entry_ensure_entry (nid other : string) (w : world) :
  entry other (fst (ensure_entry nid w)) = entry other w.
Proof.
  unfold entry. simpl.
  destruct (networks (cache w) !! nid) eqn:E; [reflexivity|]. simpl.
  destruct (decide (nid = other)) as [<-|Hne].
  - rewrite lookup_insert_eq, E. reflexivity.
  - rewrite lookup_insert_ne by assumption. reflexivity.
Qed.

(** An assignment to one key of an entry keeps what is read from the other
    keys, and what is read from the other entries. *)
Lemma keeps_field_update_entry {B : Type} (g : network_cache -> B)
    (nid other : string) (f : network_cache -> network_cache) :
  (forall c, g (f c) = g c) ->
  keeps (fun w => g (entry other w)) (update_entry nid f).
Proof.
  intros H w. destruct (decide (nid = other)) as [<-|Hne].
  - rewrite entry_update_entry. apply H.
  - unfold entry. rewrite lookup_update_entry_ne by assumption. reflexivity.
Qed.

Lemma keeps_field_update_entry_ne {B : Type} (g : network_cache -> B)
    (nid other : string) (f : network_cache -> network_cache) :
  nid <> other -> keeps (fun w => g (entry other w)) (update_entry nid f).
Proof.
  intros Hne w. unfold entry.
  rewrite lookup_update_entry_ne by assumption. reflexivity.
Qed.

Lemma keeps_field_ensure_entry {B : Type} (g : network_cache -> B)
    (nid other : string) :
  keeps (fun w => g (entry other w)) (ensure_entry nid).
Proof. intros w. rewrite entry_ensure_entry. reflexivity. Qed.

Lemma keeps_lookup_update_entry (nid other : string)
    (f : network_cache -> network_cache) :
  nid <> other ->
  keeps (fun w => networks (cache w) !! other) (update_entry nid f).
Proof. intros H w. apply lookup_update_entry_ne, H. Qed.

Lemma keeps_lookup_ensure_entry (nid other : string) :
  nid <> other ->
  keeps (fun w => networks (cache w) !! other) (ensure_entry nid).
Proof. intros H w. apply lookup_ensure_entry_ne, H. Qed.

Lemma returns_update_entry (nid : string) (f : network_cache -> network_cache) :
  returns (update_entry nid f).
Proof. apply returns_modify. Qed.

Lemma returns_ensure_entry (nid : string) : returns (ensure_entry nid).
Proof. apply returns_modify. Qed.

End EntryFacts.

(** ** The loop body, phase by phase *)

Create HintDb phases.
#[local] Hint Unfold Refresh.update_time_series Refresh.health_check
  Refresh.bandwidth_tracking Refresh.derive_offline_since
  Refresh.uptime_percentage Refresh.persist_metrics
  Alerts.process_network_alerts Alerts.check_health_transition
  Alerts.check_bandwidth_alert Alerts.persist_and_notify Alerts.insert_alert
  Alerts.notify_alert Refresh.save_data_cache Refresh.update_combined : phases.

(** Every phase returns: the failures of the store and of the mail are
    caught where they arise. *)
Ltac returns_auto :=
  repeat first
    [ returns_step ltac:(first [ apply returns_update_entry
                               | apply returns_ensure_entry ])
    | progress autounfold with phases ].

Section PhasesReturn.

Import Refresh.
Variables (e : network_env) (now : Z) (nid : string).

Lemma uptime_tracking_returns (h : string) :
  returns (uptime_tracking e now nid h).
Proof. unfold uptime_tracking. returns_auto. Qed.

Lemma derive_offline_since_returns (h : string) :
  returns (derive_offline_since e now nid h).
Proof. returns_auto. Qed.

Lemma persist_metrics_returns n_connected n_wireless values capacity usage util :
  returns (persist_metrics e now nid n_connected n_wireless values capacity
             usage util).
Proof. returns_auto. Qed.

Lemma process_network_alerts_returns he be name h util :
  returns (Alerts.process_network_alerts he be nid name h util).
Proof. returns_auto. Qed.

Lemma update_time_series_returns n_connected n_wireless values :
  returns (update_time_series now nid n_connected n_wireless values).
Proof. returns_auto. Qed.

Lemma health_check_returns n_connected :
  returns (health_check e nid n_connected).
Proof. returns_auto. Qed.

Lemma bandwidth_tracking_returns n_connected :
  returns (bandwidth_tracking e nid n_connected).
Proof. returns_auto. Qed.

Lemma uptime_percentage_returns : returns (uptime_percentage nid).
Proof. returns_auto. Qed.

(** Once the device list is in, the loop body runs to its end. *)
Lemma refresh_network_returns network devices acc :
  returns (refresh_network now network e nid devices acc).
Proof.
  unfold refresh_network.
  repeat first
    [ apply returns_ensure_entry | apply returns_update_entry
    | apply update_time_series_returns | apply health_check_returns
    | apply bandwidth_tracking_returns | apply uptime_tracking_returns
    | apply derive_offline_since_returns | apply uptime_percentage_returns
    | apply persist_metrics_returns | apply process_network_alerts_returns
    | apply returns_ret
    | apply returns_bind; [|intros ?]
    | match goal with
      | |- returns (match ?x with _ => _ end) => destruct x
      end ].
Qed.

End PhasesReturn.

Ltac keeps_auto side :=
  repeat first
    [ solve [side]
    | keeps_step idtac
    | progress autounfold with phases
    | progress cbv beta ].

Section PhasesKeep.

Import Refresh Cache.
Variables (e : network_env) (now : Z) (nid : string).

(** The lock is taken and released by [update_cache] alone. *)
Lemma refresh_network_keeps_lock network devices acc :
  keeps cache_lock (refresh_network now network e nid devices acc).
Proof.
  unfold refresh_network, uptime_tracking.
  keeps_auto ltac:(apply keeps_modify; intros ?; simpl;
                   destruct (_ !! _); reflexivity).
Qed.

(** *** The incident table *)

Ltac incidents_side :=
  first
    [ apply keeps_modify; intros ?; unfold incidents; simpl;
      destruct (_ !! _); reflexivity
    | apply keeps_transaction; intros ? ? ?; unfold incidents; simpl;
      first [ eapply open_incidents_insert_metric; eassumption
            | eapply open_incidents_insert_alert; eassumption ] ].

Lemma ensure_entry_keeps_incidents : keeps incidents (ensure_entry nid).
Proof. keeps_auto incidents_side. Qed.

Lemma update_entry_keeps_incidents f : keeps incidents (update_entry nid f).
Proof. keeps_auto incidents_side. Qed.

Lemma update_time_series_keeps_incidents n_connected n_wireless values :
  keeps incidents (update_time_series now nid n_connected n_wireless values).
Proof. keeps_auto incidents_side. Qed.

Lemma health_check_keeps_incidents n_connected :
  keeps incidents (health_check e nid n_connected).
Proof. keeps_auto incidents_side. Qed.

Lemma bandwidth_tracking_keeps_incidents n_connected :
  keeps incidents (bandwidth_tracking e nid n_connected).
Proof. keeps_auto incidents_side. Qed.

Lemma derive_offline_since_keeps_incidents h :
  keeps incidents (derive_offline_since e now nid h).
Proof. keeps_auto incidents_side. Qed.

Lemma uptime_percentage_keeps_incidents :
  keeps incidents (uptime_percentage nid).
Proof. keeps_auto incidents_side. Qed.

Lemma persist_metrics_keeps_incidents n_connected n_wireless values capacity
    usage util :
  keeps incidents (persist_metrics e now nid n_connected n_wireless values
                     capacity usage util).
Proof. keeps_auto incidents_side. Qed.

Lemma process_network_alerts_keeps_incidents he be name h util :
  keeps incidents (Alerts.process_network_alerts he be nid name h util).
Proof. keeps_auto incidents_side. Qed.

End PhasesKeep.

Section FieldsKept.

Import Refresh Cache.
Context {B : Type}.
Variables (g : network_cache -> B) (other : string).
Variables (e : network_env) (now : Z) (nid : string).

Ltac field_side :=
  first
    [ apply keeps_field_update_entry; intros; solve [reflexivity | auto]
    | apply keeps_field_ensure_entry
    | apply keeps_transaction; intros; reflexivity ].

Hypothesis g_bandwidth :
  forall util capacity usage c, g (set_bandwidth util capacity usage c) = g c.
Hypothesis g_offline_since : forall t c, g (set_offline_since t c) = g c.
Hypothesis g_uptime_24h : forall u c, g (set_uptime_24h u c) = g c.

Lemma bandwidth_tracking_keeps_field n_connected :
  keeps (fun w => g (entry other w)) (bandwidth_tracking e nid n_connected).
Proof. keeps_auto field_side. Qed.

Lemma uptime_tracking_keeps_field h :
  keeps (fun w => g (entry other w)) (uptime_tracking e now nid h).
Proof. unfold uptime_tracking. keeps_auto field_side. Qed.

Lemma derive_offline_since_keeps_field h :
  keeps (fun w => g (entry other w)) (derive_offline_since e now nid h).
Proof. keeps_auto field_side. Qed.

Lemma uptime_percentage_keeps_field :
  keeps (fun w => g (entry other w)) (uptime_percentage nid).
Proof. keeps_auto field_side. Qed.

Lemma persist_metrics_keeps_field n_connected n_wireless values capacity
    usage util :
  keeps (fun w => g (entry other w))
        (persist_metrics e now nid n_connected n_wireless values capacity
           usage util).
Proof. keeps_auto field_side. Qed.

Lemma process_network_alerts_keeps_field he be name h util :
  keeps (fun w => g (entry other w))
        (Alerts.process_network_alerts he be nid name h util).
Proof. keeps_auto field_side. Qed.

Hypothesis g_connected_users : forall l c, g (set_connected_users l c) = g c.
Hypothesis g_signal_strength_avg :
  forall l c, g (set_signal_strength_avg l c) = g c.
Hypothesis g_eeros : forall total green c, g (set_eeros total green c) = g c.

Lemma update_time_series_keeps_field n_connected n_wireless values :
  keeps (fun w => g (entry other w))
        (update_time_series now nid n_connected n_wireless values).
Proof. keeps_auto field_side. Qed.

Lemma health_check_keeps_field n_connected :
  keeps (fun w => g (entry other w)) (health_check e nid n_connected).
Proof. keeps_auto field_side. Qed.

End FieldsKept.

Section OthersKept.

Import Refresh Cache.
Variables (e : network_env) (now : Z) (nid other : string).
Hypothesis different : nid <> other.

Ltac other_side :=
  first
    [ apply keeps_lookup_update_entry; assumption
    | apply keeps_lookup_ensure_entry; assumption
    | apply keeps_transaction; intros; reflexivity ].

(** Processing one network leaves the cache entries of the others alone. *)
Lemma refresh_network_keeps_others network devices acc :
  keeps (fun w => networks (cache w) !! other)
        (refresh_network now network e nid devices acc).
Proof. unfold refresh_network, uptime_tracking. keeps_auto other_side. Qed.

End OthersKept.

(** ** Uptime tracking *)

Section UptimeFacts.

Import Refresh Cache.
Variables (e : network_env) (now : Z) (nid : string) (h : string).

(** The database after the uptime tracking of one network. *)
Lemma uptime_tracking_db (w : world) :
  db (fst (uptime_tracking e now nid h w))
  = incident_step e now nid (marker nid w) h (db w).
Proof.
  unfold uptime_tracking, marker, incident_step. unfold Eff.bind at 1. simpl.
  destruct (decide (prev_health (entry nid w) = Some "offline"
                    /\ h <> "offline")).
  { unfold Eff.bind, Eff.try_except, Eff.transaction. simpl.
    destruct (close_incidents_tx e); reflexivity. }
  destruct (decide (h = "offline"
                    /\ prev_health (entry nid w) <> Some "offline"
                    /\ prev_health (entry nid w) <> None)); [|reflexivity].
  unfold Eff.bind, Eff.try_except, Eff.transaction. simpl.
  destruct (insert_incident_tx e); reflexivity.
Qed.

(** It touches the open incidents of no other network. *)
Lemma uptime_tracking_keeps_other_incidents (other : string) :
  nid <> other ->
  keeps (fun w => Store.open_incidents other (db w))
        (uptime_tracking e now nid h).
Proof.
  intros Hne w. rewrite uptime_tracking_db. unfold incident_step.
  repeat match goal with
         | |- context [decide ?P] => destruct (decide P)
         end; try reflexivity.
  - destruct (close_open_incidents _ _ _ _) eqn:E; [|reflexivity].
    rewrite (open_incidents_close _ _ _ _ _ _ E).
    destruct (decide (nid = other)); [contradiction | reflexivity].
  - destruct (Store.insert_uptime_incident _ _ _ _) eqn:E; [|reflexivity].
    rewrite (open_incidents_insert _ _ _ _ _ _ E).
    destruct (decide (nid = other)); [contradiction | apply app_nil_r].
Qed.

(** With the recovery transaction committing, it takes a balanced network
    to a settling one. *)
Lemma uptime_tracking_settles :
  close_incidents_tx e = Store.Commits ->
  ensures (tracked nid) (uptime_tracking e now nid h)
          (fun _ w => settling h (uptime_view nid w)).
Proof.
  intros Hc w Hw. destruct (uptime_tracking_returns e now nid h w) as ([] & Hr).
  exists tt. split; [assumption|].
  unfold settling, uptime_view. cbn [fst snd].
  rewrite uptime_tracking_db. unfold incident_step. rewrite Hc.
  unfold tracked, balanced, uptime_view in Hw. cbn [fst snd] in Hw.
  destruct Hw as [H0|[H1 Hm]].
  - destruct (decide (marker nid w = Some "offline" /\ h <> "offline")).
    { left.
      destruct (close_open_incidents Store.Commits now nid (db w)) eqn:E;
        [|discriminate E].
      cbn beta iota.
      rewrite (open_incidents_close _ _ _ _ _ _ E).
      destruct (decide (nid = nid)); [reflexivity | contradiction]. }
    destruct (decide (h = "offline" /\ marker nid w <> Some "offline"
                      /\ marker nid w <> None)) as [[Hh _]|]; [|left; exact H0].
    destruct (Store.insert_uptime_incident _ _ _ _) eqn:E; [|left; exact H0].
    right. split; [|exact Hh].
    rewrite (open_incidents_insert _ _ _ _ _ _ E), length_app, H0.
    destruct (decide (nid = nid)); [reflexivity | contradiction].
  - destruct (decide (marker nid w = Some "offline" /\ h <> "offline")).
    { left.
      destruct (close_open_incidents Store.Commits now nid (db w)) eqn:E;
        [|discriminate E].
      cbn beta iota.
      rewrite (open_incidents_close _ _ _ _ _ _ E).
      destruct (decide (nid = nid)); [reflexivity | contradiction]. }
    destruct (decide (h = "offline" /\ marker nid w <> Some "offline"
                      /\ marker nid w <> None)) as [(_ & Hno & _)|];
      [contradiction|].
    right. split; [exact H1|].
    destruct (decide (h = "offline")); [assumption|].
    exfalso. tauto.
Qed.

End UptimeFacts.

(** ** The incident state machine through the loop body *)

Section Tracking.

Import Refresh Cache.
Variables (e : network_env) (now : Z) (nid : string).

Lemma keeps_uptime_view {A : Type} (m : M A) (observed : string) :
  keeps incidents m -> keeps (marker observed) m ->
  keeps (uptime_view observed) m.
Proof.
  intros Hi Hm w. unfold uptime_view, Store.open_incidents.
  fold (incidents (fst (m w))). fold (incidents w).
  rewrite Hi, Hm. reflexivity.
Qed.

Lemma kept_tracked {A : Type} (m : M A) (observed : string) :
  returns m -> keeps incidents m -> keeps (marker observed) m ->
  ensures (tracked observed) m (fun _ => tracked observed).
Proof.
  intros Hr Hi Hm.
  apply (ensures_kept (uptime_view observed) m balanced Hr).
  apply keeps_uptime_view; assumption.
Qed.

Lemma kept_settling {A : Type} (m : M A) (h : string) :
  returns m -> keeps incidents m -> keeps (marker nid) m ->
  ensures (fun w => settling h (uptime_view nid w)) m
          (fun _ w => settling h (uptime_view nid w)).
Proof.
  intros Hr Hi Hm.
  apply (ensures_kept (uptime_view nid) m (settling h) Hr).
  apply keeps_uptime_view; assumption.
Qed.

(** The update of the marker closes the step: a settling network is
    balanced again. *)
Lemma set_prev_health_tracks (h : string) :
  ensures (fun w => settling h (uptime_view nid w))
          (update_entry nid (set_prev_health h))
          (fun _ => tracked nid).
Proof.
  intros w Hw. exists tt. split; [reflexivity|].
  unfold tracked, balanced, settling, uptime_view in *. cbn [fst snd] in *.
  change (db (fst (update_entry nid (set_prev_health h) w))) with (db w).
  unfold marker. rewrite entry_update_entry. simpl.
  destruct Hw as [H0|[H1 ->]]; [left|right]; auto.
Qed.

Ltac phase_keeps :=
  first
    [ apply ensure_entry_keeps_incidents
    | apply update_entry_keeps_incidents
    | apply update_time_series_keeps_incidents
    | apply health_check_keeps_incidents
    | apply bandwidth_tracking_keeps_incidents
    | apply derive_offline_since_keeps_incidents
    | apply uptime_percentage_keeps_incidents
    | apply persist_metrics_keeps_incidents
    | apply process_network_alerts_keeps_incidents
    | apply (keeps_field_ensure_entry prev_health)
    | apply (keeps_field_update_entry prev_health); intros; reflexivity
    | apply (update_time_series_keeps_field prev_health); intros; reflexivity
    | apply (health_check_keeps_field prev_health); intros; reflexivity
    | apply (bandwidth_tracking_keeps_field prev_health); intros; reflexivity
    | apply (uptime_tracking_keeps_field prev_health); intros; reflexivity
    | apply (derive_offline_since_keeps_field prev_health); intros; reflexivity
    | apply (uptime_percentage_keeps_field prev_health); intros; reflexivity
    | apply (persist_metrics_keeps_field prev_health); intros; reflexivity
    | apply (process_network_alerts_keeps_field prev_health);
      intros; reflexivity ].

Ltac phase_returns :=
  first
    [ apply returns_ensure_entry | apply returns_update_entry
    | apply update_time_series_returns | apply health_check_returns
    | apply bandwidth_tracking_returns | apply uptime_tracking_returns
    | apply derive_offline_since_returns | apply uptime_percentage_returns
    | apply persist_metrics_returns | apply process_network_alerts_returns ].

Ltac carry lemma :=
  eapply ensures_bind;
  [ apply lemma; [phase_returns | phase_keeps | phase_keeps] | intros ? ].

(** The loop body for a network keeps that network balanced, when its
    recovery transaction commits. *)
Lemma refresh_network_tracked network devices acc :
  close_incidents_tx e = Store.Commits ->
  ensures (tracked nid) (refresh_network now network e nid devices acc)
          (fun _ => tracked nid).
Proof.
  intros Hc. unfold refresh_network.
  carry (@kept_tracked unit).
  carry (@kept_tracked (list connectivity_sample * list signal_sample)).
  carry (@kept_tracked string).
  carry (@kept_tracked unit).
  carry (@kept_tracked (Z * Q * Q)).
  match goal with |- ensures _ (let '(_, _) := ?x in _) _ =>
    destruct x as [[capacity usage] util] end.
  eapply ensures_bind; [apply uptime_tracking_settles, Hc | intros ?].
  carry (@kept_settling unit).
  eapply ensures_bind; [apply set_prev_health_tracks | intros ?].
  carry (@kept_tracked unit).
  carry (@kept_tracked unit).
  carry (@kept_tracked (list alert)).
  apply ensures_ret. auto.
Qed.

(** The loop body for a network leaves every other network's open
    incidents and marker as they were. *)
Lemma refresh_network_keeps_other_view network devices acc (other : string) :
  nid <> other ->
  keeps (uptime_view other) (refresh_network now network e nid devices acc).
Proof.
  intros Hne. unfold refresh_network.
  repeat first
    [ apply keeps_ret
    | apply keeps_uptime_view; phase_keeps
    | apply keeps_pair;
      [ apply uptime_tracking_keeps_other_incidents; assumption
      | apply (uptime_tracking_keeps_field prev_health); intros; reflexivity ]
    | apply keeps_uptime_view;
      [ apply update_entry_keeps_incidents
      | apply (keeps_field_update_entry_ne prev_health); assumption ]
    | apply keeps_bind; [|intros ?]
    | match goal with
      | |- keeps _ (match ?x with _ => _ end) => destruct x
      end ].
Qed.

End Tracking.

(** ** The incident state machine through the cycle *)

Section CycleTracking.

Import Refresh Cache.
Variable observed : string.

Ltac plain_keeps :=
  keeps_auto ltac:(fail).

Lemma acquire_keeps {B : Type} (f : world -> B) :
  (forall w b, f (with_cache_lock b w) = f w) -> keeps f acquire.
Proof. intros H w. unfold acquire. destruct (cache_lock w); simpl; auto. Qed.

Lemma release_keeps_view : keeps (uptime_view observed) release.
Proof. unfold release. plain_keeps. Qed.

Lemma finish_cycle_keeps_view e acc :
  keeps (uptime_view observed) (finish_cycle e acc).
Proof. unfold finish_cycle. plain_keeps. Qed.

Lemma on_failure_keeps_view e ex :
  keeps (uptime_view observed) (on_failure e ex).
Proof. unfold on_failure. plain_keeps. Qed.

Lemma process_network_tracked now network e acc :
  close_incidents_tx e = Store.Commits ->
  preserves (tracked observed) (process_network now network e acc).
Proof.
  intros Hc. unfold process_network.
  destruct (usable_id network) as [nid|];
    [|apply (keeps_preserves (uptime_view observed) _ balanced), keeps_ret].
  apply preserves_bind;
    [apply (keeps_preserves (uptime_view observed) _ balanced); plain_keeps|].
  intros _. apply preserves_bind;
    [apply (keeps_preserves (uptime_view observed) _ balanced), keeps_lift|].
  intros [|d devices];
    [apply (keeps_preserves (uptime_view observed) _ balanced), keeps_ret|].
  destruct (decide (nid = observed)) as [->|Hne].
  - apply ensures_preserves, refresh_network_tracked, Hc.
  - apply (keeps_preserves (uptime_view observed) _ balanced).
    apply refresh_network_keeps_other_view, Hne.
Qed.

Lemma process_networks_tracked now todo acc :
  Forall (fun p => close_incidents_tx (snd p) = Store.Commits) todo ->
  preserves (tracked observed) (process_networks now todo acc).
Proof.
  revert acc. induction todo as [|[network e] rest IH]; intros acc Hall.
  - apply (keeps_preserves (uptime_view observed) _ balanced), keeps_ret.
  - apply Forall_cons in Hall as [Hc Hrest]. simpl.
    apply preserves_bind; [apply process_network_tracked, Hc|].
    intros acc'. apply IH, Hrest.
Qed.

Lemma active_networks_commit e :
  closes_commit e ->
  Forall (fun p => close_incidents_tx (snd p) = Store.Commits)
         (active_networks e).
Proof.
  unfold closes_commit, active_networks. rewrite !Forall_forall.
  intros H p Hp. apply H. apply list_elem_of_filter in Hp. tauto.
Qed.

Lemma cycle_tracked e :
  closes_commit e -> preserves (tracked observed) (cycle e).
Proof.
  intros Hc. unfold cycle.
  apply preserves_bind;
    [apply (keeps_preserves (uptime_view observed) _ balanced); plain_keeps|].
  intros _. pose proof (active_networks_commit e Hc) as Hall.
  destruct (active_networks e) as [|p todo];
    [apply (keeps_preserves (uptime_view observed) _ balanced); plain_keeps|].
  apply preserves_bind; [apply process_networks_tracked, Hall|].
  intros acc. apply (keeps_preserves (uptime_view observed) _ balanced).
  apply finish_cycle_keeps_view.
Qed.

(** A refresh cycle whose recovery transactions commit keeps every network
    balanced. *)
Lemma update_cache_tracked e :
  closes_commit e -> preserves (tracked observed) (update_cache e).
Proof.
  intros Hc. unfold update_cache.
  apply preserves_bind;
    [apply (keeps_preserves (uptime_view observed) _ balanced);
     apply acquire_keeps; reflexivity|].
  intros [|]; simpl.
  - apply preserves_finally.
    + apply preserves_try_except; [apply cycle_tracked, Hc|].
      intros ex. apply (keeps_preserves (uptime_view observed) _ balanced).
      apply on_failure_keeps_view.
    + apply (keeps_preserves (uptime_view observed) _ balanced).
      apply release_keeps_view.
  - apply (keeps_preserves (uptime_view observed) _ balanced). plain_keeps.
Qed.

Lemma refresh_cycles_tracked cycles :
  Forall closes_commit cycles ->
  preserves (tracked observed) (refresh_cycles cycles).
Proof.
  induction cycles as [|e rest IH]; intros Hall.
  - apply (keeps_preserves (uptime_view observed) _ balanced), keeps_ret.
  - apply Forall_cons in Hall as [Hc Hrest]. simpl.
    apply preserves_bind; [apply update_cache_tracked, Hc|].
    intros _. apply IH, Hrest.
Qed.

End CycleTracking.

(** ** What one network's turn does to the incident table *)

Section IncidentStep.

Import Refresh Cache.
Variables (e : network_env) (now : Z) (nid : string).

Ltac db_side :=
  apply keeps_modify; intros ?; simpl; destruct (_ !! _); reflexivity.

Lemma ensure_entry_keeps_db : keeps db (ensure_entry nid).
Proof. keeps_auto db_side. Qed.

Lemma update_entry_keeps_db f : keeps db (update_entry nid f).
Proof. keeps_auto db_side. Qed.

Lemma update_time_series_keeps_db n_connected n_wireless values :
  keeps db (update_time_series now nid n_connected n_wireless values).
Proof. keeps_auto db_side. Qed.

Lemma health_check_keeps_db n_connected :
  keeps db (health_check e nid n_connected).
Proof. keeps_auto db_side. Qed.

Lemma bandwidth_tracking_keeps_db n_connected :
  keeps db (bandwidth_tracking e nid n_connected).
Proof. keeps_auto db_side. Qed.

Lemma health_check_result n_connected (w : world) :
  snd (health_check e nid n_connected w)
  = Ok (fst (node_health (eeros_response e) n_connected)).
Proof.
  unfold health_check.
  erewrite snd_bind_ok by reflexivity.
  erewrite snd_bind_ok by (destruct (eeros_response e); reflexivity).
  destruct (snd (node_health (eeros_response e) n_connected)) as [[t g]|];
    reflexivity.
Qed.

(** The incident table after the loop body is the one the uptime tracking
    leaves, computed from the marker and the database found at entry: no
    other phase writes incidents or the marker before it. *)
Lemma refresh_network_incidents network devices acc (w : world) :
  incidents (fst (refresh_network now network e nid devices acc w))
  = Store.uptime_incidents
      (incident_step e now nid (marker nid w) (health_of e devices) (db w)).
Proof.
  unfold refresh_network.
  rewrite (bind_ok _ _ w tt) by reflexivity.
  set (w1 := fst (ensure_entry nid w)).
  assert (db w1 = db w /\ marker nid w1 = marker nid w) as [D1 M1].
  { split; [apply ensure_entry_keeps_db
           | apply (keeps_field_ensure_entry prev_health)]. }
  match goal with |- context [Eff.bind ?m _ w1] =>
    destruct (update_time_series_returns now nid
                (len (connected_of e devices))
                (len (filter (fun d => wireless d = true)
                             (connected_of e devices)))
                (signal_values (connected_of e devices)) w1) as (series & Hs);
    rewrite (bind_ok m _ w1 series Hs);
    set (w2 := fst (m w1));
    assert (db w2 = db w /\ marker nid w2 = marker nid w) as [D2 M2]
  end.
  { split.
    - rewrite <- D1. apply update_time_series_keeps_db.
    - rewrite <- M1.
      apply (update_time_series_keeps_field prev_health); reflexivity. }
  match goal with |- context [Eff.bind ?m _ w2] =>
    rewrite (bind_ok m _ w2 _ (health_check_result _ w2));
    set (w3 := fst (m w2));
    assert (db w3 = db w /\ marker nid w3 = marker nid w) as [D3 M3]
  end.
  { split.
    - rewrite <- D2. apply health_check_keeps_db.
    - rewrite <- M2. apply (health_check_keeps_field prev_health); reflexivity. }
  fold (health_of e devices).
  match goal with |- context [Eff.bind ?m _ w3] =>
    rewrite (bind_ok m _ w3 tt) by reflexivity;
    set (w4 := fst (m w3));
    assert (db w4 = db w /\ marker nid w4 = marker nid w) as [D4 M4]
  end.
  { split.
    - rewrite <- D3. apply update_entry_keeps_db.
    - rewrite <- M3.
      apply (keeps_field_update_entry prev_health); reflexivity. }
  match goal with |- context [Eff.bind ?m _ w4] =>
    destruct (bandwidth_tracking_returns e nid
                (len (connected_of e devices)) w4) as (figures & Hf);
    rewrite (bind_ok m _ w4 figures Hf);
    set (w5 := fst (m w4));
    assert (db w5 = db w /\ marker nid w5 = marker nid w) as [D5 M5]
  end.
  { split.
    - rewrite <- D4. apply bandwidth_tracking_keeps_db.
    - rewrite <- M4.
      apply (bandwidth_tracking_keeps_field prev_health); reflexivity. }
  destruct figures as [[capacity usage] util].
  match goal with |- context [Eff.bind ?m _ w5] =>
    destruct (uptime_tracking_returns e now nid (health_of e devices) w5)
      as ([] & Hu);
    rewrite (bind_ok m _ w5 tt Hu);
    set (w6 := fst (m w5));
    assert (incidents w6
            = Store.uptime_incidents
                (incident_step e now nid (marker nid w) (health_of e devices)
                   (db w))) as I6
  end.
  { unfold incidents, w6. rewrite uptime_tracking_db, D5, M5. reflexivity. }
  rewrite <- I6. clearbody w6. clear - w6.
  match goal with |- incidents (fst (?m w6)) = _ =>
    assert (keeps incidents m) as K
  end.
  { repeat first
      [ apply keeps_ret
      | apply derive_offline_since_keeps_incidents
      | apply update_entry_keeps_incidents
      | apply uptime_percentage_keeps_incidents
      | apply persist_metrics_keeps_incidents
      | apply process_network_alerts_keeps_incidents
      | apply keeps_bind; [|intros ?] ]. }
  apply K.
Qed.

End IncidentStep.

Section IncidentStepFacts.

Import Refresh Cache.
Variables (e : network_env) (now : Z).

(** A network with a usable id and a device list gets its turn, once the
    request for the list has left. *)
Lemma process_network_processed network acc (w : world) nid d devices :
  usable_id network = Some nid ->
  devices_response e = Ok (d :: devices) ->
  process_network now network e acc w
  = refresh_network now network e nid (d :: devices) acc
      (fst (Eff.request (GetDevices nid) w)).
Proof.
  intros Hid Hdev. unfold process_network. rewrite Hid.
  rewrite (bind_ok _ _ w tt) by reflexivity.
  unfold Eff.bind at 1, Eff.lift. cbn [fst snd]. rewrite Hdev. reflexivity.
Qed.

(** The same for [process_network], which may skip the network. *)
Lemma process_network_incidents network acc (w : world) :
  incidents (fst (process_network now network e acc w))
  = match usable_id network, devices_response e with
    | Some network_id, Ok ((_ :: _) as devices) =>
      Store.uptime_incidents
        (incident_step e now network_id (marker network_id w)
           (health_of e devices) (db w))
    | _, _ => incidents w
    end.
Proof.
  unfold process_network.
  destruct (usable_id network) as [network_id|]; [|reflexivity].
  rewrite (bind_ok _ _ w tt) by reflexivity.
  unfold Eff.bind at 1, Eff.lift. simpl.
  destruct (devices_response e) as [[|d devices]|ex]; try reflexivity.
  rewrite refresh_network_incidents. reflexivity.
Qed.

(** The table grows only by the insert of the offline transition. *)
Lemma incident_step_grows (nid : string) (prev : option string) (h : string)
    (d : Store.database) :
  length (Store.uptime_incidents (incident_step e now nid prev h d))
  <> length (Store.uptime_incidents d) ->
  h = "offline" /\ prev <> Some "offline" /\ prev <> None
  /\ Store.uptime_incidents (incident_step e now nid prev h d)
     = Store.uptime_incidents d
         ++ [Store.mkIncident
               (Store.next_id Store.inc_id (Store.uptime_incidents d))
               nid now None None None].
Proof.
  unfold incident_step.
  destruct (decide (prev = Some "offline" /\ h <> "offline")).
  { destruct (close_incidents_tx e); simpl; [|congruence].
    rewrite length_map. congruence. }
  destruct (decide (h = "offline" /\ prev <> Some "offline" /\ prev <> None))
    as [(Hh & Hp & Hn)|]; [|congruence].
  destruct (insert_incident_tx e); simpl; [|congruence].
  intros _. repeat split; assumption.
Qed.

(** A committed recovery leaves the network no open incident. *)
Lemma incident_step_recovers (nid : string) (h : string)
    (d : Store.database) :
  close_incidents_tx e = Store.Commits -> h <> "offline" ->
  Store.open_incidents nid (incident_step e now nid (Some "offline") h d) = [].
Proof.
  intros Hc Hh. unfold incident_step.
  destruct (decide (Some "offline" = Some "offline" /\ h <> "offline"));
    [|tauto].
  destruct (close_open_incidents (close_incidents_tx e) now nid d) eqn:E;
    [|rewrite Hc in E; discriminate E].
  rewrite (open_incidents_close _ _ _ _ _ _ E).
  destruct (decide (nid = nid)); [reflexivity | contradiction].
Qed.

End IncidentStepFacts.

(** ** The bounded time series *)

Section CapFacts.

Context {A : Type}.
Implicit Types (series : list A) (x : A).

Lemma cap_length series : (length (Cache.cap series) <= 168)%nat.
Proof.
  unfold Cache.cap, Cache.last_168.
  destruct (Nat.ltb_spec 168 (length series)); [|assumption].
  rewrite length_drop. lia.
Qed.

(** One sample more than the cap: the oldest goes, the others stay in
    order, the new one comes last. *)
Lemma cap_append_full series x :
  length series = 168%nat ->
  Cache.cap (series ++ [x]) = drop 1 series ++ [x].
Proof.
  intros H. unfold Cache.cap, Cache.last_168.
  rewrite length_app, H. simpl.
  rewrite drop_app_le by lia. reflexivity.
Qed.

End CapFacts.

Section SeriesFacts.

Import Refresh Cache.
Variables (e : network_env) (now : Z) (nid : string).

Lemma update_time_series_result n_connected n_wireless values (w : world) :
  snd (update_time_series now nid n_connected n_wireless values w)
  = Ok (cap (connected_users (entry nid w)
               ++ [mkConn now n_connected (Some n_wireless)]),
        cap (signal_strength_avg (entry nid w) ++ signal_entry now values)).
Proof.
  unfold update_time_series.
  rewrite (snd_bind_ok _ _ w tt) by reflexivity.
  set (w1 := fst (update_entry nid _ w)).
  assert (connected_users (entry nid w1)
          = connected_users (entry nid w)
              ++ [mkConn now n_connected (Some n_wireless)]) as C1.
  { unfold w1. rewrite entry_update_entry. reflexivity. }
  assert (signal_strength_avg (entry nid w1)
          = signal_strength_avg (entry nid w)) as S1.
  { unfold w1. rewrite entry_update_entry. reflexivity. }
  erewrite snd_bind_ok by reflexivity. cbn [fst Eff.gets].
  destruct values as [|v values]; simpl signal_entry.
  - erewrite snd_bind_ok by reflexivity.
    erewrite snd_bind_ok by reflexivity. simpl.
    rewrite C1, S1, app_nil_r. reflexivity.
  - match goal with |- context [Eff.bind ?m _ w1] =>
      rewrite (snd_bind_ok m _ w1 tt) by reflexivity;
      set (w2 := fst (m w1))
    end.
    erewrite snd_bind_ok by reflexivity. simpl snd.
    unfold w2. rewrite entry_update_entry. simpl signal_strength_avg.
    rewrite C1, S1. reflexivity.
Qed.

(** After its turn, each series of the network is the old one with this
    cycle's sample appended, capped. *)
Lemma refresh_network_series network devices acc (w : world) :
  let w' := fst (refresh_network now network e nid devices acc w) in
  let connected_devices := connected_of e devices in
  connected_users (entry nid w')
  = cap (connected_users (entry nid w)
           ++ [mkConn now (len connected_devices)
                 (Some (len (filter (fun d => wireless d = true)
                                    connected_devices)))])
  /\ signal_strength_avg (entry nid w')
     = cap (signal_strength_avg (entry nid w)
              ++ signal_entry now (signal_values connected_devices)).
Proof.
  intros w' connected_devices. unfold w', refresh_network.
  fold connected_devices.
  rewrite (bind_ok _ _ w tt) by reflexivity.
  set (w1 := fst (ensure_entry nid w)).
  assert (entry nid w1 = entry nid w) as E1 by apply entry_ensure_entry.
  match goal with |- context [Eff.bind ?m _ w1] =>
    rewrite (bind_ok m _ w1 _ (update_time_series_result _ _ _ w1));
    set (w2 := fst (m w1))
  end.
  rewrite E1. cbn [fst snd].
  match goal with |- context [Eff.bind ?m _ w2] =>
    rewrite (bind_ok m _ w2 _ (health_check_result e nid _ w2));
    set (w3 := fst (m w2))
  end.
  match goal with |- context [Eff.bind ?m _ w3] =>
    rewrite (bind_ok m _ w3 tt) by reflexivity;
    set (w4 := fst (m w3))
  end.
  match goal with
  | |- connected_users (entry nid (fst (?m w4))) = ?cu /\ _ = ?ss =>
    assert (connected_users (entry nid w4) = cu
            /\ signal_strength_avg (entry nid w4) = ss) as [C4 S4];
    [ unfold w4; rewrite entry_update_entry; split; reflexivity |];
    rewrite <- C4, <- S4; clearbody w4; clear - w4;
    assert (keeps (fun w => connected_users (entry nid w)) m
            /\ keeps (fun w => signal_strength_avg (entry nid w)) m)
      as [KC KS]
  end.
  { split;
      repeat first
        [ apply keeps_ret
        | apply bandwidth_tracking_keeps_field; intros; reflexivity
        | apply uptime_tracking_keeps_field; intros; reflexivity
        | apply derive_offline_since_keeps_field; intros; reflexivity
        | apply keeps_field_update_entry; intros; reflexivity
        | apply uptime_percentage_keeps_field; intros; reflexivity
        | apply persist_metrics_keeps_field; intros; reflexivity
        | apply process_network_alerts_keeps_field; intros; reflexivity
        | apply keeps_bind; [|intros ?]
        | match goal with
          | |- keeps _ (match ?x with _ => _ end) => destruct x
          end ]. }
  split; [apply KC | apply KS].
Qed.

Lemma refresh_network_keeps_combined network devices acc :
  keeps (fun w => combined (cache w))
        (refresh_network now network e nid devices acc).
Proof.
  unfold refresh_network, uptime_tracking.
  keeps_auto ltac:(apply keeps_modify; intros ?; simpl;
                   destruct (_ !! _); reflexivity).
Qed.

Lemma refresh_network_bounded network devices acc :
  preserves series_bounded (refresh_network now network e nid devices acc).
Proof.
  intros w (Hnets & Hc & Hs). unfold series_bounded, cache_bounded.
  rewrite (refresh_network_keeps_combined network devices acc w).
  split; [|split; assumption].
  intros other n Hn. destruct (decide (nid = other)) as [<-|Hne].
  - destruct (refresh_network_series network devices acc w) as [Hcu Hss].
    unfold entry in Hcu at 1, Hss at 1. rewrite Hn in Hcu, Hss. simpl in Hcu, Hss.
    rewrite Hcu, Hss. split; apply cap_length.
  - rewrite (refresh_network_keeps_others e now nid other Hne) in Hn.
    apply (Hnets other n Hn).
Qed.

End SeriesFacts.

Section CycleBounded.

Import Refresh Cache.

Ltac cache_kept :=
  apply (keeps_preserves cache _ cache_bounded); keeps_auto ltac:(fail).

Lemma process_network_bounded now network e acc :
  preserves series_bounded (process_network now network e acc).
Proof.
  unfold process_network.
  destruct (usable_id network) as [nid|]; [|cache_kept].
  apply preserves_bind; [cache_kept|]. intros _.
  apply preserves_bind; [cache_kept|].
  intros [|d devices]; [cache_kept | apply refresh_network_bounded].
Qed.

Lemma process_networks_bounded now todo acc :
  preserves series_bounded (process_networks now todo acc).
Proof.
  revert acc. induction todo as [|[network e] rest IH]; intros acc; simpl.
  - cache_kept.
  - apply preserves_bind; [apply process_network_bounded | intros ?; apply IH].
Qed.

(** The combined cache after the loop: each combined series appended to and
    capped, the networks untouched. *)
Lemma finish_cycle_cache e acc (w : world) :
  networks (cache (fst (finish_cycle e acc w))) = networks (cache w)
  /\ c_connected_users (combined (cache (fst (finish_cycle e acc w))))
     = cap (c_connected_users (combined (cache w))
              ++ [mkConn (current_time e) (len (combined_devices acc)) None])
  /\ c_signal_strength_avg (combined (cache (fst (finish_cycle e acc w))))
     = cap (c_signal_strength_avg (combined (cache w))
              ++ signal_entry (current_time e) (combined_signal_values acc)).
Proof.
  unfold finish_cycle, save_data_cache, signal_entry.
  destruct (combined_signal_values acc); destruct (disk_writable e);
    repeat split; simpl; rewrite ?app_nil_r; reflexivity.
Qed.

Lemma finish_cycle_bounded e acc :
  preserves series_bounded (finish_cycle e acc).
Proof.
  intros w (Hnets & _ & _). unfold series_bounded, cache_bounded.
  destruct (finish_cycle_cache e acc w) as (-> & -> & ->).
  split; [assumption | split; apply cap_length].
Qed.

Lemma on_failure_bounded e ex : preserves series_bounded (on_failure e ex).
Proof.
  intros w Hw. unfold on_failure, save_data_cache.
  destruct (disk_writable e); exact Hw.
Qed.

(** A refresh cycle, whatever the world answers, keeps every series within
    the cap. *)
Lemma update_cache_bounded e : preserves series_bounded (update_cache e).
Proof.
  unfold update_cache.
  apply preserves_bind.
  { apply (keeps_preserves cache _ cache_bounded), acquire_keeps. reflexivity. }
  intros [|]; simpl; [|cache_kept].
  apply preserves_finally; [|unfold release; cache_kept].
  apply preserves_try_except; [|intros ex; apply on_failure_bounded].
  unfold cycle. apply preserves_bind; [cache_kept | intros _].
  destruct (active_networks e) as [|p todo]; [cache_kept|].
  apply preserves_bind;
    [apply process_networks_bounded | intros ?; apply finish_cycle_bounded].
Qed.

Lemma refresh_cycles_bounded cycles :
  preserves series_bounded (refresh_cycles cycles).
Proof.
  induction cycles as [|e rest IH]; simpl.
  - apply (keeps_preserves cache _ cache_bounded), keeps_ret.
  - apply preserves_bind; [apply update_cache_bounded | intros _; exact IH].
Qed.

(** A process that starts on the default cache starts within the cap. *)
Lemma initial_world_bounded : series_bounded initial_world.
Proof.
  split; [|split; simpl; lia].
  intros nid n H. simpl in H. rewrite lookup_empty in H. discriminate.
Qed.

End CycleBounded.

(** ** Startup reconciliation *)

Section Reconciliation.

Import Refresh Cache.
Variables (now : Z) (w : world).

(** The guard of the code, on the cached health. *)
Lemma currently_online_iff (nid : string) :
  currently_online w nid = true
  <-> exists health, cached_health w nid = Some health
                     /\ health <> "" /\ health <> "offline".
Proof.
  unfold currently_online, cached_health.
  destruct (networks (cache w) !! nid) as [n|].
  - destruct (health_status n) as [health|].
    + rewrite bool_decide_eq_true. split.
      * intros H. exists health. tauto.
      * intros (h' & [= <-] & H). exact H.
    + split; [discriminate | intros (h' & [=] & _)].
  - split; [discriminate | intros (h' & [=] & _)].
Qed.

Lemma close_orphaned_incidents_returns (tx : Store.outcome) :
  snd (close_orphaned_incidents tx now w) = Ok tt.
Proof. destruct tx; reflexivity. Qed.

(** A reconciliation that commits rewrites each row in place. *)
Lemma close_orphaned_incidents_commits :
  incidents (fst (close_orphaned_incidents Store.Commits now w))
  = map (fun inc =>
           if Store.is_open inc && currently_online w (Store.inc_network_id inc)
           then Store.close now inc else inc)
        (incidents w).
Proof. reflexivity. Qed.

(** One that fails leaves the database as it was. *)
Lemma close_orphaned_incidents_fails :
  db (fst (close_orphaned_incidents Store.Fails now w)) = db w.
Proof. reflexivity. Qed.

Lemma close_orphaned_incidents_keys (tx : Store.outcome) :
  map Store.inc_id (incidents (fst (close_orphaned_incidents tx now w)))
  = map Store.inc_id (incidents w).
Proof.
  destruct tx; [|reflexivity].
  rewrite close_orphaned_incidents_commits, map_map.
  apply map_ext. intros inc.
  destruct (Store.is_open inc && currently_online w (Store.inc_network_id inc));
    reflexivity.
Qed.

Lemma close_orphaned_incidents_row (i : nat) (inc : Store.UptimeIncident) :
  incidents w !! i = Some inc ->
  incidents (fst (close_orphaned_incidents Store.Commits now w)) !! i
  = Some (if Store.is_open inc
             && currently_online w (Store.inc_network_id inc)
          then Store.close now inc else inc).
Proof.
  intros H. rewrite close_orphaned_incidents_commits.
  change (map ?f ?l) with (f <$> l).
  rewrite list_lookup_fmap, H. reflexivity.
Qed.

End Reconciliation.

(** ** The refresh lock *)

Section LockFacts.

Import Refresh Cache.

(** A call that finds the lock taken logs and returns. *)
Lemma update_cache_skips e (w : world) :
  cache_lock w = true -> update_cache e w = (skip w, Ok tt).
Proof.
  intros H. unfold update_cache, Eff.bind, acquire. rewrite H. reflexivity.
Qed.

Lemma process_network_keeps_lock now network e acc :
  keeps cache_lock (process_network now network e acc).
Proof.
  unfold process_network.
  destruct (usable_id network) as [nid|]; [|apply keeps_ret].
  apply keeps_bind; [keeps_auto ltac:(fail)|]. intros _.
  apply keeps_bind; [apply keeps_lift|].
  intros [|d devices]; [apply keeps_ret | apply refresh_network_keeps_lock].
Qed.

Lemma finish_cycle_keeps_lock e acc : keeps cache_lock (finish_cycle e acc).
Proof. unfold finish_cycle. keeps_auto ltac:(fail). Qed.

Lemma on_failure_keeps_lock e ex : keeps cache_lock (on_failure e ex).
Proof. unfold on_failure. keeps_auto ltac:(fail). Qed.

Lemma on_failure_returns e ex : returns (on_failure e ex).
Proof. unfold on_failure. returns_auto. Qed.

Lemma finish_cycle_returns e acc : returns (finish_cycle e acc).
Proof. unfold finish_cycle. returns_auto. Qed.

(** [update_cache] never raises: what the cycle raises is handled, and the
    handler returns. *)
Lemma update_cache_returns e : returns (update_cache e).
Proof.
  unfold update_cache. apply returns_bind.
  { intros w. unfold acquire. destruct (cache_lock w); eexists; reflexivity. }
  intros [|]; simpl; [|apply returns_logging].
  apply returns_finally; [|apply returns_modify].
  apply returns_try_except. apply on_failure_returns.
Qed.

(** It leaves the lock as it found it. *)
Lemma update_cache_keeps_lock e : keeps cache_lock (update_cache e).
Proof.
  intros w. destruct (cache_lock w) eqn:L.
  - rewrite update_cache_skips by assumption. exact L.
  - unfold update_cache, Eff.bind at 1, acquire. rewrite L. cbn [negb].
    unfold Eff.finally.
    destruct (Eff.try_except (cycle e) (on_failure e)
                (with_cache_lock true w)) as [w' r].
    reflexivity.
Qed.

End LockFacts.

(** ** Threads *)

Section ThreadFacts.

Import Refresh Cache Threads.

(** A thread inside a cycle that steps stays inside with the lock as it
    was, or returns with the lock released. *)
Lemma advance_holder (t : thread) (w : world) :
  in_cycle t = true ->
  (in_cycle (fst (advance t w)) = true
   /\ cache_lock (snd (advance t w)) = cache_lock w)
  \/ (in_cycle (fst (advance t w)) = false
      /\ cache_lock (snd (advance t w)) = false).
Proof.
  destruct t as [e|e|e [|[network ne] rest] acc|]; try discriminate; intros _.
  - simpl. destruct (active_networks e); [right | left]; split; reflexivity.
  - right. simpl.
    destruct (Eff.try_except (finish_cycle e acc) (on_failure e) w).
    split; reflexivity.
  - simpl.
    pose proof (process_network_keeps_lock (current_time e) network ne acc w)
      as K.
    destruct (process_network (current_time e) network ne acc w)
      as [w' [acc'|ex]]; [left | right]; split; try reflexivity.
    exact K.
Qed.

(** A thread that tries the lock enters when it is free, and otherwise
    returns having changed nothing but the log. *)
Lemma advance_caller (e : cycle_env) (w : world) :
  advance (Calling e) w
  = if cache_lock w then (Returned, skip w)
    else (Entered e, with_cache_lock true w).
Proof. unfold advance, acquire. destruct (cache_lock w); reflexivity. Qed.

Lemma step_exclusive (c c' : configuration) :
  exclusive c -> step c c' -> exclusive c'.
Proof.
  intros [Hfree Hone] Hstep.
  destruct Hstep as [ts w i t Hi Hrun].
  unfold exclusive. cbn [fst snd] in *.
  assert (in_cycle t = true -> cache_lock w = true) as Hheld.
  { intros Hin. destruct (cache_lock w) eqn:L; [reflexivity|].
    rewrite (Hfree eq_refl i t Hi) in Hin. discriminate. }
  assert (forall j tj, j <> i -> <[i := fst (advance t w)]> ts !! j = Some tj ->
                       ts !! j = Some tj) as Hother.
  { intros j tj Hne H. rewrite list_lookup_insert_ne in H by congruence.
    exact H. }
  assert (forall tj, <[i := fst (advance t w)]> ts !! i = Some tj ->
                     tj = fst (advance t w)) as Hself.
  { intros tj H. rewrite list_lookup_insert_eq in H
      by (apply lookup_lt_is_Some; eauto).
    congruence. }
  destruct (in_cycle t) eqn:Hin.
  - (* the holder steps *)
    assert (forall j tj, j <> i -> ts !! j = Some tj -> in_cycle tj = false)
      as Hrest.
    { intros j tj Hne Hj. destruct (in_cycle tj) eqn:E; [|reflexivity].
      exfalso. apply Hne. apply (Hone j i tj t); assumption. }
    destruct (advance_holder t w Hin) as [[Hin' Hlock]|[Hout Hlock]].
    + split.
      * rewrite Hlock, (Hheld eq_refl). discriminate.
      * intros j k tj tk Hj Hk Htj Htk.
        destruct (decide (j = i)) as [->|Hji];
          destruct (decide (k = i)) as [->|Hki]; try reflexivity; exfalso.
        -- rewrite (Hrest k tk Hki (Hother k tk Hki Hk)) in Htk. discriminate.
        -- rewrite (Hrest j tj Hji (Hother j tj Hji Hj)) in Htj. discriminate.
        -- rewrite (Hrest j tj Hji (Hother j tj Hji Hj)) in Htj. discriminate.
    + assert (forall j tj, <[i := fst (advance t w)]> ts !! j = Some tj ->
                           in_cycle tj = false) as Hnone.
      { intros j tj Hj. destruct (decide (j = i)) as [->|Hji].
        - rewrite (Hself tj Hj). exact Hout.
        - apply (Hrest j tj Hji (Hother j tj Hji Hj)). }
      split.
      * intros _ j tj Hj. apply (Hnone j tj Hj).
      * intros j k tj tk Hj Hk Htj Htk.
        rewrite (Hnone j tj Hj) in Htj. discriminate.
  - (* a thread outside steps: it is calling *)
    destruct t as [e|e|e todo acc|]; try discriminate.
    rewrite advance_caller. destruct (cache_lock w) eqn:L; cbn [fst snd].
    + split.
      * intros HL. change (cache_lock w = false) in HL. congruence.
      * intros j k tj tk Hj Hk Htj Htk.
        destruct (decide (j = i)) as [->|Hji].
        { rewrite list_lookup_insert_eq in Hj
            by (apply lookup_lt_is_Some; eauto).
          injection Hj as <-. discriminate. }
        destruct (decide (k = i)) as [->|Hki].
        { rewrite list_lookup_insert_eq in Hk
            by (apply lookup_lt_is_Some; eauto).
          injection Hk as <-. discriminate. }
        rewrite list_lookup_insert_ne in Hj, Hk by congruence.
        apply (Hone j k tj tk); assumption.
    + split; [discriminate|].
      intros j k tj tk Hj Hk Htj Htk.
      assert (forall m tm, <[i := Entered e]> ts !! m = Some tm ->
                           in_cycle tm = true -> m = i) as Honly.
      { intros m tm Hm Htm. destruct (decide (m = i)) as [->|Hmi];
          [reflexivity|].
        rewrite list_lookup_insert_ne in Hm by congruence.
        rewrite (Hfree eq_refl m tm Hm) in Htm. discriminate. }
      rewrite (Honly j tj Hj Htj), (Honly k tk Hk Htk). reflexivity.
Qed.

Lemma reachable_exclusive (c0 c : configuration) :
  exclusive c0 -> reachable c0 c -> exclusive c.
Proof.
  intros H0 Hr. induction Hr as [|c c' _ IH Hstep]; [exact H0|].
  apply (step_exclusive c c' IH Hstep).
Qed.

(** Before any thread has tried the lock, nobody is inside. *)
Lemma callers_exclusive (calls : list cycle_env) (w : world) :
  exclusive (map Calling calls, w).
Proof.
  assert (forall i t, map Calling calls !! i = Some t -> in_cycle t = false)
    as Hnone.
  { intros i t H. change (map Calling calls) with (Calling <$> calls) in H.
    rewrite list_lookup_fmap in H.
    destruct (calls !! i); simpl in H; [injection H as <-; reflexivity
                                       | discriminate]. }
  split; simpl.
  - intros _ i t H. apply (Hnone i t H).
  - intros i j ti tj Hi _ Hti _. rewrite (Hnone i ti Hi) in Hti. discriminate.
Qed.

(** *** A thread alone runs [update_cache] *)

Lemma alone_loop e (todo : list (network_config * network_env)) :
  forall acc w,
    exists fuel,
      alone fuel (Looping e todo acc) w
      = (Returned,
         fst (release
                (fst (Eff.try_except
                        (Eff.bind (process_networks (current_time e) todo acc)
                                  (finish_cycle e))
                        (on_failure e) w)))).
Proof.
  induction todo as [|[network ne] rest IH]; intros acc w.
  - exists 1%nat. cbn [alone finished advance process_networks].
    change (Eff.try_except (Eff.bind (Eff.ret acc) (finish_cycle e))
              (on_failure e) w)
      with (Eff.try_except (finish_cycle e acc) (on_failure e) w).
    destruct (Eff.try_except (finish_cycle e acc) (on_failure e) w)
      as [w' r].
    reflexivity.
  - simpl process_networks.
    destruct (process_network (current_time e) network ne acc w)
      as [w' [acc'|ex]] eqn:E.
    + destruct (IH acc' w') as (fuel & Hfuel). exists (S fuel).
      simpl. rewrite E, Hfuel.
      unfold Eff.try_except, Eff.bind. rewrite E. reflexivity.
    + exists 1%nat. simpl. rewrite E.
      unfold Eff.try_except, Eff.bind. rewrite E. reflexivity.
Qed.

(** The steps of a thread that nobody interrupts add up to the call. *)
Lemma alone_update_cache e (w : world) :
  exists fuel,
    alone fuel (Calling e) w = (Returned, fst (update_cache e w)).
Proof.
  destruct (cache_lock w) eqn:L.
  - exists 1%nat. cbn [alone finished]. rewrite advance_caller, L.
    rewrite update_cache_skips by assumption. reflexivity.
  - unfold update_cache, Eff.bind at 1, acquire. rewrite L. cbn [negb].
    set (w1 := with_cache_lock true w).
    assert (forall body : M unit,
               fst (Eff.finally body release w1) = fst (release (fst (body w1))))
      as Hfin.
    { intros body. unfold Eff.finally. destruct (body w1). reflexivity. }
    rewrite Hfin. unfold cycle.
    destruct (active_networks e) as [|p todo] eqn:A.
    + exists 2%nat. cbn [alone finished]. rewrite advance_caller, L.
      cbn [fst snd finished]. fold w1. unfold advance. rewrite A. reflexivity.
    + destruct (alone_loop e (p :: todo) no_accumulated
                  (fst (Eff.logging INFO
                          "Starting multi-network cache update..." w1)))
        as (fuel & Hfuel).
      exists (S (S fuel)). cbn [alone finished]. rewrite advance_caller, L.
      cbn [fst snd finished]. fold w1. unfold advance at 1. rewrite A.
      cbn [fst snd finished]. rewrite Hfuel. reflexivity.
Qed.

End ThreadFacts.

(** ** The alert engine, call after call *)

Section AlertSequences.

Variables network_id network_name : string.

(** A call that returns no alert leaves the store and the outbox alone. *)
Lemma check_health_transition_silent (e : Alerts.env) (new_status : string)
    (w : world) :
  transition_alert (previous_health w !! network_id) network_id network_name
    new_status = None ->
  db (fst (Alerts.check_health_transition e network_id network_name
             new_status w)) = db w
  /\ outbox (fst (Alerts.check_health_transition e network_id network_name
                    new_status w)) = outbox w.
Proof.
  unfold Alerts.check_health_transition, transition_alert.
  rewrite (bind_ok _ _ w (previous_health w !! network_id)) by reflexivity.
  cbn [fst Eff.gets].
  rewrite (bind_ok _ _ w tt) by reflexivity. cbn [fst Eff.modify].
  destruct (previous_health w !! network_id) as [old|]; [|split; reflexivity].
  repeat match goal with
         | |- context [decide ?P] => destruct (decide P)
         end;
    try discriminate; intros _; split; reflexivity.
Qed.

(** The same status again: no alert, whatever was decided before. *)
Lemma transition_alert_same (status : string) :
  transition_alert (Some status) network_id network_name status = None.
Proof.
  unfold transition_alert.
  destruct (decide (status = status)); [reflexivity | contradiction].
Qed.

Lemma transition_alert_degraded (old : string) :
  old <> "healthy" ->
  transition_alert (Some old) network_id network_name "degraded" = None.
Proof.
  intros H. unfold transition_alert.
  destruct (decide (old = "degraded")); [reflexivity|].
  destruct (decide ("degraded" = "offline")); [discriminate|].
  destruct (decide ("degraded" = "degraded" /\ old = "healthy"));
    [tauto | reflexivity].
Qed.

Lemma previous_health_after (e : Alerts.env) (new_status : string)
    (w : world) :
  previous_health
    (fst (Alerts.check_health_transition e network_id network_name
            new_status w)) !! network_id = Some new_status.
Proof. rewrite check_health_transition_records. apply lookup_insert_eq. Qed.

(** While the status does not change, no call returns an alert. *)
Lemma observe_unchanged (status : string) (envs : list Alerts.env) :
  forall w,
    previous_health w !! network_id = Some status ->
    snd (Alerts.observe network_id network_name
           (map (fun e => (e, status)) envs) w)
    = Ok (replicate (length envs) None).
Proof.
  induction envs as [|e envs IH]; intros w Hw; [reflexivity|].
  simpl Alerts.observe.
  pose proof (check_health_transition_result e network_id network_name
                status w) as Hr.
  rewrite Hw, transition_alert_same in Hr.
  rewrite (snd_bind_ok _ _ w None Hr).
  specialize (IH _ (previous_health_after e status w)).
  rewrite (snd_bind_ok _ _ _ _ IH). reflexivity.
Qed.

End AlertSequences.

(** ** The incident state machine under interleaving *)

Section ThreadTracking.

Import Refresh Cache Threads.
Variable observed : string.

(** A step of a thread whose recovery transactions commit keeps a balanced
    network balanced, and the rest of its run commits as well. *)
Lemma advance_tracked (t : thread) (w : world) :
  thread_commits t -> tracked observed w ->
  thread_commits (fst (advance t w)) /\ tracked observed (snd (advance t w)).
Proof.
  intros Hc Hw. destruct t as [e|e|e [|[network ne] rest] acc|].
  - rewrite advance_caller.
    destruct (cache_lock w); split; solve [exact I | exact Hc | exact Hw].
  - cbn [advance]. pose proof (active_networks_commit e Hc) as Hall.
    destruct (active_networks e) as [|p todo]; split;
      solve [exact I | exact Hall | exact Hw].
  - cbn [advance].
    pose proof (preserves_try_except (tracked observed)
                  (finish_cycle e acc) (on_failure e)
                  (keeps_preserves (uptime_view observed) _ balanced
                     (finish_cycle_keeps_view observed e acc))
                  (fun ex => keeps_preserves (uptime_view observed) _ balanced
                               (on_failure_keeps_view observed e ex)) w Hw)
      as H.
    destruct (Eff.try_except (finish_cycle e acc) (on_failure e) w) as [w' r].
    split; [exact I | exact H].
  - cbn [advance]. apply Forall_cons in Hc as [Hne Hrest].
    pose proof (process_network_tracked observed (current_time e) network ne
                  acc Hne w Hw) as H.
    destruct (process_network (current_time e) network ne acc w)
      as [w' [acc'|ex]]; cbn [fst snd] in *.
    + split; assumption.
    + split; [exact I|].
      apply (keeps_preserves (uptime_view observed) _ balanced
               (on_failure_keeps_view observed e ex) w' H).
  - split; assumption.
Qed.

Lemma step_tracked (c c' : configuration) :
  Forall thread_commits (fst c) /\ tracked observed (snd c) ->
  step c c' ->
  Forall thread_commits (fst c') /\ tracked observed (snd c').
Proof.
  intros [Hall Hw] Hstep. destruct Hstep as [ts w i t Hi _].
  cbn [fst snd] in *.
  assert (thread_commits t) as Ht.
  { rewrite Forall_forall in Hall. apply Hall.
    apply list_elem_of_lookup. eauto. }
  destruct (advance_tracked t w Ht Hw) as [Ht' Hw'].
  split; [|exact Hw'].
  apply Forall_insert; assumption.
Qed.

(** However the threads interleave, a network that started balanced is
    balanced after every step. *)
Lemma reachable_tracked (calls : list cycle_env) (w0 : world)
    (c : configuration) :
  Forall closes_commit calls -> tracked observed w0 ->
  reachable (map Calling calls, w0) c ->
  tracked observed (snd c).
Proof.
  intros Hall H0 Hreach.
  assert (Forall thread_commits (fst c) /\ tracked observed (snd c)) as [_ H];
    [|exact H].
  induction Hreach as [|c c' _ IH Hstep].
  - split; [|exact H0]. cbn [fst].
    induction Hall; simpl; constructor; assumption.
  - apply (step_tracked c c' IH Hstep).
Qed.

(** A schedule is one way for the threads to interleave. *)
Lemma run_reachable (schedule : list nat) :
  forall c, reachable c (run schedule c).
Proof.
  induction schedule as [|i rest IH]; intros [ts w]; [constructor|].
  cbn [run fst snd].
  destruct (ts !! i) as [t|] eqn:Hi; [|apply IH].
  destruct (finished t) eqn:Hf; [apply IH|].
  assert (step (ts, w) (<[i := fst (advance t w)]> ts, snd (advance t w)))
    as Hstep by (constructor; assumption).
  clear Hi Hf.
  set (c' := (<[i := fst (advance t w)]> ts, snd (advance t w))) in *.
  specialize (IH c'). clearbody c'.
  induction IH as [|c1 c2 _ IH1 Hs]; [|apply (reachable_step _ _ _ IH1 Hs)].
  apply (reachable_step _ _ _ (reachable_start _) Hstep).
Qed.

End ThreadTracking.

(** * The claims of the specification *)

(** ** C1: at most one open incident per network *)

(** C1, as stated, fails: with the database unreachable at the recovery of
    cycle three, the incident of cycle two stays open, the marker moves on to
    healthy, and cycle four opens a second incident beside it. *)
Lemma failed_recovery_leaves_two_open :
  open_count "n1" initial_world = 0%nat
  /\ open_count "n1" (fst (Refresh.refresh_cycles Scenario.flapping initial_world))
     = 2%nat
  /\ ~ (forall (cycles : list Refresh.cycle_env) (w : world) (nid : string),
           open_count nid w = 0%nat ->
           (open_count nid (fst (Refresh.refresh_cycles cycles w)) <= 1)%nat).
Proof.
  assert (open_count "n1"
            (fst (Refresh.refresh_cycles Scenario.flapping initial_world))
          = 2%nat) as Htwo by (vm_compute; reflexivity).
  split; [reflexivity|]. split; [exact Htwo|].
  intros H. specialize (H Scenario.flapping initial_world "n1" eq_refl).
  rewrite Htwo in H. lia.
Qed.

(** C1 (amended): from a database with no open incident for a network, every
    sequence of refresh cycles whose recovery transactions commit leaves that
    network at most one open incident, and so does every state that calls of
    [update_cache] from any number of threads pass through, network by
    network.  The incident table grows only in the turn of a network whose
    marker is neither null nor offline and whose health is now offline, by
    one open incident of that network; and the turn of a network whose marker
    is offline and whose health is no longer offline, with its recovery
    transaction committing, leaves the network no open incident. *)
Theorem one_open_incident_per_network :
  (forall (cycles : list Refresh.cycle_env) (w : world) (nid : string),
      Forall closes_commit cycles ->
      open_count nid w = 0%nat ->
      (open_count nid (fst (Refresh.refresh_cycles cycles w)) <= 1)%nat)
  /\ (forall (calls : list Refresh.cycle_env) (w0 : world)
        (ts : list Threads.thread) (w : world) (nid : string),
        Forall closes_commit calls ->
        open_count nid w0 = 0%nat ->
        Threads.reachable (map Threads.Calling calls, w0) (ts, w) ->
        (open_count nid w <= 1)%nat)
  /\ (forall (now : Z) (network : Refresh.network_config)
        (e : Refresh.network_env) (acc : Refresh.accumulators) (w : world),
        length (incidents (fst (Refresh.process_network now network e acc w)))
        <> length (incidents w) ->
        exists nid devices,
          Refresh.usable_id network = Some nid
          /\ Refresh.devices_response e = Ok devices
          /\ Refresh.health_of e devices = "offline"
          /\ marker nid w <> Some "offline"
          /\ marker nid w <> None
          /\ incidents (fst (Refresh.process_network now network e acc w))
             = incidents w
                 ++ [Store.mkIncident
                       (Store.next_id Store.inc_id (incidents w))
                       nid now None None None])
  /\ (forall (now : Z) (network : Refresh.network_config)
        (e : Refresh.network_env) (acc : Refresh.accumulators) (w : world)
        (nid : string) (d : Refresh.device) (devices : list Refresh.device),
        Refresh.usable_id network = Some nid ->
        Refresh.devices_response e = Ok (d :: devices) ->
        Refresh.close_incidents_tx e = Store.Commits ->
        marker nid w = Some "offline" ->
        Refresh.health_of e (d :: devices) <> "offline" ->
        open_count nid (fst (Refresh.process_network now network e acc w))
        = 0%nat).
Proof.
  assert (forall nid w, tracked nid w -> (open_count nid w <= 1)%nat) as Hle.
  { intros nid w [Ht|[Ht _]]; unfold open_count; simpl in Ht; lia. }
  split; [|split; [|split]].
  - intros cycles w nid Hall H0. apply Hle.
    apply refresh_cycles_tracked; [assumption|]. left. exact H0.
  - intros calls w0 ts w nid Hall H0 Hreach. apply Hle.
    apply (reachable_tracked nid calls w0 (ts, w) Hall); [|exact Hreach].
    left. exact H0.
  - intros now network e acc w Hlen.
    rewrite process_network_incidents in *.
    destruct (Refresh.usable_id network) as [nid|]; [|congruence].
    destruct (Refresh.devices_response e) as [[|d devices]|ex]; try congruence.
    apply incident_step_grows in Hlen as (Hh & Hp & Hn & Hrow).
    exists nid, (d :: devices). repeat split; assumption.
  - intros now network e acc w nid d devices Hid Hdev Hc Hm Hh.
    unfold open_count, Store.open_incidents.
    fold (incidents (fst (Refresh.process_network now network e acc w))).
    rewrite process_network_incidents, Hid, Hdev, Hm.
    fold (Store.open_incidents nid
            (incident_step e now nid (Some "offline")
               (Refresh.health_of e (d :: devices)) (db w))).
    rewrite incident_step_recovers by assumption. reflexivity.
Qed.

(** C1 at work: four cycles of a site going down twice, every transaction
    committing. *)
Lemma one_open_incident_witness :
  (open_count "n1"
     (fst (Refresh.refresh_cycles Scenario.steady initial_world)) <= 1)%nat.
Proof.
  apply (proj1 one_open_incident_per_network Scenario.steady initial_world "n1").
  - repeat constructor.
  - reflexivity.
Defined.

(** ** C2: the alerts of healthy, degraded, offline, healthy *)

(** C2: for a network with no status on record, the observations healthy,
    degraded, offline, healthy return, in order: no alert; the alert of type
    degraded and severity warning; the alert of type offline and severity
    critical; no alert.  The alert table gains the rows of these two alerts
    whose insert commits and no other.  And a transition to degraded from a
    status that is not healthy returns no alert and leaves the store and the
    outbox alone. *)
Theorem health_sequence_alerts :
  forall (e1 e2 e3 e4 : Alerts.env) (nid name : string) (w : world),
    previous_health w !! nid = None ->
    let run :=
      Alerts.observe nid name
        [(e1, "healthy"); (e2, "degraded"); (e3, "offline"); (e4, "healthy")]
        w in
    snd run
    = Ok [None;
          Some (mkAlertDict nid "degraded" "warning"
                  (name +:+ " is degraded — 50% or fewer devices are online."));
          Some (mkAlertDict nid "offline" "critical"
                  (name +:+ " has gone offline — all devices are unreachable."));
          None]
    /\ map alert_summary (Store.alerts (db (fst run)))
       = map alert_summary (Store.alerts (db w))
           ++ persisted e2 (nid, "degraded", "warning")
           ++ persisted e3 (nid, "offline", "critical")
    /\ (forall (e : Alerts.env) (w0 : world) (old : string),
           previous_health w0 !! nid = Some old ->
           old <> "healthy" ->
           let quiet := Alerts.check_health_transition e nid name "degraded" w0 in
           snd quiet = Ok None
           /\ db (fst quiet) = db w0
           /\ outbox (fst quiet) = outbox w0).
Proof.
  intros e1 e2 e3 e4 nid name w Hw run.
  assert (forall e s w0,
             Alerts.check_health_transition e nid name s w0
             = (fst (Alerts.check_health_transition e nid name s w0),
                Ok (transition_alert (previous_health w0 !! nid) nid name s)))
    as Hcall.
  { intros e s w0. rewrite <- (check_health_transition_result e nid name s w0).
    destruct (Alerts.check_health_transition e nid name s w0). reflexivity. }
  set (w1 := fst (Alerts.check_health_transition e1 nid name "healthy" w)).
  set (w2 := fst (Alerts.check_health_transition e2 nid name "degraded" w1)).
  set (w3 := fst (Alerts.check_health_transition e3 nid name "offline" w2)).
  set (w4 := fst (Alerts.check_health_transition e4 nid name "healthy" w3)).
  assert (previous_health w1 !! nid = Some "healthy") as H1
    by (unfold w1; apply previous_health_after).
  assert (previous_health w2 !! nid = Some "degraded") as H2
    by (unfold w2; apply previous_health_after).
  assert (previous_health w3 !! nid = Some "offline") as H3
    by (unfold w3; apply previous_health_after).
  assert (run = (w4, Ok [None; Some (Alerts.degraded_alert nid name);
                         Some (Alerts.offline_alert nid name); None])) as ->.
  { unfold run. cbn [Alerts.observe]. unfold Eff.bind.
    rewrite (Hcall e1 "healthy" w), Hw. fold w1.
    rewrite (Hcall e2 "degraded" w1), H1. fold w2.
    rewrite (Hcall e3 "offline" w2), H2. fold w3.
    rewrite (Hcall e4 "healthy" w3), H3. fold w4.
    reflexivity. }
  split; [reflexivity|]. split.
  - cbn [fst]. unfold w4, w3, w2, w1.
    rewrite !check_health_transition_rows.
    fold w1. fold w2. fold w3. rewrite Hw, H1, H2, H3.
    change (transition_alert None nid name "healthy") with (@None alert).
    change (transition_alert (Some "healthy") nid name "degraded")
      with (Some (Alerts.degraded_alert nid name)).
    change (transition_alert (Some "degraded") nid name "offline")
      with (Some (Alerts.offline_alert nid name)).
    change (transition_alert (Some "offline") nid name "healthy")
      with (@None alert).
    unfold alert_rows, persisted.
    destruct (Alerts.insert_alert_tx e2), (Alerts.insert_alert_tx e3);
      rewrite ?map_app, ?app_nil_r, <- ?app_assoc; reflexivity.
  - intros e w0 old Hold Hne quiet. unfold quiet.
    pose proof (transition_alert_degraded nid name old Hne) as Hnone.
    rewrite check_health_transition_result, Hold, Hnone.
    split; [reflexivity|].
    apply check_health_transition_silent. rewrite Hold. exact Hnone.
Qed.

(** C2 at work, on a process freshly started. *)
Lemma health_sequence_witness :
  snd (Alerts.observe "n1" "Site"
         [(Scenario.quiet, "healthy"); (Scenario.quiet, "degraded");
          (Scenario.quiet, "offline"); (Scenario.quiet, "healthy")]
         initial_world)
  = Ok [None;
        Some (mkAlertDict "n1" "degraded" "warning"
                "Site is degraded — 50% or fewer devices are online.");
        Some (mkAlertDict "n1" "offline" "critical"
                "Site has gone offline — all devices are unreachable.");
        None].
Proof.
  exact (proj1 (health_sequence_alerts Scenario.quiet Scenario.quiet
                  Scenario.quiet Scenario.quiet "n1" "Site" initial_world
                  eq_refl)).
Defined.

(** ** C3: startup reconciliation *)

(** C3, as stated, fails: an open incident of a network for which the cache
    holds no health entry falls under the rule of the specification (its
    health is not offline), yet the reconciliation, committing, leaves it
    open. *)
Lemma orphan_without_cached_health_stays_open :
  incidents Scenario.restarted
  = [Store.mkIncident 1 "n1" 60000000 None None None]
  /\ cached_health Scenario.restarted "n1" = None
  /\ spec_closes_orphan (cached_health Scenario.restarted "n1")
  /\ incidents
       (fst (Refresh.close_orphaned_incidents Store.Commits 120000000
               Scenario.restarted))
     = [Store.mkIncident 1 "n1" 60000000 None None None]
  /\ ~ (forall (now : Z) (w : world) (i : nat) (inc : Store.UptimeIncident),
           incidents w !! i = Some inc ->
           Store.end_time inc = None ->
           spec_closes_orphan (cached_health w (Store.inc_network_id inc)) ->
           exists inc',
             incidents
               (fst (Refresh.close_orphaned_incidents Store.Commits now w))
               !! i = Some inc'
             /\ Store.end_time inc' <> None).
Proof.
  assert (incidents
            (fst (Refresh.close_orphaned_incidents Store.Commits 120000000
                    Scenario.restarted))
          = [Store.mkIncident 1 "n1" 60000000 None None None]) as Hopen
    by (vm_compute; reflexivity).
  split; [reflexivity|]. split; [reflexivity|]. split; [discriminate|].
  split; [exact Hopen|].
  intros H.
  destruct (H 120000000 Scenario.restarted 0%nat
              (Store.mkIncident 1 "n1" 60000000 None None None)
              eq_refl eq_refl ltac:(discriminate)) as (inc' & Hrow & Hend).
  rewrite Hopen in Hrow. injection Hrow as <-. apply Hend. reflexivity.
Qed.

(** C3 (amended): startup reconciliation returns and inserts no incident
    row.  When its transaction commits, every incident with null end_time
    whose network has a cached health status that is non-empty and not
    offline (healthy, say) gets the current time as end_time and, as
    duration, the whole seconds from its start_time to the current time, at
    least 0; an open incident whose network's cached health is offline, or
    for which the cache holds no health entry or an empty one, is left as it
    is, still open; closed incidents are left as they are.  When the
    transaction fails, the database is left as it was. *)
Theorem startup_reconciliation :
  forall (tx : Store.outcome) (now : Z) (w : world),
    let w' := fst (Refresh.close_orphaned_incidents tx now w) in
    snd (Refresh.close_orphaned_incidents tx now w) = Ok tt
    /\ map Store.inc_id (incidents w') = map Store.inc_id (incidents w)
    /\ (tx = Store.Commits ->
        forall (i : nat) (inc : Store.UptimeIncident),
          incidents w !! i = Some inc ->
          (Store.end_time inc = None ->
           forall health,
             cached_health w (Store.inc_network_id inc) = Some health ->
             health <> "" -> health <> "offline" ->
             exists inc',
               incidents w' !! i = Some inc'
               /\ Store.inc_id inc' = Store.inc_id inc
               /\ Store.inc_network_id inc' = Store.inc_network_id inc
               /\ Store.start_time inc' = Store.start_time inc
               /\ Store.end_time inc' = Some now
               /\ Store.duration_seconds inc'
                  = Some (Z.max 0 (Z.quot (now - Store.start_time inc) 1000000)))
          /\ (Store.end_time inc = None ->
              cached_health w (Store.inc_network_id inc) = Some "offline"
              \/ cached_health w (Store.inc_network_id inc) = Some ""
              \/ cached_health w (Store.inc_network_id inc) = None ->
              incidents w' !! i = Some inc)
          /\ (Store.end_time inc <> None -> incidents w' !! i = Some inc))
    /\ (tx = Store.Fails -> db w' = db w).
Proof.
  intros tx now w w'. unfold w'.
  split; [apply close_orphaned_incidents_returns|].
  split; [apply close_orphaned_incidents_keys|].
  split; [|intros ->; apply close_orphaned_incidents_fails].
  intros -> i inc Hi.
  rewrite (close_orphaned_incidents_row now w i inc Hi).
  unfold Store.is_open. split; [|split].
  - intros Hopen health Hh Hne Hoff. rewrite Hopen. simpl.
    assert (Refresh.currently_online w (Store.inc_network_id inc) = true) as ->.
    { apply currently_online_iff. exists health. tauto. }
    exists (Store.close now inc). repeat split; reflexivity.
  - intros Hopen Hcached. rewrite Hopen. simpl.
    destruct (Refresh.currently_online w (Store.inc_network_id inc)) eqn:E;
      [|reflexivity].
    apply currently_online_iff in E as (health & Hh & Hne & Hoff).
    destruct Hcached as [H|[H|H]]; rewrite H in Hh; congruence.
  - intros Hclosed. destruct (Store.end_time inc); [reflexivity | congruence].
Qed.

(** C3 at work: the site's health is cached as healthy, and the incident left
    open at second 60 is closed at second 120 with a duration of 60. *)
Lemma startup_reconciliation_witness :
  exists inc',
    incidents
      (fst (Refresh.close_orphaned_incidents Store.Commits 120000000
              (Scenario.restarted_with "healthy"))) !! 0%nat = Some inc'
    /\ Store.inc_id inc' = 1
    /\ Store.inc_network_id inc' = "n1"
    /\ Store.start_time inc' = 60000000
    /\ Store.end_time inc' = Some 120000000
    /\ Store.duration_seconds inc' = Some 60.
Proof.
  exact (proj1
           (proj1 (proj2 (proj2 (startup_reconciliation Store.Commits 120000000
                                   (Scenario.restarted_with "healthy"))))
              eq_refl 0%nat
              (Store.mkIncident 1 "n1" 60000000 None None None) eq_refl)
           eq_refl "healthy" eq_refl
           ltac:(discriminate) ltac:(discriminate)).
Defined.

(** ** C4: refresh cycles exclude one another *)

(** C4: a call of [update_cache] that finds the refresh lock held returns at
    once: it sends no request to the vendor API, leaves the cache, the
    database, the snapshot file, the alert engine's map and the outbox as
    they were, leaves the lock held, and adds one line to the log.  Among
    threads that call [update_cache], however their steps interleave, at most
    one is inside a cycle at any time, and a thread that tries the lock while
    another is inside returns with that no-op.  The steps of a thread that
    runs uninterrupted add up to [update_cache], and a call leaves the lock
    as it found it: a cycle that took it releases it, however it ends. *)
Theorem refresh_cycles_exclusive :
  (forall (e : Refresh.cycle_env) (w : world),
      cache_lock w = true ->
      let w' := fst (Refresh.update_cache e w) in
      snd (Refresh.update_cache e w) = Ok tt
      /\ api_calls w' = api_calls w
      /\ cache w' = cache w
      /\ db w' = db w
      /\ disk w' = disk w
      /\ previous_health w' = previous_health w
      /\ outbox w' = outbox w
      /\ cache_lock w' = true
      /\ log w' = log w ++ [Refresh.skipped])
  /\ (forall (calls : list Refresh.cycle_env) (w0 : world)
        (ts : list Threads.thread) (w : world),
        Threads.reachable (map Threads.Calling calls, w0) (ts, w) ->
        (forall i j ti tj,
            ts !! i = Some ti -> ts !! j = Some tj ->
            Threads.in_cycle ti = true -> Threads.in_cycle tj = true -> i = j)
        /\ (forall i j e tj,
               ts !! i = Some (Threads.Calling e) -> ts !! j = Some tj ->
               Threads.in_cycle tj = true ->
               Threads.advance (Threads.Calling e) w = (Threads.Returned, skip w)))
  /\ (forall (e : Refresh.cycle_env) (w : world),
        exists fuel,
          Threads.alone fuel (Threads.Calling e) w
          = (Threads.Returned, fst (Refresh.update_cache e w)))
  /\ (forall (e : Refresh.cycle_env) (w : world),
        cache_lock (fst (Refresh.update_cache e w)) = cache_lock w).
Proof.
  split; [|split; [|split]].
  - intros e w Hlock w'. unfold w'. rewrite update_cache_skips by assumption.
    cbn [fst snd]. unfold skip. repeat split; assumption.
  - intros calls w0 ts w Hreach.
    pose proof (reachable_exclusive _ _ (callers_exclusive calls w0) Hreach)
      as [Hfree Hone].
    cbn [fst snd] in Hfree, Hone. split; [exact Hone|].
    intros i j e tj Hi Hj Hin. rewrite advance_caller.
    destruct (cache_lock w) eqn:L; [reflexivity|].
    rewrite (Hfree eq_refl j tj Hj) in Hin. discriminate.
  - apply alone_update_cache.
  - intros e w. apply update_cache_keeps_lock.
Qed.

(** C4 at work: a cycle is requested while the lock is held. *)
Lemma refresh_cycles_exclusive_witness :
  api_calls
    (fst (Refresh.update_cache (Scenario.cycle_at 60 "green" Store.Commits)
            (with_cache_lock true initial_world)))
  = [].
Proof.
  exact (proj1 (proj2 (proj1 refresh_cycles_exclusive
                         (Scenario.cycle_at 60 "green" Store.Commits)
                         (with_cache_lock true initial_world) eq_refl))).
Defined.


(** Two calls overlap: the second tries the lock while the first is inside
    its cycle.  Both return, the vendor API has seen the three requests of
    one cycle, and the lock is free again. *)
Example overlapping_calls_fetch_once :
  let c :=
    Threads.run [0; 0; 1; 0; 0]%nat
      (map Threads.Calling
         [Scenario.cycle_at 60 "green" Store.Commits;
          Scenario.cycle_at 61 "green" Store.Commits],
       initial_world) in
  fst c = [Threads.Returned; Threads.Returned]
  /\ api_calls (snd c)
     = [GetDevices "n1"; GetEeros "n1"; GetNetworkInfo "n1"]
  /\ cache_lock (snd c) = false
  /\ In Refresh.skipped (log (snd c)).
Proof.
  vm_compute. repeat split; try reflexivity. right. left. reflexivity.
Qed.

(** ** C5: the time series are bounded *)

(** C5: a series of 168 entries that gets one more keeps 168, loses exactly
    its oldest entry and keeps the others in order; the turn of a network in
    a cycle leaves each of its two series as the old one with the new sample
    appended and capped, so within 168 entries; a cycle keeps every series
    of the cache within 168 entries; and so no series of a process started on
    the default cache ever exceeds 168 entries after a cycle. *)
Theorem bounded_time_series :
  (forall (A : Type) (series : list A) (x : A),
      length series = 168%nat ->
      Cache.cap (series ++ [x]) = drop 1 series ++ [x]
      /\ length (Cache.cap (series ++ [x])) = 168%nat)
  /\ (forall (now : Z) (network : Refresh.network_config)
        (e : Refresh.network_env) (acc : Refresh.accumulators) (w : world)
        (nid : string) (d : Refresh.device) (devices : list Refresh.device),
        Refresh.usable_id network = Some nid ->
        Refresh.devices_response e = Ok (d :: devices) ->
        let w' := fst (Refresh.process_network now network e acc w) in
        let connected_devices := Refresh.connected_of e (d :: devices) in
        let sample :=
          Cache.mkConn now (Refresh.len connected_devices)
            (Some (Refresh.len
                     (filter (fun d => Refresh.wireless d = true)
                             connected_devices))) in
        Cache.connected_users (Refresh.entry nid w')
        = Cache.cap (Cache.connected_users (Refresh.entry nid w) ++ [sample])
        /\ Cache.signal_strength_avg (Refresh.entry nid w')
           = Cache.cap (Cache.signal_strength_avg (Refresh.entry nid w)
                          ++ signal_entry now
                               (Refresh.signal_values connected_devices))
        /\ (length (Cache.connected_users (Refresh.entry nid w')) <= 168)%nat
        /\ (length (Cache.signal_strength_avg (Refresh.entry nid w')) <= 168)%nat)
  /\ (forall (e : Refresh.cycle_env) (w : world),
        series_bounded w -> series_bounded (fst (Refresh.update_cache e w)))
  /\ (forall cycles : list Refresh.cycle_env,
        series_bounded (fst (Refresh.refresh_cycles cycles initial_world))).
Proof.
  split; [|split; [|split]].
  - intros A series x H. rewrite (cap_append_full series x H). split; [reflexivity|].
    rewrite length_app, length_drop, H. reflexivity.
  - intros now network e acc w nid d devices Hid Hdev w' connected_devices sample.
    unfold w'. rewrite (process_network_processed e now network acc w nid d
                          devices Hid Hdev).
    destruct (refresh_network_series e now nid network (d :: devices) acc
                (fst (Eff.request (GetDevices nid) w))) as [Hcu Hss].
    change (Refresh.entry nid (fst (Eff.request (GetDevices nid) w)))
      with (Refresh.entry nid w) in Hcu, Hss.
    fold connected_devices in Hcu, Hss. fold sample in Hcu.
    rewrite Hcu, Hss. repeat split; apply cap_length.
  - intros e w. apply update_cache_bounded.
  - intros cycles. apply refresh_cycles_bounded, initial_world_bounded.
Qed.

(** C5 at work: a week of hourly samples and one more. *)
Lemma bounded_time_series_witness :
  Cache.cap (seq 0 168 ++ [168%nat]) = drop 1 (seq 0 168) ++ [168%nat]
  /\ length (Cache.cap (seq 0 168 ++ [168%nat])) = 168%nat.
Proof.
  apply (proj1 bounded_time_series nat (seq 0 168) 168%nat). reflexivity.
Defined.

(** ** C6: health classification *)



Example health_of_ten :
  Metrics.calculate_health_status 10 5 = Ok "degraded"
  /\ Metrics.calculate_health_status 10 6 = Ok "healthy"
  /\ Metrics.calculate_health_status 10 0 = Ok "offline".
Proof. repeat split; reflexivity. Qed.

(** ** C7: alert persistence is best effort *)

(** C7: an insert that raises and a notification that raises are caught
    inside [check_health_transition] and [check_bandwidth_alert]: whatever
    the store and the mail do, each check returns, and what it returns is the
    alert the reading calls for.  A failed insert leaves the alert table as
    it was.  So a network's turn runs to its end once its device list is in,
    and [update_cache] returns. *)
Theorem alert_failures_are_contained :
  (forall (a : alert) (e : Alerts.env) (w : world),
      Alerts.insert_alert_tx e = Store.Fails ->
      snd (Alerts.insert_alert e a w) = Raise OperationalError)
  /\ (forall (a : alert) (w : world),
         snd (Alerts.notify_alert Alerts.NotifyRaises a w) = Raise SMTPException)
  /\ (forall (e : Alerts.env) (nid name status : string) (w : world),
         snd (Alerts.check_health_transition e nid name status w)
         = Ok (transition_alert (previous_health w !! nid) nid name status)
         /\ (Alerts.insert_alert_tx e = Store.Fails ->
             Store.alerts
               (db (fst (Alerts.check_health_transition e nid name status w)))
             = Store.alerts (db w)))
  /\ (forall (e : Alerts.env) (nid name : string) (utilization : Q) (w : world),
         snd (Alerts.check_bandwidth_alert e nid name utilization w)
         = Ok (if Qlt_le_dec 95 utilization
               then Some (Alerts.bandwidth_alert nid name utilization)
               else None))
  /\ (forall (now : Z) (network : Refresh.network_config)
         (e : Refresh.network_env) (acc : Refresh.accumulators)
         (devices : list Refresh.device) (w : world),
         Refresh.devices_response e = Ok devices ->
         exists acc', snd (Refresh.process_network now network e acc w) = Ok acc')
  /\ (forall (e : Refresh.cycle_env) (w : world),
         snd (Refresh.update_cache e w) = Ok tt).
Proof.
  split; [|split; [|split; [|split; [|split]]]].
  - intros a e w H. unfold Alerts.insert_alert, Eff.transaction,
      Store.insert_alert. rewrite H. reflexivity.
  - reflexivity.
  - intros e nid name status w. split.
    + apply check_health_transition_result.
    + intros H. rewrite check_health_transition_rows. unfold alert_rows.
      rewrite H. destruct (transition_alert _ _ _ _); apply app_nil_r.
  - intros e nid name utilization w. apply check_bandwidth_alert_result.
  - intros now network e acc devices w Hdev. unfold Refresh.process_network.
    destruct (Refresh.usable_id network) as [nid|]; [|eexists; reflexivity].
    rewrite (snd_bind_ok _ _ w tt) by reflexivity.
    unfold Eff.bind at 1, Eff.lift. cbn [fst snd]. rewrite Hdev.
    destruct devices as [|d devices]; [eexists; reflexivity|].
    apply refresh_network_returns.
  - intros e w. destruct (update_cache_returns e w) as ([] & H). exact H.
Qed.

(** C7 at work: the site goes offline while the database is down and the
    mail server raises; the cycle returns all the same. *)
Lemma alert_failures_witness :
  exists acc',
    snd (Refresh.process_network 120000000 Scenario.site Scenario.outage
           Refresh.no_accumulated initial_world) = Ok acc'.
Proof.
  exact (proj1 (proj2 (proj2 (proj2 (proj2 alert_failures_are_contained))))
           120000000 Scenario.site Scenario.outage Refresh.no_accumulated
           [Scenario.laptop] initial_world eq_refl).
Defined.

(** ** C8: bandwidth utilization *)

(** C8: for every usage and capacity, [calculate_bandwidth_utilization]
    returns; the value is 0 when capacity is at most 0, and otherwise
    usage/capacity*100 clamped into [0, 100]; it always lies in [0, 100];
    for usage 1000 and capacity 100 it is 100, and for capacity 0 it is 0
    whatever the usage. *)
Theorem calculate_bandwidth_utilization_clamps :
  (forall usage_mbps capacity_mbps : Q,
      exists utilization : Q,
        Metrics.calculate_bandwidth_utilization usage_mbps capacity_mbps
        = Ok utilization
        /\ (capacity_mbps <= 0 -> utilization == 0)%Q
        /\ (0 < capacity_mbps ->
            utilization
            == Metrics.clamp_0_100 (usage_mbps / capacity_mbps * 100))%Q
        /\ (0 <= utilization /\ utilization <= 100)%Q)
  /\ Metrics.calculate_bandwidth_utilization 1000 100 = Ok 100%Q
  /\ (forall x : Q, Metrics.calculate_bandwidth_utilization x 0 = Ok 0%Q).
Proof.
  split; [|split; [reflexivity | intros x; reflexivity]].
  intros usage capacity. unfold Metrics.calculate_bandwidth_utilization.
  destruct (Qle_bool capacity 0) eqn:E.
  - apply Qle_bool_iff in E. exists 0%Q.
    split; [reflexivity|]. split; [reflexivity|].
    split; [intros H; lra | lra].
  - assert (0 < capacity)%Q as Hpos.
    { apply Qnot_le_lt. intros H. apply Qle_bool_iff in H. congruence. }
    rewrite truediv_ok by (intros H; rewrite H in Hpos; lra). simpl.
    eexists. split; [reflexivity|].
    split; [intros H; lra|]. split; [intros _; apply max_min_is_clamp|].
    rewrite max_min_is_clamp. apply clamp_bounds.
Qed.

(** C8 at work: 30 Mbps on a 120 Mbps link. *)
Lemma calculate_bandwidth_utilization_witness :
  exists utilization : Q,
    Metrics.calculate_bandwidth_utilization 30 120 = Ok utilization
    /\ (utilization == 25)%Q.
Proof.
  destruct (proj1 calculate_bandwidth_utilization_clamps 30%Q 120%Q)
    as (utilization & Hr & _ & Hclamp & _).
  exists utilization. split; [exact Hr|].
  rewrite (Hclamp ltac:(reflexivity)). reflexivity.
Defined.

(** ** C9: the last-seen map is updated first *)

(** C9: after any call of [check_health_transition], whatever it returned
    and whether or not its insert or its mail failed, the last-seen map holds
    the new status for the network and is otherwise as before; so every
    further call with the same status, in any surroundings, returns no alert
    and leaves the store and the outbox alone, as does any run of such
    calls. *)
Theorem last_seen_status_is_recorded :
  forall (e : Alerts.env) (nid name status : string) (w : world),
    let w' := fst (Alerts.check_health_transition e nid name status w) in
    previous_health w' = <[nid := status]> (previous_health w)
    /\ previous_health w' !! nid = Some status
    /\ (forall (again : Alerts.env),
           let repeated := Alerts.check_health_transition again nid name status w' in
           snd repeated = Ok None
           /\ db (fst repeated) = db w'
           /\ outbox (fst repeated) = outbox w'
           /\ previous_health (fst repeated) !! nid = Some status)
    /\ (forall (surroundings : list Alerts.env),
           snd (Alerts.observe nid name
                  (map (fun again => (again, status)) surroundings) w')
           = Ok (replicate (length surroundings) None)).
Proof.
  intros e nid name status w w'.
  assert (previous_health w' !! nid = Some status) as Hw'
    by (unfold w'; apply previous_health_after).
  split; [apply check_health_transition_records|].
  split; [exact Hw'|]. split.
  - intros again repeated. unfold repeated.
    pose proof (transition_alert_same nid name status) as Hnone.
    rewrite check_health_transition_result, Hw', Hnone.
    split; [reflexivity|].
    destruct (check_health_transition_silent nid name again status w')
      as [Hdb Hout]; [rewrite Hw'; exact Hnone|].
    split; [exact Hdb|]. split; [exact Hout|]. apply previous_health_after.
  - intros surroundings. apply observe_unchanged, Hw'.
Qed.

(** An offline alert whose insert failed is not emitted again while the
    network stays offline. *)
Example failed_alert_is_not_retried :
  let w := fst (Alerts.observe "n1" "Site"
                  [(Scenario.quiet, "healthy"); (Scenario.unreachable, "offline")]
                  initial_world) in
  Store.alerts (db w) = []
  /\ snd (Alerts.check_health_transition Scenario.quiet "n1" "Site" "offline" w)
     = Ok None.
Proof. split; vm_compute; reflexivity. Qed.

(** ** C10: the health score with no nodes *)


Example score_with_no_nodes :
  Metrics.compute_health_score 0 0 (-60) 50 50 = Ok 38
  /\ Metrics.compute_health_score 7 0 (-60) 50 50 = Ok 38.
Proof. split; vm_compute; reflexivity. Qed.

Example score_extremes :
  Metrics.compute_health_score 10 10 (-30) 100 0 = Ok 100
  /\ Metrics.compute_health_score 0 10 (-90) 0 100 = Ok 0
  /\ Metrics.compute_health_score 5 10 (-60) 50 50 = Ok 50
  /\ Metrics.compute_health_score 10 10 (-100) 100 0 = Ok 75.
Proof. repeat split; vm_compute; reflexivity. Qed.

(** * Further properties of the code *)

(** ** Gauges, grades and chart helpers *)

Section computations.
Import Computations.

Lemma first_met_in (value : Q) (thresholds : list (Q * string)) (c : string) :
  first_met value thresholds = Some c -> c ∈ thresholds.*2.
Proof.
  induction thresholds as [|[t c'] rest IH]; cbn; [discriminate|].
  destruct (Qle_bool t value).
  - intros [= ->]. left.
  - intros H. right. auto.
Qed.

Lemma first_met_none (value : Q) (thresholds : list (Q * string)) :
  first_met value thresholds = None <->
  Forall (fun p => (value < p.1)%Q) thresholds.
Proof.
  induction thresholds as [|[t c'] rest IH]; cbn.
  - split; auto.
  - destruct (Qle_bool t value) eqn:E.
    + split; [discriminate|]. intros H. inversion H as [|? ? Hlt _]; subst.
      cbn in Hlt. apply Qle_bool_iff in E. lra.
    + rewrite IH. split.
      * intros H. constructor; [|done]. cbn.
        destruct (Qlt_le_dec value t) as [|Hle]; [done|].
        apply Qle_bool_iff in Hle. congruence.
      * intros H. by inversion H.
Qed.

Lemma all_equal_set (l : list string) :
  size (list_to_set l : gset string) = 1%nat <->
  l <> [] /\ forall x y, x ∈ l -> y ∈ l -> x = y.
Proof.
  split.
  - intros H. apply size_1_elem_of in H as [x Hx]. split.
    + intros ->. cbn in Hx. set_solver.
    + intros a b Ha Hb.
      assert (a ∈ (list_to_set l : gset string)) as Ha'
        by by apply elem_of_list_to_set.
      assert (b ∈ (list_to_set l : gset string)) as Hb'
        by by apply elem_of_list_to_set.
      rewrite Hx in Ha', Hb'. set_solver.
  - intros [Hne Heq]. destruct l as [|x l]; [done|].
    assert ((list_to_set (x :: l) : gset string) = {[x]}) as ->.
    { apply set_eq. intros y. rewrite elem_of_list_to_set, elem_of_singleton.
      split.
      - intros Hy. apply Heq; [done|left].
      - intros ->. left. }
    apply size_singleton.
Qed.

End computations.

Section computations_theorems.
Import Computations.

(** X1 ([get_gauge_color]): the function raises [IndexError] exactly when
    the threshold list is empty; on any other list it returns one of the
    colours of the list, and the last colour when the value is below every
    threshold. *)
Theorem get_gauge_color_total (value : Q) (thresholds : list (Q * string)) :
  (get_gauge_color value thresholds = None <-> thresholds = []) /\
  (forall c, get_gauge_color value thresholds = Some c -> c ∈ thresholds.*2) /\
  (Forall (fun p => (value < p.1)%Q) thresholds ->
   get_gauge_color value thresholds = snd <$> last thresholds).
Proof.
  unfold get_gauge_color. split; [|split].
  - destruct (first_met value thresholds) eqn:E.
    + split; [discriminate|]. intros ->. discriminate.
    + rewrite fmap_None, last_None. done.
  - intros c. destruct (first_met value thresholds) eqn:E.
    + intros [= ->]. by eapply first_met_in.
    + intros H. apply fmap_Some in H as [[t c'] [Hl ->]].
      apply list_elem_of_fmap. exists (t, c'). split; [done|].
      apply last_Some in Hl as [l' ->]. set_solver.
  - intros H. apply first_met_none in H. by rewrite H.
Qed.

(** X2 ([get_health_gauge_color]): the health gauge never raises; it is
    green from 80 up, yellow from 50 to below 80 and red below 50, negative
    scores included. *)
Theorem get_health_gauge_color_bands (score : Q) :
  ((80 <= score)%Q -> get_health_gauge_color score = Some "#4CAF50") /\
  ((50 <= score)%Q /\ (score < 80)%Q ->
   get_health_gauge_color score = Some "#FFC107") /\
  ((score < 50)%Q -> get_health_gauge_color score = Some "#F44336").
Proof.
  unfold get_health_gauge_color, get_gauge_color. cbn.
  destruct (Qle_bool 80 score) eqn:E80;
    [apply Qle_bool_iff in E80|apply not_true_iff_false in E80;
                               rewrite Qle_bool_iff in E80];
  (destruct (Qle_bool 50 score) eqn:E50;
    [apply Qle_bool_iff in E50|apply not_true_iff_false in E50;
                               rewrite Qle_bool_iff in E50]);
  (destruct (Qle_bool 0 score) eqn:E0;
    [apply Qle_bool_iff in E0|apply not_true_iff_false in E0;
                              rewrite Qle_bool_iff in E0]);
  cbn; repeat split; intros; try done; exfalso; lra.
Qed.



End computations_theorems.

Section computations_grades.
Import Computations.

Ltac grade_cases :=
  repeat match goal with
  | |- context [Qle_bool ?a ?b] =>
    let E := fresh "E" in
    destruct (Qle_bool a b) eqn:E;
    [apply Qle_bool_iff in E
    |apply not_true_iff_false in E; rewrite Qle_bool_iff in E]
  end.

(** X4 ([score_to_grade]): grades are monotone: a higher score never gets a
    letter that comes later in the alphabet. *)
Theorem score_to_grade_monotone (score score' : Q) :
  (score <= score')%Q ->
  String.leb (score_to_grade score') (score_to_grade score) = true.
Proof.
  intros H. unfold score_to_grade. grade_cases; try reflexivity;
    exfalso; lra.
Qed.

Lemma score_to_grade_monotone_witness :
  String.leb (score_to_grade 95) (score_to_grade (899 # 10)) = true.
Proof.
  apply (score_to_grade_monotone (899 # 10) 95). lra.
Defined.


(** X6 ([filter_nonzero_segments]): the result holds exactly the entries
    with a count above zero, each with its count; filtering again changes
    nothing, and a dictionary of positive counts comes back whole. *)
Theorem filter_nonzero_segments_keeps_positive (d : gmap string Z) :
  (forall k v, filter_nonzero_segments d !! k = Some v <->
               d !! k = Some v /\ 0 < v) /\
  filter_nonzero_segments (filter_nonzero_segments d)
    = filter_nonzero_segments d /\
  (map_Forall (fun _ v => 0 < v) d -> filter_nonzero_segments d = d).
Proof.
  unfold filter_nonzero_segments. split; [|split].
  - intros k v. apply map_lookup_filter_Some.
  - apply map_eq. intros k. apply option_eq. intros v.
    rewrite !map_lookup_filter_Some. cbn. tauto.
  - intros H. apply map_eq. intros k. apply option_eq. intros v.
    rewrite map_lookup_filter_Some. cbn. split; [tauto|].
    intros Hk. split; [done|]. by apply (H k v).
Qed.

(** X7 ([get_signal_bar_data]): for every mesh quality there are between
    one and five filled bars, filled and unfilled bars add up to five, a
    quality within 1..5 is shown as it is, and the colour is green from 4
    up, red up to 1 and yellow in between. *)
Theorem get_signal_bar_data_bars (mesh_quality : Z) :
  let bar := get_signal_bar_data mesh_quality in
  1 <= filled bar <= 5 /\
  filled bar + unfilled bar = 5 /\
  (1 <= mesh_quality <= 5 -> filled bar = mesh_quality) /\
  (color bar = "#4CAF50" <-> 4 <= mesh_quality) /\
  (color bar = "#FFC107" <-> 2 <= mesh_quality <= 3) /\
  (color bar = "#F44336" <-> mesh_quality <= 1).
Proof.
  unfold get_signal_bar_data. cbn.
  destruct (Z.leb_spec 4 (Z.max 1 (Z.min 5 mesh_quality)));
    [|destruct (Z.leb_spec 2 (Z.max 1 (Z.min 5 mesh_quality)))];
    repeat split; intros; try done; try lia.
Qed.

(** X8 ([check_firmware_consistency]): the check answers [True] exactly
    when any two versions of the list are the same, the empty list and the
    one-element list included. *)
Theorem check_firmware_consistency_iff (version_list : list string) :
  check_firmware_consistency version_list = true <->
  forall x y, x ∈ version_list -> y ∈ version_list -> x = y.
Proof.
  unfold check_firmware_consistency.
  destruct (Nat.leb_spec (length version_list) 1) as [Hle|Hgt].
  - split; [|done]. intros _ x y Hx Hy.
    destruct version_list as [|a [|b l]]; cbn in Hle; [|
      |lia].
    + by apply elem_of_nil in Hx.
    + apply list_elem_of_singleton in Hx, Hy. congruence.
  - rewrite bool_decide_eq_true, all_equal_set. split; [tauto|].
    intros H. split; [|done]. intros ->. cbn in Hgt. lia.
Qed.

End computations_grades.

(** ** Device helpers *)

Section strings_facts.
Import Devices.

Lemma append_assoc (a b c : string) : (a +:+ b) +:+ c = a +:+ (b +:+ c).
Proof.
  induction a as [|x a IH]; [done|].
  change (String x ((a +:+ b) +:+ c) = String x (a +:+ (b +:+ c))).
  by rewrite IH.
Qed.

Lemma prefix_iff (k text : string) :
  String.prefix k text = true <-> exists s, text = k +:+ s.
Proof.
  revert text. induction k as [|x k IH]; intros text.
  - split; [intros _; by exists text|]. intros _. by destruct text.
  - destruct text as [|y text].
    + split; [done|]. intros [s Hs]. discriminate.
    + change (String.prefix (String x k) (String y text))
        with (if Ascii.ascii_dec x y then String.prefix k text else false).
      destruct (Ascii.ascii_dec x y) as [->|Hne].
      * rewrite IH. split; intros [s Hs]; exists s.
        -- change (String y text = String y (k +:+ s)). congruence.
        -- change (String y text = String y (k +:+ s)) in Hs. congruence.
      * split; [done|]. intros [s Hs].
        change (String y text = String x (k +:+ s)) in Hs. congruence.
Qed.

(** [k in text]: [text] is [k] with something before and something after. *)
Lemma contains_iff (k text : string) :
  contains k text = true <-> exists p s, text = p +:+ k +:+ s.
Proof.
  induction text as [|y text IH]; cbn [contains].
  - rewrite orb_false_r, prefix_iff. split.
    + intros [s Hs]. by exists EmptyString, s.
    + intros (p & s & Hs). destruct p; [by exists s|discriminate].
  - rewrite orb_true_iff, prefix_iff, IH. split.
    + intros [[s Hs]|(p & s & Hs)].
      * by exists EmptyString, s.
      * exists (String y p), s. by rewrite Hs.
    + intros (p & s & Hs). destruct p as [|x p].
      * left. by exists s.
      * right. exists p, s.
        change (String y text = String x (p +:+ k +:+ s)) in Hs. congruence.
Qed.

Lemma contains_trans (a b c : string) :
  contains a b = true -> contains b c = true -> contains a c = true.
Proof.
  rewrite !contains_iff. intros (p & s & ->) (p' & s' & ->).
  exists (p' +:+ p), (s +:+ s'). by rewrite !append_assoc.
Qed.

Lemma ascii_lower_idemp (c : Ascii.ascii) :
  Refresh.ascii_lower (Refresh.ascii_lower c) = Refresh.ascii_lower c.
Proof. by destruct c as [[] [] [] [] [] [] [] []]. Qed.

Lemma lower_idemp (s : string) : Refresh.lower (Refresh.lower s) = Refresh.lower s.
Proof.
  induction s as [|c s IH]; cbn [Refresh.lower]; [done|].
  by rewrite ascii_lower_idemp, IH.
Qed.

Lemma any_in_true (keywords : list string) (k text : string) :
  k ∈ keywords -> contains k text = true -> any_in keywords text = true.
Proof.
  intros Hk Hc. apply existsb_exists. exists k. split; [|done].
  by apply list_elem_of_In.
Qed.

End strings_facts.

Section signal_facts.
Import Devices.

Lemma py_int_floor (x : Q) : (0 <= x)%Q -> py_int x = Qfloor x.
Proof.
  intros H. unfold py_int. destruct x as [n d]. cbn.
  apply Z.quot_div_nonneg; [|done].
  unfold Qle in H. cbn in H. lia.
Qed.

Lemma floor_between (a b : Z) (x : Q) :
  (inject_Z a <= x)%Q -> (x < inject_Z b)%Q -> a <= Qfloor x < b.
Proof.
  intros Ha Hb. split.
  - rewrite <- (Qfloor_Z a). by apply Qfloor_resp_le.
  - rewrite Zlt_Qlt. eapply Qle_lt_trans; [apply Qfloor_le|done].
Qed.

(** The percentage of a reading strictly between -100 and -50 dBm. *)
Lemma percent_between (a b : Z) (dbm : Q) :
  (-100 < dbm)%Q ->
  (inject_Z a <= 2 * (dbm + 100))%Q -> (2 * (dbm + 100) < inject_Z b)%Q ->
  a <= py_int (2 * (dbm + 100)) < b.
Proof.
  intros H Ha Hb. rewrite py_int_floor by lra. by apply floor_between.
Qed.

End signal_facts.

Section timerange_facts.

Context {A : Type} (timestamp : A -> Z).

Lemma filter_all (P : A -> Prop) `{!forall x, Decision (P x)} (l : list A) :
  Forall P l -> filter P l = l.
Proof.
  induction 1 as [|x l Hx _ IH]; [done|].
  by rewrite filter_cons_True, IH.
Qed.

(** The entries at or after a cutoff are the tail of a time-ordered series. *)
Lemma filter_sorted_suffix (cutoff : Z) (data : list A) :
  StronglySorted (fun a b => timestamp a <= timestamp b) data ->
  filter (fun entry => cutoff <= timestamp entry) data `suffix_of` data.
Proof.
  induction 1 as [|x l Hs IH Hx]; [done|].
  destruct (decide (cutoff <= timestamp x)) as [Hc|Hc].
  - rewrite filter_all; [done|]. constructor; [done|].
    eapply Forall_impl; [exact Hx|]. cbn. intros; lia.
  - rewrite filter_cons_False by done. by apply suffix_cons_r.
Qed.

End timerange_facts.

Section device_theorems.
Import Devices.

(** X9 ([detect_device_os]): whatever the manufacturer and the hostname,
    the result is one of the seven keys of the counters that [update_cache]
    indexes with it, and it does not depend on the case of the letters. *)
Theorem detect_device_os_is_counted (manufacturer hostname : string) :
  detect_device_os manufacturer hostname ∈ os_count_keys /\
  detect_device_os (Refresh.lower manufacturer) (Refresh.lower hostname)
    = detect_device_os manufacturer hostname.
Proof.
  split.
  - unfold detect_device_os, os_count_keys.
    repeat match goal with
           | |- context [any_in ?l ?t] => destruct (any_in l t)
           end; set_solver.
  - unfold detect_device_os. by rewrite !lower_idemp.
Qed.

(** X10 ([detect_device_os]): the manufacturer test for Android comes
    first and matches [sony], so a device of Sony Computer Entertainment is
    never counted as Gaming; the text test for iOS comes first and matches
    [apple], so a device named Apple TV is never counted as Streaming. *)
Theorem detect_device_os_shadowed (manufacturer hostname : string) :
  (contains "sony computer entertainment" (Refresh.lower manufacturer) = true ->
   detect_device_os manufacturer hostname ∈ ["Amazon"; "iOS"; "Android"]) /\
  (contains "apple tv"
     (Refresh.lower manufacturer +:+ " " +:+ Refresh.lower hostname) = true ->
   detect_device_os manufacturer hostname ∈ ["Amazon"; "iOS"]).
Proof.
  split; intros H; unfold detect_device_os.
  - assert (any_in ["samsung"; "google"; "lg electronics"; "htc"; "sony";
                    "motorola"; "huawei"; "xiaomi"; "oneplus"]
              (Refresh.lower manufacturer) = true) as ->.
    { apply (any_in_true _ "sony"); [set_solver|].
      by apply (contains_trans _ "sony computer entertainment"). }
    repeat match goal with
           | |- context [any_in ?l ?t] => destruct (any_in l t)
           end; set_solver.
  - assert (any_in ["iphone"; "ipad"; "mac"; "ios"; "apple"]
              (Refresh.lower manufacturer +:+ " " +:+ Refresh.lower hostname)
            = true) as ->.
    { apply (any_in_true _ "apple"); [set_solver|].
      by apply (contains_trans _ "apple tv"). }
    repeat match goal with
           | |- context [any_in ?l ?t] => destruct (any_in l t)
           end; set_solver.
Qed.

Ltac signal_cases :=
  repeat match goal with
  | |- context [Qle_bool ?a ?b] =>
    let E := fresh "E" in
    destruct (Qle_bool a b) eqn:E;
    [apply Qle_bool_iff in E
    |apply not_true_iff_false in E; rewrite Qle_bool_iff in E]
  end.

(** X11 ([convert_signal_dbm_to_percent]): the percentage is always within
    0..100; on text readings it never decreases when the signal gets
    stronger; a number reads 100 from -50 dBm up, except the number 0, which
    the guard takes for a missing reading. *)
Theorem convert_signal_dbm_to_percent_range :
  (forall r, 0 <= convert_signal_dbm_to_percent r <= 100) /\
  (forall a b, (a <= b)%Q ->
     convert_signal_dbm_to_percent (Text a)
     <= convert_signal_dbm_to_percent (Text b)) /\
  (forall dbm, convert_signal_dbm_to_percent (Number dbm) = 100
               <-> (-50 <= dbm)%Q /\ ~ (dbm == 0)%Q).
Proof.
  assert (forall dbm, (-100 < dbm)%Q -> (dbm < -50)%Q ->
            0 <= py_int (2 * (dbm + 100)) < 100) as Hmid.
  { intros dbm H1 H2. apply percent_between; [done| |];
      change (inject_Z 0) with 0%Q; change (inject_Z 100) with 100%Q; lra. }
  split; [|split].
  - intros r. unfold convert_signal_dbm_to_percent.
    destruct (parsed r) as [dbm|]; [|lia].
    signal_cases; try lia.
    assert (0 <= py_int (2 * (dbm + 100)) < 100) by (apply Hmid; lra). lia.
  - intros a b Hab. unfold convert_signal_dbm_to_percent. cbn [parsed].
    signal_cases;
      first
        [ lia
        | exfalso; lra
        | rewrite !py_int_floor by lra; apply Qfloor_resp_le; lra
        | assert (0 <= py_int (2 * (a + 100)) < 100) by (apply Hmid; lra); lia
        | assert (0 <= py_int (2 * (b + 100)) < 100) by (apply Hmid; lra); lia ].
  - intros dbm. unfold convert_signal_dbm_to_percent. cbn [parsed].
    destruct (Qeq_bool dbm 0) eqn:E0.
    + apply Qeq_bool_iff in E0. split; [done|]. tauto.
    + assert (~ (dbm == 0)%Q) as Hne.
      { intros Hz. apply Qeq_bool_iff in Hz. congruence. }
      signal_cases.
      * tauto.
      * split; [done|]. intros [? _]. lra.
      * assert (0 <= py_int (2 * (dbm + 100)) < 100) by (apply Hmid; lra).
        split; [lia|]. intros [? _]. lra.
Qed.

(** X12 ([get_signal_quality], [convert_signal_dbm_to_percent]): the
    quality label and the percentage of one reading agree: Excellent is
    exactly 100 percent, Very Good lies in 80..99, Good in 60..79, Fair in
    40..59, Poor in 0..39, and a reading of unknown quality shows 0. *)
Theorem signal_quality_matches_percent (r : reading) :
  let percent := convert_signal_dbm_to_percent r in
  let quality := get_signal_quality r in
  (quality = "Excellent" <-> percent = 100) /\
  (quality = "Very Good" -> 80 <= percent <= 99) /\
  (quality = "Good" -> 60 <= percent <= 79) /\
  (quality = "Fair" -> 40 <= percent <= 59) /\
  (quality = "Poor" -> 0 <= percent <= 39) /\
  (quality = "Unknown" -> percent = 0).
Proof.
  unfold convert_signal_dbm_to_percent, get_signal_quality.
  destruct (parsed r) as [dbm|]; cbn zeta; [|by repeat split].
  signal_cases; try (exfalso; lra);
    try first
      [ assert (80 <= py_int (2 * (dbm + 100)) < 100)
          by (apply percent_between; [lra | unfold inject_Z; lra ..])
      | assert (60 <= py_int (2 * (dbm + 100)) < 80)
          by (apply percent_between; [lra | unfold inject_Z; lra ..])
      | assert (40 <= py_int (2 * (dbm + 100)) < 60)
          by (apply percent_between; [lra | unfold inject_Z; lra ..])
      | assert (0 <= py_int (2 * (dbm + 100)) < 40)
          by (apply percent_between; [lra | unfold inject_Z; lra ..]) ];
    repeat split; intros; try done; try lia; exfalso; lia.
Qed.

End device_theorems.

Section timerange_theorems.
Import Devices.

(** X13 ([filter_data_by_timerange]): on a time-ordered series and a window
    of [hours >= 0] whose cutoff is a datetime, the function returns the
    tail of the series: all of it for [hours = 0], else exactly the entries
    stamped at or after the cutoff, in their order. *)
Theorem filter_data_by_timerange_tail {A : Type} (timestamp : A -> Z)
    (earliest latest now : Z) (data : list A) (hours : Z) :
  StronglySorted (fun a b => timestamp a <= timestamp b) data ->
  0 <= hours ->
  earliest <= now - hours * 3600000000 -> now <= latest ->
  latest - earliest <= 999999999 * 86400000000 ->
  exists l,
    filter_data_by_timerange timestamp earliest latest now data hours = Some l
    /\ l `suffix_of` data
    /\ (hours = 0 -> l = data)
    /\ (hours <> 0 ->
        forall x, x ∈ l <->
                  x ∈ data /\ now - hours * 3600000000 <= timestamp x).
Proof.
  intros Hs Hh He Hl Hr. unfold filter_data_by_timerange.
  destruct data as [|x data].
  { exists []. do 3 (split; [done|]). intros _ y.
    split; [by intros ?%elem_of_nil | by intros [?%elem_of_nil _]]. }
  destruct (decide (hours = 0)) as [Hz|Hne].
  { subst hours. exists (x :: data). by repeat split. }
  rewrite (proj2 (Z.eqb_neq hours 0) Hne).
  assert ((999999999 <? Z.abs (hours / 24)) = false) as ->.
  { apply Z.ltb_ge. rewrite Z.abs_eq by (apply Z.div_pos; lia).
    apply Z.div_le_upper_bound; lia. }
  assert (((now - hours * 3600000000 <? earliest)
           || (latest <? now - hours * 3600000000)) = false) as ->.
  { apply orb_false_iff. split; apply Z.ltb_ge; lia. }
  eexists. split; [done|]. split; [by apply filter_sorted_suffix|].
  split; [done|]. intros _ y. rewrite list_elem_of_filter. tauto.
Qed.

Lemma filter_data_by_timerange_tail_witness :
  exists l,
    filter_data_by_timerange (fun t : Z => t) 0 315537897599999999
      7200000000 [1; 3600000001; 7200000000] 1 = Some l
    /\ l `suffix_of` [1; 3600000001; 7200000000]
    /\ (1 = 0 -> l = [1; 3600000001; 7200000000])
    /\ (1 <> 0 ->
        forall x, x ∈ l <->
                  x ∈ [1; 3600000001; 7200000000]
                  /\ 7200000000 - 1 * 3600000000 <= x).
Proof.
  apply (filter_data_by_timerange_tail (fun t : Z => t) 0 315537897599999999
           7200000000 [1; 3600000001; 7200000000] 1); try lia.
  repeat (constructor; [|repeat (constructor; try lia)]). constructor.
Defined.

End timerange_theorems.

(** ** Alert queries *)

Section query_facts.
Import Queries.

Lemma with_db_same (w : world) : with_db (db w) w = w.
Proof. by destruct w. Qed.

#[local] Instance newer_first_trans : Transitive newer_first.
Proof. intros a b c. unfold newer_first. lia. Qed.

#[local] Instance newer_first_total : Total newer_first.
Proof. intros a b. unfold newer_first. lia. Qed.

Lemma get_alerts_commits (network_id : option string)
    (acknowledged : option bool) (d : Store.database) :
  exists rows,
    get_alerts Store.Commits network_id acknowledged d = Ok (d, rows)
    /\ rows ≡ₚ selected network_id acknowledged d
    /\ StronglySorted newer_first rows.
Proof.
  unfold get_alerts. eexists. split; [done|]. split.
  - rewrite merge_sort_Permutation. unfold selected.
    destruct network_id as [nid|], acknowledged as [b|].
    + rewrite list_filter_filter. apply reflexive_eq, list_filter_iff.
      intros a. intuition congruence.
    + apply reflexive_eq, list_filter_iff. intros a. intuition congruence.
    + apply reflexive_eq, list_filter_iff. intros a. intuition congruence.
    + symmetry. apply reflexive_eq, filter_all, Forall_forall.
      intros a _. intuition congruence.
  - apply (StronglySorted_merge_sort _).
Qed.

Lemma session_get_alerts (network_id : option string)
    (acknowledged : option bool) (w : world) :
  exists rows,
    session (get_alerts Store.Commits network_id acknowledged) w
    = (w, Ok rows)
    /\ rows ≡ₚ selected network_id acknowledged (db w)
    /\ StronglySorted newer_first rows.
Proof.
  destruct (get_alerts_commits network_id acknowledged (db w))
    as (rows & Hq & Hp & Hs).
  exists rows. split; [|done]. unfold session. rewrite Hq.
  by rewrite with_db_same.
Qed.

Lemma next_id_fresh {A : Type} (key : A -> Z) (rows : list A) (r : A) :
  r ∈ rows -> key r < Store.next_id key rows.
Proof.
  unfold Store.next_id. induction 1 as [r rows|r x rows _ IH]; cbn; lia.
Qed.

Lemma acknowledge_first_unknown (now alert_id : Z) (rows : list Store.Alert) :
  (forall a, a ∈ rows -> Store.alert_id a <> alert_id) ->
  acknowledge_first now alert_id rows = None.
Proof.
  induction rows as [|a rows IH]; intros H; [done|]. cbn.
  destruct (Z.eqb_spec (Store.alert_id a) alert_id) as [Heq|_].
  - exfalso. apply (H a); [left|done].
  - rewrite IH; [done|]. intros b Hb. apply H. by right.
Qed.

(** With keys that are unique, acknowledging rewrites the row of the key
    where it stands. *)
Lemma acknowledge_first_known (now alert_id : Z) (rows : list Store.Alert)
    (a : Store.Alert) :
  NoDup (Store.alert_id <$> rows) -> a ∈ rows -> Store.alert_id a = alert_id ->
  exists before after,
    rows = before ++ a :: after
    /\ acknowledge_first now alert_id rows
       = Some (before ++ acknowledged_row now a :: after).
Proof.
  induction rows as [|b rows IH]; intros Hnd Ha Hid.
  { by apply elem_of_nil in Ha. }
  rewrite fmap_cons, NoDup_cons in Hnd. destruct Hnd as [Hb Hnd]. cbn.
  destruct (Z.eqb_spec (Store.alert_id b) alert_id) as [Heq|Hne].
  - apply elem_of_cons in Ha as [->|Ha].
    + by exists [], rows.
    + exfalso. apply Hb. rewrite Heq, <- Hid. by apply list_elem_of_fmap_2.
  - apply elem_of_cons in Ha as [->|Ha]; [done|].
    destruct (IH Hnd Ha Hid) as (before & after & -> & ->).
    by exists (b :: before), after.
Qed.

End query_facts.

Section query_runs.
Import Queries.

Lemma get_unacknowledged_count_commits (w : world) :
  get_unacknowledged_count Store.Commits w
  = (w, Ok (Refresh.len (selected None (Some false) (db w)))).
Proof.
  destruct (session_get_alerts None (Some false) w) as (rows & Hs & Hp & _).
  unfold get_unacknowledged_count, Eff.try_except, Eff.bind. rewrite Hs.
  cbn. unfold Refresh.len. by rewrite Hp.
Qed.

Lemma get_recent_alerts_commits (limit : Z) (network_id : option string)
    (w : world) :
  exists rows,
    get_recent_alerts Store.Commits limit network_id w
    = (w, Ok (slice_to limit rows))
    /\ rows ≡ₚ selected network_id None (db w)
    /\ StronglySorted newer_first rows.
Proof.
  destruct (session_get_alerts network_id None w) as (rows & Hs & Hp & Hso).
  exists rows. split; [|done].
  unfold get_recent_alerts, Eff.try_except, Eff.bind. by rewrite Hs.
Qed.

Lemma ack_alert_fails (now alert_id : Z) (w : world) :
  snd (ack_alert Store.Fails now alert_id w) = Ok false
  /\ db (fst (ack_alert Store.Fails now alert_id w)) = db w.
Proof. done. Qed.

Lemma ack_alert_unknown (now alert_id : Z) (w : world) :
  (forall a, a ∈ Store.alerts (db w) -> Store.alert_id a <> alert_id) ->
  snd (ack_alert Store.Commits now alert_id w) = Ok false
  /\ db (fst (ack_alert Store.Commits now alert_id w)) = db w.
Proof.
  intros H. unfold ack_alert, Eff.try_except, session, acknowledge_alert.
  rewrite (acknowledge_first_unknown _ _ _ H). cbn. by destruct w.
Qed.

Lemma ack_alert_known (now : Z) (a : Store.Alert) (w : world) :
  NoDup (Store.alert_id <$> Store.alerts (db w)) ->
  a ∈ Store.alerts (db w) ->
  exists before after,
    Store.alerts (db w) = before ++ a :: after
    /\ ack_alert Store.Commits now (Store.alert_id a) w
       = (with_db (Store.mkDatabase (Store.metrics (db w))
                     (Store.uptime_incidents (db w))
                     (before ++ acknowledged_row now a :: after)) w,
          Ok true).
Proof.
  intros Hnd Ha.
  destruct (acknowledge_first_known now (Store.alert_id a) _ a Hnd Ha eq_refl)
    as (before & after & Hrows & Hack).
  exists before, after. split; [done|].
  unfold ack_alert, Eff.try_except, session, acknowledge_alert.
  by rewrite Hack.
Qed.

Lemma selected_unacknowledged_app (d : Store.database) (l1 l2 : list Store.Alert) :
  Store.alerts d = l1 ++ l2 ->
  selected None (Some false) d
  = filter (fun a => Store.acknowledged a = false) l1
    ++ filter (fun a => Store.acknowledged a = false) l2.
Proof.
  intros H. unfold selected. rewrite H, filter_app.
  f_equal; apply list_filter_iff; intros a; intuition congruence.
Qed.





End query_runs.

Section query_theorems.
Import Queries.

(** X14 ([acknowledge_alert], [ack_alert], [get_unacknowledged_count]):
    with unique keys, acknowledging an alert on record answers [True],
    rewrites that row alone where it stands, as acknowledged at the clock
    of the call, leaves the other tables alone, and lowers the count of
    unacknowledged alerts by one unless the alert was acknowledged
    before. *)
Theorem ack_alert_acknowledges (now : Z) (a : Store.Alert) (w : world) :
  NoDup (Store.alert_id <$> Store.alerts (db w)) ->
  a ∈ Store.alerts (db w) ->
  let w' := fst (ack_alert Store.Commits now (Store.alert_id a) w) in
  snd (ack_alert Store.Commits now (Store.alert_id a) w) = Ok true
  /\ (exists before after,
        Store.alerts (db w) = before ++ a :: after
        /\ Store.alerts (db w') = before ++ acknowledged_row now a :: after)
  /\ Store.metrics (db w') = Store.metrics (db w)
  /\ Store.uptime_incidents (db w') = Store.uptime_incidents (db w)
  /\ (exists n,
        snd (get_unacknowledged_count Store.Commits w) = Ok n
        /\ snd (get_unacknowledged_count Store.Commits w')
           = Ok (n - if Store.acknowledged a then 0 else 1)).
Proof.
  intros Hnd Ha.
  destruct (ack_alert_known now a w Hnd Ha) as (before & after & Hrows & Hack).
  cbn zeta. rewrite Hack. cbn [fst snd].
  split; [done|]. split; [by exists before, after|].
  split; [done|]. split; [done|].
  eexists. rewrite !get_unacknowledged_count_commits. cbn [snd].
  split; [done|]. f_equal.
  rewrite (selected_unacknowledged_app (db w) before (a :: after)) by done.
  rewrite (selected_unacknowledged_app _ before
             (acknowledged_row now a :: after)) by done.
  unfold Refresh.len. rewrite !length_app.
  rewrite (filter_cons_False _ (acknowledged_row now a)) by done.
  destruct (Store.acknowledged a) eqn:E.
  - rewrite filter_cons_False by (rewrite E; done). lia.
  - rewrite filter_cons_True by done. cbn [length]. lia.
Qed.

Lemma ack_alert_acknowledges_witness :
  let w := with_db (Store.mkDatabase [] []
                      [Store.mkAlert 1 "n1" "offline" "critical" "down" 10
                         false None;
                       Store.mkAlert 2 "n2" "bandwidth" "critical" "busy" 20
                         false None]) initial_world in
  snd (ack_alert Store.Commits 30 2 w) = Ok true
  /\ snd (get_unacknowledged_count Store.Commits w) = Ok 2
  /\ snd (get_unacknowledged_count Store.Commits
            (fst (ack_alert Store.Commits 30 2 w))) = Ok 1.
Proof.
  cbn zeta.
  pose proof (ack_alert_acknowledges 30
    (Store.mkAlert 2 "n2" "bandwidth" "critical" "busy" 20 false None)
    (with_db (Store.mkDatabase [] []
                [Store.mkAlert 1 "n1" "offline" "critical" "down" 10
                   false None;
                 Store.mkAlert 2 "n2" "bandwidth" "critical" "busy" 20
                   false None]) initial_world)) as H.
  destruct H as (Hr & _ & _ & _ & _).
  - cbn. apply (bool_decide_unpack _). by vm_compute.
  - cbn. constructor 2. constructor 1.
  - split; [exact Hr|]. split; reflexivity.
Defined.

(** X15 ([ack_alert]): the call never raises; it answers [False] and
    leaves the database as it was when the session fails and when no alert
    has the key. *)
Theorem ack_alert_contained (tx : Store.outcome) (now alert_id : Z)
    (w : world) :
  (exists b, snd (ack_alert tx now alert_id w) = Ok b)
  /\ (tx = Store.Fails ->
      snd (ack_alert tx now alert_id w) = Ok false
      /\ db (fst (ack_alert tx now alert_id w)) = db w)
  /\ ((forall a, a ∈ Store.alerts (db w) -> Store.alert_id a <> alert_id) ->
      snd (ack_alert tx now alert_id w) = Ok false
      /\ db (fst (ack_alert tx now alert_id w)) = db w).
Proof.
  split; [|split].
  - destruct tx; [|by exists false].
    unfold ack_alert, Eff.try_except, session, acknowledge_alert.
    destruct (acknowledge_first now alert_id (Store.alerts (db w)));
      by eexists.
  - intros ->. apply ack_alert_fails.
  - intros H. destruct tx; [by apply ack_alert_unknown|apply ack_alert_fails].
Qed.

End query_theorems.

Section recent_alerts_theorems.
Import Queries.

(** X16 ([get_recent_alerts], [get_alerts]): when the session succeeds and
    [limit >= 0], the call returns at most [limit] alerts of the network
    asked for (of all networks when none is given), newest first, and none
    it leaves out is newer than one it returns; a negative limit drops that
    many of the oldest instead; when the session fails the answer is the
    empty list.  The database is never changed. *)
Theorem get_recent_alerts_newest (tx : Store.outcome) (limit : Z)
    (network_id : option string) (w : world) :
  exists l,
    snd (get_recent_alerts tx limit network_id w) = Ok l
    /\ db (fst (get_recent_alerts tx limit network_id w)) = db w
    /\ (tx = Store.Fails -> l = [])
    /\ (tx = Store.Commits ->
        StronglySorted newer_first l
        /\ l ⊆ selected network_id None (db w)
        /\ (forall a b, a ∈ l -> b ∈ selected network_id None (db w) ->
              b ∉ l -> Store.created_at b <= Store.created_at a)
        /\ (0 <= limit ->
            Refresh.len l
            = Z.min limit (Refresh.len (selected network_id None (db w))))
        /\ (limit < 0 ->
            Refresh.len l
            = Z.max 0 (Refresh.len (selected network_id None (db w)) + limit))).
Proof.
  destruct tx.
  2: { exists []. by repeat split. }
  destruct (get_recent_alerts_commits limit network_id w)
    as (rows & Hrun & Hp & Hs).
  exists (slice_to limit rows). rewrite Hrun. cbn [fst snd].
  split; [done|]. split; [done|]. split; [done|]. intros _.
  assert (exists k, slice_to limit rows = take k rows) as [k Hk].
  { unfold slice_to. destruct (0 <=? limit); by eexists. }
  rewrite Hk. rewrite <- (take_drop k rows) in Hs.
  split; [by eapply StronglySorted_app_1_l|].
  split; [|split; [|split]].
  - intros a Ha. rewrite <- Hp. by eapply subseteq_take.
  - intros a b Ha Hb Hnb. rewrite <- Hp, <- (take_drop k rows) in Hb.
    apply elem_of_app in Hb as [Hb|Hb]; [done|].
    by apply (StronglySorted_app_1_elem_of _ _ _ _ _ Hs Ha Hb).
  - intros Hl. rewrite <- Hk. unfold slice_to, Refresh.len.
    rewrite (proj2 (Z.leb_le 0 limit) Hl), length_take, <- Hp.
    rewrite Nat2Z.inj_min, Z2Nat.id by lia. lia.
  - intros Hl. rewrite <- Hk. unfold slice_to, Refresh.len.
    rewrite (proj2 (Z.leb_gt 0 limit) Hl), length_take, <- Hp.
    rewrite Nat.min_l by lia. lia.
Qed.


End recent_alerts_theorems.

Section alert_lifecycle.
Import Queries.

Lemma acknowledge_first_app_fresh (now alert_id : Z)
    (old rest : list Store.Alert) :
  (forall b, b ∈ old -> Store.alert_id b <> alert_id) ->
  acknowledge_first now alert_id (old ++ rest)
  = (old ++.) <$> acknowledge_first now alert_id rest.
Proof.
  induction old as [|b old IH]; intros H.
  - cbn. by destruct (acknowledge_first now alert_id rest).
  - cbn. destruct (Z.eqb_spec (Store.alert_id b) alert_id) as [Heq|_].
    + exfalso. apply (H b); [left|done].
    + rewrite IH by (intros c Hc; apply H; by right).
      by destruct (acknowledge_first now alert_id rest).
Qed.

(** X18 ([insert_alert], [acknowledge_alert]): an alert that was inserted
    gets a key above every key on record and starts unacknowledged;
    acknowledging that key answers [True] and marks the new row, leaving
    every older alert as it was. *)
Theorem inserted_alert_is_acknowledged (e : Alerts.env) (a : alert)
    (now : Z) (w : world) :
  Alerts.insert_alert_tx e = Store.Commits ->
  let key := Store.next_id Store.alert_id (Store.alerts (db w)) in
  let row :=
    Store.mkAlert key (a_network_id a) (a_alert_type a) (a_severity a)
      (a_message a) (Alerts.alert_clock e) false None in
  let w1 := fst (Alerts.insert_alert e a w) in
  (forall b, b ∈ Store.alerts (db w) -> Store.alert_id b < key)
  /\ Store.alerts (db w1) = Store.alerts (db w) ++ [row]
  /\ snd (ack_alert Store.Commits now key w1) = Ok true
  /\ Store.alerts (db (fst (ack_alert Store.Commits now key w1)))
     = Store.alerts (db w) ++ [acknowledged_row now row].
Proof.
  intros Htx. cbn zeta.
  assert (forall b, b ∈ Store.alerts (db w) ->
            Store.alert_id b
            < Store.next_id Store.alert_id (Store.alerts (db w))) as Hfresh.
  { intros b Hb. by apply next_id_fresh. }
  split; [done|].
  unfold Alerts.insert_alert, Eff.transaction, Store.insert_alert.
  rewrite Htx. cbn [fst snd db with_db Store.alerts].
  split; [done|].
  unfold ack_alert, Eff.try_except, session, acknowledge_alert.
  cbn [db with_db Store.alerts Store.metrics Store.uptime_incidents].
  rewrite acknowledge_first_app_fresh.
  2: { intros b Hb. specialize (Hfresh b Hb). lia. }
  cbn [acknowledge_first Store.alert_id]. rewrite Z.eqb_refl.
  by cbn.
Qed.

Lemma inserted_alert_is_acknowledged_witness :
  snd (ack_alert Store.Commits 7 1
         (fst (Alerts.insert_alert (Alerts.mkEnv Store.Commits 5 Alerts.NotSent)
                 (Alerts.offline_alert "n1" "Office") initial_world)))
  = Ok true.
Proof.
  exact (proj1 (proj2 (proj2
    (inserted_alert_is_acknowledged
       (Alerts.mkEnv Store.Commits 5 Alerts.NotSent)
       (Alerts.offline_alert "n1" "Office") 7 initial_world eq_refl)))).
Defined.

End alert_lifecycle.

Section alert_engine_theorems.

Variables network_id network_name : string.

(** X19 ([process_network_alerts]): health alerts are raised on a change
    only, bandwidth alerts have no memory: a call that follows a call with
    the same health status returns no health alert, and it returns the
    bandwidth alert whenever the utilization is above 95, however often
    that alert was raised before. *)
Theorem process_network_alerts_steady (he be he' be' : Alerts.env)
    (status : string) (utilization utilization' : Q) (w : world) :
  let w1 := fst (Alerts.process_network_alerts he be network_id network_name
                   status utilization w) in
  snd (Alerts.process_network_alerts he' be' network_id network_name
         status utilization' w1)
  = Ok (if Qlt_le_dec 95 utilization'
        then [Alerts.bandwidth_alert network_id network_name utilization']
        else []).
Proof.
  cbn zeta.
  set (w1 := fst (Alerts.process_network_alerts he be network_id network_name
                    status utilization w)).
  assert (previous_health w1 !! network_id = Some status) as Hprev.
  { unfold w1, Alerts.process_network_alerts.
    pose proof (check_health_transition_result he network_id network_name
                  status w) as Hr.
    rewrite (fst_bind_ok _ _ w _ Hr).
    set (w0 := fst (Alerts.check_health_transition he network_id network_name
                      status w)).
    pose proof (check_bandwidth_alert_result be network_id network_name
                  utilization w0) as Hb.
    rewrite (fst_bind_ok _ _ w0 _ Hb). cbn [fst Eff.ret].
    assert (keeps previous_health
              (Alerts.check_bandwidth_alert be network_id network_name
                 utilization)) as Hk.
    { unfold Alerts.check_bandwidth_alert.
      destruct (Qlt_le_dec 95 utilization); [|apply keeps_ret].
      apply keeps_bind; [apply persist_and_notify_keeps_previous_health|].
      intros ?. apply keeps_ret. }
    rewrite Hk. apply previous_health_after. }
  unfold Alerts.process_network_alerts.
  pose proof (check_health_transition_result he' network_id network_name
                status w1) as Hr.
  rewrite Hprev, transition_alert_same in Hr.
  rewrite (snd_bind_ok _ _ w1 _ Hr).
  set (w2 := fst (Alerts.check_health_transition he' network_id network_name
                    status w1)).
  pose proof (check_bandwidth_alert_result be' network_id network_name
                utilization' w2) as Hb.
  rewrite (snd_bind_ok _ _ w2 _ Hb). cbn [snd Eff.ret].
  by destruct (Qlt_le_dec 95 utilization').
Qed.

End alert_engine_theorems.

(** ** The snapshot and the start of the process *)

Section startup_facts.
Import Refresh Cache Startup.

Lemma stale_iff (now saved : Z) :
  (24 < inject_Z (now - saved) / 3600000000)%Q <-> 86400000000 < now - saved.
Proof. unfold Qlt, Qdiv, Qmult, Qinv, inject_Z. cbn. lia. Qed.

Lemma import_modules_run (readable : bool) (now traffic_networks : Z)
    (w : world) :
  let w' := fst (import_modules readable now traffic_networks w) in
  snd (import_modules readable now traffic_networks w) = Ok tt
  /\ previous_health w' = ∅ /\ cache_lock w' = false
  /\ db w' = db w /\ disk w' = disk w
  /\ cache w' = restored readable now w.
Proof.
  unfold import_modules, initialize_data_cache, load_data_cache, restored.
  unfold Eff.bind, Eff.modify, Eff.gets, Eff.logging, Eff.ret. cbn.
  destruct (disk w) as [[saved_cache saved_at]|] eqn:Hd; cbn;
    [|by rewrite ?Hd].
  destruct readable; cbn; [|by rewrite ?Hd].
  destruct (Qlt_le_dec 24 (inject_Z (now - saved_at) / 3600000000))
    as [Hold|Hnew]; cbn; rewrite ?Hd.
  - apply stale_iff in Hold.
    rewrite (proj2 (Z.leb_gt (now - saved_at) 86400000000)) by lia. done.
  - assert (~ 86400000000 < now - saved_at) as Hfresh.
    { intros H. apply stale_iff in H. lra. }
    rewrite (proj2 (Z.leb_le (now - saved_at) 86400000000)) by lia. done.
Qed.

Section saves.

Variable e : cycle_env.
Hypothesis writable : disk_writable e = true.

Lemma finish_cycle_saves (acc : accumulators) (w : world) :
  saved_now e (fst (finish_cycle e acc w)).
Proof.
  unfold saved_now, finish_cycle, save_data_cache. rewrite writable.
  unfold update_combined, Eff.bind, Eff.modify, Eff.gets, Eff.logging, Eff.ret.
  cbn. by destruct (combined_signal_values acc).
Qed.

Lemma on_failure_saves (ex : exn) (w : world) :
  saved_now e (fst (on_failure e ex w)).
Proof.
  unfold saved_now, on_failure, save_data_cache. rewrite writable.
  unfold update_combined, Eff.bind, Eff.modify, Eff.gets, Eff.logging, Eff.ret.
  by cbn.
Qed.

Lemma update_cache_saves (w : world) :
  cache_lock w = false -> active_networks e <> [] ->
  saved_now e (fst (update_cache e w)).
Proof.
  intros Hfree Hactive. unfold update_cache, acquire.
  unfold Eff.bind at 1. rewrite Hfree. cbn [negb].
  unfold Eff.finally.
  set (w0 := with_cache_lock true w).
  assert (saved_now e (fst (Eff.try_except (cycle e) (on_failure e) w0))) as Hs.
  { unfold Eff.try_except.
    destruct (cycle e w0) as [w1 [[]|ex]] eqn:Hc; [|apply on_failure_saves].
    cbn [fst]. unfold cycle in Hc.
    rewrite (bind_ok _ _ w0 tt) in Hc by reflexivity.
    destruct (active_networks e) as [|p todo]; [done|].
    unfold Eff.bind in Hc.
    destruct (process_networks (current_time e) (p :: todo) no_accumulated _)
      as [w2 [acc|ex]]; [|discriminate].
    replace w1 with (fst (finish_cycle e acc w2)) by (by rewrite Hc).
    apply finish_cycle_saves. }
  destruct (Eff.try_except (cycle e) (on_failure e) w0) as [w1 r].
  cbn [fst] in Hs. unfold release, Eff.modify. cbn. exact Hs.
Qed.

End saves.

End startup_facts.

Section startup_theorems.
Import Refresh Cache Startup.


(** X21 ([save_data_cache], [load_data_cache], [update_cache]): a cycle
    that ran with networks to refresh and a writable disk leaves on disk the
    cache it leaves in memory, whether it finished or failed; a process
    started within 24 hours of that snapshot, the file being readable,
    begins with exactly that cache, and with an empty alert memory. *)
Theorem restart_restores_cache (e : cycle_env) (now traffic_networks : Z)
    (w : world) :
  cache_lock w = false ->
  active_networks e <> [] ->
  disk_writable e = true ->
  now - saved_at e <= 86400000000 ->
  let w1 := fst (update_cache e w) in
  let w2 := fst (import_modules true now traffic_networks w1) in
  disk w1 = Some (cache w1, saved_at e)
  /\ cache w2 = cache w1
  /\ previous_health w2 = ∅.
Proof.
  intros Hfree Hactive Hwritable Hage. cbn zeta.
  pose proof (update_cache_saves e Hwritable w Hfree Hactive) as Hs.
  unfold saved_now in Hs. split; [done|].
  destruct (import_modules_run true now traffic_networks
              (fst (update_cache e w))) as (_ & Hp & _ & _ & _ & Hc).
  split; [|done]. rewrite Hc. unfold restored. rewrite Hs. cbn [andb].
  by rewrite (proj2 (Z.leb_le (now - saved_at e) 86400000000) Hage).
Qed.

Lemma restart_restores_cache_witness :
  let e := Scenario.cycle_at 60 "green" Store.Commits in
  let w1 := fst (update_cache e initial_world) in
  let w2 := fst (import_modules true 120000000 0 w1) in
  disk w1 = Some (cache w1, saved_at e)
  /\ cache w2 = cache w1
  /\ previous_health w2 = ∅.
Proof.
  apply (restart_restores_cache (Scenario.cycle_at 60 "green" Store.Commits)
           120000000 0 initial_world);
    [reflexivity | discriminate | reflexivity | cbn; lia].
Defined.

End startup_theorems.

(** ** The offline time of a network *)

Section OfflineSince.

Import Refresh Cache.
Variables (e : network_env) (now : Z) (nid : string).

Lemma kept_offline_marked {A : Type} (m : M A) (observed : string) :
  returns m ->
  keeps (fun w => offline_since (entry observed w)) m ->
  keeps (marker observed) m ->
  ensures (offline_marked observed) m (fun _ => offline_marked observed).
Proof.
  intros Hr Ho Hm w Hw. destruct (Hr w) as [a Ha]. exists a.
  split; [done|]. unfold offline_marked. by rewrite Ho, Hm.
Qed.

(** A network that is not offline now has no offline time once the uptime
    tracking is through. *)
Lemma uptime_tracking_clears (h : string) (w : world) :
  offline_marked nid w -> h <> "offline" ->
  offline_since (entry nid (fst (uptime_tracking e now nid h w))) = None.
Proof.
  intros Hw Hh. unfold uptime_tracking.
  rewrite (fst_bind_ok _ _ w (prev_health (entry nid w))) by reflexivity.
  cbn [fst Eff.gets].
  destruct (decide (prev_health (entry nid w) = Some "offline"
                    /\ h <> "offline")) as [_|Hn].
  - rewrite (fst_bind_ok _ _ w tt) by reflexivity.
    match goal with
    | |- offline_since (entry nid (fst (?m ?w0))) = None =>
      assert (keeps (fun w => offline_since (entry nid w)) m) as Hk
    end.
    { repeat keeps_step idtac. }
    rewrite Hk, entry_update_entry. done.
  - destruct (decide (h = "offline" /\ _)) as [[? _]|_]; [done|].
    cbn [fst Eff.ret]. unfold offline_marked, marker in Hw.
    destruct (offline_since (entry nid w)) as [t|]; [|done].
    exfalso. apply Hn. split; [|done]. by apply Hw.
Qed.

(** A network that is offline now has an offline time once it is
    derived. *)
Lemma derive_offline_since_sets (w : world) :
  is_Some (offline_since
             (entry nid (fst (derive_offline_since e now nid "offline" w)))).
Proof.
  unfold derive_offline_since. rewrite decide_True by done.
  match goal with
  | |- context [Eff.bind ?m _] =>
    assert (exists u, snd (m w) = Ok u) as [[] Hm]
  end.
  { destruct (offline_alert_query e); [|by eexists].
    rewrite (snd_bind_ok _ _ w (first_offline_alert nid (db w)))
      by reflexivity.
    destruct (first_offline_alert nid (db w)); by eexists. }
  rewrite (fst_bind_ok _ _ w tt Hm).
  match goal with
  | |- context [fst (Eff.bind _ _ ?w0)] => set (w1 := w0)
  end.
  rewrite (fst_bind_ok _ _ w1 (offline_since (entry nid w1))) by reflexivity.
  cbn [fst Eff.gets].
  destruct (offline_since (entry nid w1)) as [t|] eqn:Hs.
  - cbn [fst Eff.ret]. by rewrite Hs.
  - by rewrite entry_update_entry.
Qed.

Ltac field_keeps :=
  first
    [ apply (keeps_field_ensure_entry offline_since)
    | apply (keeps_field_ensure_entry prev_health)
    | apply (keeps_field_update_entry offline_since); intros; reflexivity
    | apply (keeps_field_update_entry prev_health); intros; reflexivity
    | apply (update_time_series_keeps_field offline_since);
      intros; reflexivity
    | apply (update_time_series_keeps_field prev_health); intros; reflexivity
    | apply (health_check_keeps_field offline_since); intros; reflexivity
    | apply (health_check_keeps_field prev_health); intros; reflexivity
    | apply (bandwidth_tracking_keeps_field offline_since);
      intros; reflexivity
    | apply (bandwidth_tracking_keeps_field prev_health); intros; reflexivity
    | apply (uptime_percentage_keeps_field offline_since);
      intros; reflexivity
    | apply (uptime_percentage_keeps_field prev_health); intros; reflexivity
    | apply (persist_metrics_keeps_field offline_since)
    | apply (persist_metrics_keeps_field prev_health)
    | apply (process_network_alerts_keeps_field offline_since)
    | apply (process_network_alerts_keeps_field prev_health) ].

Ltac field_returns :=
  first
    [ apply returns_ensure_entry | apply returns_update_entry
    | apply update_time_series_returns | apply health_check_returns
    | apply bandwidth_tracking_returns | apply uptime_percentage_returns
    | apply persist_metrics_returns | apply process_network_alerts_returns ].

Ltac carry_marked :=
  eapply ensures_bind;
  [ apply kept_offline_marked; [field_returns | field_keeps | field_keeps]
  | intros ? ].

(** The loop body for a network keeps its offline time and its marker
    together. *)
Lemma refresh_network_offline_marked network devices acc :
  ensures (offline_marked nid) (refresh_network now network e nid devices acc)
          (fun _ => offline_marked nid).
Proof.
  unfold refresh_network.
  do 5 carry_marked.
  match goal with |- ensures _ (let '(_, _) := ?x in _) _ =>
    destruct x as [[capacity usage] util] end.
  match goal with
  | |- ensures _ (Eff.bind (uptime_tracking _ _ _ ?h) _) _ =>
    set (status := h)
  end.
  eapply (ensures_bind _ _
            (fun _ w => status <> "offline" ->
                        offline_since (entry nid w) = None)).
  { intros w Hw. destruct (uptime_tracking_returns e now nid status w)
      as [u Hu]. exists u. split; [done|]. intros Hne.
    by apply uptime_tracking_clears. }
  intros _.
  eapply (ensures_bind _ _
            (fun _ w => is_Some (offline_since (entry nid w))
                        <-> status = "offline")).
  { intros w Hw.
    destruct (derive_offline_since_returns e now nid status w) as [u Hu].
    exists u. split; [done|].
    destruct (decide (status = "offline")) as [Hoff|Hon].
    - rewrite Hoff. split; [done|]. intros _. apply derive_offline_since_sets.
    - unfold derive_offline_since. rewrite decide_False by done.
      cbn [fst Eff.ret]. rewrite (Hw Hon). split; [by intros [? ?]|done]. }
  intros _.
  eapply (ensures_bind _ _ (fun _ => offline_marked nid)).
  { intros w Hw. exists tt. split; [done|].
    unfold offline_marked, marker. rewrite entry_update_entry. cbn.
    rewrite Hw. split; [by intros ->|by intros [= ->]]. }
  intros _.
  do 3 carry_marked.
  apply ensures_ret. auto.
Qed.

End OfflineSince.

(** ** Invariants of a cache entry through the cycle *)

Section EntryInvariant.

Import Refresh Cache.

(** An assertion on the cache entry of a network that the loop body keeps
    for the network it processes. *)
Variable J : network_cache -> Prop.
Hypothesis body :
  forall e now nid network devices acc,
    ensures (fun w => J (entry nid w))
            (refresh_network now network e nid devices acc)
            (fun _ w => J (entry nid w)).

Variable observed : string.

Lemma keeps_entry_of_lookup {A : Type} (m : M A) :
  keeps (fun w => networks (cache w) !! observed) m ->
  keeps (fun w => entry observed w) m.
Proof. intros H w. unfold entry. by rewrite H. Qed.

Ltac plain_entry :=
  apply (keeps_preserves (fun w => entry observed w) _ J);
  keeps_auto ltac:(fail).

Lemma process_network_entry now network e acc :
  preserves (fun w => J (entry observed w)) (process_network now network e acc).
Proof.
  unfold process_network.
  destruct (usable_id network) as [nid|]; [|plain_entry].
  apply preserves_bind; [plain_entry|].
  intros _. apply preserves_bind; [plain_entry|].
  intros [|d devices]; [plain_entry|].
  destruct (decide (nid = observed)) as [->|Hne].
  - apply ensures_preserves, body.
  - apply (keeps_preserves (fun w => entry observed w) _ J).
    apply keeps_entry_of_lookup, refresh_network_keeps_others, Hne.
Qed.

Lemma process_networks_entry now todo acc :
  preserves (fun w => J (entry observed w)) (process_networks now todo acc).
Proof.
  revert acc. induction todo as [|[network e] rest IH]; intros acc.
  - plain_entry.
  - simpl. apply preserves_bind; [apply process_network_entry|].
    intros acc'. apply IH.
Qed.

Lemma update_cache_entry e :
  preserves (fun w => J (entry observed w)) (update_cache e).
Proof.
  unfold update_cache.
  apply preserves_bind.
  { apply (keeps_preserves (fun w => entry observed w) _ J).
    apply acquire_keeps. reflexivity. }
  intros [|]; simpl; [|plain_entry].
  apply preserves_finally; [|unfold release; plain_entry].
  apply preserves_try_except; [|intros ex; unfold on_failure; plain_entry].
  unfold cycle. apply preserves_bind; [plain_entry|]. intros _.
  destruct (active_networks e) as [|p todo]; [plain_entry|].
  apply preserves_bind; [apply process_networks_entry|].
  intros acc. unfold finish_cycle. plain_entry.
Qed.

Lemma refresh_cycles_entry cycles :
  preserves (fun w => J (entry observed w)) (refresh_cycles cycles).
Proof.
  induction cycles as [|e rest IH]; [plain_entry|].
  simpl. apply preserves_bind; [apply update_cache_entry|].
  intros _. apply IH.
Qed.

(** The reconciliation at start changes the database and the log only. *)
Lemma close_orphaned_incidents_entry tx now :
  preserves (fun w => J (entry observed w)) (close_orphaned_incidents tx now).
Proof. unfold close_orphaned_incidents. plain_entry. Qed.

End EntryInvariant.

Section HealthCached.

Import Refresh Cache.
Variables (e : network_env) (now : Z) (nid : string).

Lemma ensures_conj {A : Type} (P1 P2 : world -> Prop) (m : M A)
    (Q1 Q2 : A -> world -> Prop) :
  ensures P1 m Q1 -> ensures P2 m Q2 ->
  ensures (fun w => P1 w /\ P2 w) m (fun a w => Q1 a w /\ Q2 a w).
Proof.
  intros H1 H2 w [Hw1 Hw2].
  destruct (H1 w Hw1) as (a & Ha & Hq1), (H2 w Hw2) as (a' & Ha' & Hq2).
  exists a. split; [done|]. split; [done|].
  rewrite Ha in Ha'. by injection Ha' as <-.
Qed.

Lemma ensures_weaken {A : Type} (P P' : world -> Prop) (m : M A)
    (Q Q' : A -> world -> Prop) :
  (forall w, P' w -> P w) -> (forall a w, Q a w -> Q' a w) ->
  ensures P m Q -> ensures P' m Q'.
Proof.
  intros HP HQ H w Hw. destruct (H w (HP w Hw)) as (a & Ha & Hq).
  exists a. split; [done|]. by apply HQ.
Qed.

Lemma returns_ensures {A : Type} (m : M A) :
  returns m -> ensures (fun _ => True) m (fun _ _ => True).
Proof. intros H w _. destruct (H w) as [a Ha]. by exists a. Qed.

Ltac status_returns :=
  first
    [ apply returns_ensure_entry | apply returns_update_entry
    | apply update_time_series_returns | apply health_check_returns
    | apply bandwidth_tracking_returns | apply uptime_tracking_returns
    | apply derive_offline_since_returns | apply uptime_percentage_returns
    | apply persist_metrics_returns | apply process_network_alerts_returns ].

Ltac status_keeps g :=
  first
    [ apply (keeps_field_update_entry g); intros; reflexivity
    | apply (bandwidth_tracking_keeps_field g); intros; reflexivity
    | apply (uptime_tracking_keeps_field g); intros; reflexivity
    | apply (derive_offline_since_keeps_field g); intros; reflexivity
    | apply (uptime_percentage_keeps_field g); intros; reflexivity
    | apply (persist_metrics_keeps_field g)
    | apply (process_network_alerts_keeps_field g) ].

(** After the loop body for a network, the cached health and the marker
    of the network are the same. *)
Lemma refresh_network_health_cached network devices acc :
  ensures (fun _ => True) (refresh_network now network e nid devices acc)
          (fun _ w => health_status (entry nid w) = marker nid w).
Proof.
  unfold refresh_network.
  eapply ensures_bind; [apply returns_ensures; status_returns|intros ?].
  eapply ensures_bind; [apply returns_ensures; status_returns|intros ?].
  eapply ensures_bind; [apply returns_ensures; status_returns|].
  intros h.
  eapply (ensures_bind _ _
            (fun _ w => health_status (entry nid w) = Some h)).
  { intros w _. exists tt. split; [done|]. by rewrite entry_update_entry. }
  intros ?.
  eapply ensures_bind.
  { apply (ensures_kept (fun w => health_status (entry nid w)) _
             (fun s => s = Some h)); [status_returns|status_keeps health_status]. }
  intros [[capacity usage] util].
  eapply ensures_bind.
  { apply (ensures_kept (fun w => health_status (entry nid w)) _
             (fun s => s = Some h)); [status_returns|status_keeps health_status]. }
  intros ?.
  eapply ensures_bind.
  { apply (ensures_kept (fun w => health_status (entry nid w)) _
             (fun s => s = Some h)); [status_returns|status_keeps health_status]. }
  intros ?.
  eapply (ensures_bind _ _
            (fun _ w => health_status (entry nid w) = marker nid w)).
  { intros w Hw. exists tt. split; [done|].
    unfold marker. rewrite entry_update_entry. cbn.
    rewrite <- Hw. done. }
  intros ?.
  assert (forall {A : Type} (m : M A),
            returns m ->
            keeps (fun w => health_status (entry nid w)) m ->
            keeps (marker nid) m ->
            ensures (fun w => health_status (entry nid w) = marker nid w) m
                    (fun _ w => health_status (entry nid w) = marker nid w))
    as Hkept.
  { intros A m Hr Hh Hm w Hw. destruct (Hr w) as [r Hret]. exists r.
    split; [done|]. by rewrite Hh, Hm. }
  eapply ensures_bind;
    [apply Hkept; [status_returns|status_keeps health_status
                  |status_keeps prev_health]|intros ?].
  eapply ensures_bind;
    [apply Hkept; [status_returns|status_keeps health_status
                  |status_keeps prev_health]|intros ?].
  eapply ensures_bind;
    [apply Hkept; [status_returns|status_keeps health_status
                  |status_keeps prev_health]|intros ?].
  apply ensures_ret. auto.
Qed.

End HealthCached.

Section entry_theorems.
Import Refresh Cache.

Lemma refresh_network_consistent e now nid network devices acc :
  ensures (fun w => entry_consistent (entry nid w))
          (refresh_network now network e nid devices acc)
          (fun _ w => entry_consistent (entry nid w)).
Proof.
  eapply ensures_weaken;
    [| |apply (ensures_conj _ _ _ _ _
                 (refresh_network_health_cached e now nid network devices acc)
                 (refresh_network_offline_marked e now nid network devices
                    acc))].
  - intros w [Hh Ho]. split; [done|].
    unfold offline_marked, marker. by rewrite <- Hh.
  - intros _ w [Hh Ho]. unfold offline_marked, marker in *.
    split; [done|]. by rewrite Hh.
Qed.

(** X22 ([update_cache], [_close_orphaned_incidents]): the reconciliation
    at start and any number of refresh cycles keep the cache entry of
    every network consistent: its health is the status the incident
    tracking saw last, and it has an offline time exactly while that
    health is offline. *)
Theorem entry_consistent_kept (tx : Store.outcome) (now : Z)
    (cycles : list cycle_env) (network_id : string) (w : world) :
  entry_consistent (entry network_id w) ->
  entry_consistent
    (entry network_id
       (fst (refresh_cycles cycles
               (fst (close_orphaned_incidents tx now w))))).
Proof.
  intros Hw.
  apply (refresh_cycles_entry entry_consistent refresh_network_consistent).
  by apply (close_orphaned_incidents_entry entry_consistent).
Qed.

Lemma entry_consistent_kept_witness :
  entry_consistent
    (entry "n1"
       (fst (refresh_cycles Scenario.steady
               (fst (close_orphaned_incidents Store.Commits 0
                       initial_world))))).
Proof.
  apply (entry_consistent_kept Store.Commits 0 Scenario.steady "n1"
           initial_world).
  split; [reflexivity|]. split; [by intros [? ?]|discriminate].
Defined.

End entry_theorems.

(** ** The tables only grow *)

Section Grows.

Import Refresh Cache.

Lemma incident_kept_trans (a b c : Store.UptimeIncident) :
  incident_kept a b -> incident_kept b c -> incident_kept a c.
Proof.
  intros [->|(Ha & t & ->)] Hbc; [done|].
  destruct Hbc as [->|(Hb & _)]; [right; eauto|].
  by cbn in Hb.
Qed.

Lemma grows_refl (d : Store.database) : grows d d.
Proof. repeat split; auto. intros i inc H. exists inc. split; [done|by left]. Qed.

Lemma grows_trans (d1 d2 d3 : Store.database) :
  grows d1 d2 -> grows d2 d3 -> grows d1 d3.
Proof.
  intros (Hm & Ha & Hi) (Hm' & Ha' & Hi'). repeat split; auto.
  intros i inc H. destruct (Hi i inc H) as (inc' & H' & Hk).
  destruct (Hi' i inc' H') as (inc'' & H'' & Hk').
  exists inc''. split; [done|]. by eapply incident_kept_trans.
Qed.

Lemma grows_insert_metric tx nid t total wireless wired usage capacity util
    avg (d d' : Store.database) :
  Store.insert_metric tx nid t total wireless wired usage capacity util avg d
  = Ok d' -> grows d d'.
Proof.
  unfold Store.insert_metric. destruct tx; [|done]. intros [= <-].
  split; [|split]; cbn; [|done|].
  - intros i m H. by apply lookup_app_l_Some.
  - intros i inc H. exists inc. split; [done|by left].
Qed.

Lemma grows_insert_uptime_incident tx nid start (d d' : Store.database) :
  Store.insert_uptime_incident tx nid start d = Ok d' -> grows d d'.
Proof.
  unfold Store.insert_uptime_incident. destruct tx; [|done]. intros [= <-].
  split; [|split]; cbn; [done|done|].
  intros i inc H. exists inc. split; [by apply lookup_app_l_Some|by left].
Qed.

Lemma grows_insert_alert tx now nid type_ severity_ message_
    (d d' : Store.database) :
  Store.insert_alert tx now nid type_ severity_ message_ d = Ok d' ->
  grows d d'.
Proof.
  unfold Store.insert_alert. destruct tx; [|done]. intros [= <-].
  split; [|split]; cbn; [done| |].
  - intros i a H. by apply lookup_app_l_Some.
  - intros i inc H. exists inc. split; [done|by left].
Qed.

Lemma grows_close_open_incidents tx now nid (d d' : Store.database) :
  close_open_incidents tx now nid d = Ok d' -> grows d d'.
Proof.
  unfold close_open_incidents. destruct tx; [|done]. intros [= <-].
  split; [|split]; cbn; [done|done|].
  intros i inc H. eexists. split.
  - rewrite list_lookup_fmap, H. reflexivity.
  - cbn. destruct (decide _) as [[_ Ho]|_]; [right; eauto|by left].
Qed.

Variable d0 : Store.database.

Lemma grows_kept {A : Type} (m : M A) :
  keeps db m -> preserves (fun w => grows d0 (db w)) m.
Proof. apply (keeps_preserves db m (grows d0)). Qed.

Lemma grows_transaction (g : Store.database -> result Store.database) :
  (forall d d', g d = Ok d' -> grows d d') ->
  preserves (fun w => grows d0 (db w)) (Eff.transaction g).
Proof.
  intros H w Hw. unfold Eff.transaction.
  destruct (g (db w)) as [d'|ex] eqn:E; [|done].
  cbn. eapply grows_trans; [exact Hw|]. by apply H.
Qed.

Ltac grows_auto :=
  repeat first
    [ apply preserves_bind; [|intros ?]
    | apply preserves_try_except; [|intros ?]
    | apply preserves_finally
    | apply grows_transaction; intros ? ?;
      first [ apply grows_insert_metric | apply grows_insert_uptime_incident
            | apply grows_insert_alert | apply grows_close_open_incidents ]
    | apply grows_kept, acquire_keeps; reflexivity
    | apply grows_kept, ensure_entry_keeps_db
    | apply grows_kept, update_entry_keeps_db
    | solve [apply grows_kept; keeps_step idtac]
    | match goal with
      | |- preserves _ (match ?x with _ => _ end) => destruct x
      | |- preserves _ (if ?x then _ else _) => destruct x
      | |- preserves _ (let '(_, _) := ?x in _) => destruct x as [[? ?] ?]
      end
    | progress autounfold with phases
    | progress unfold update_combined, release, uptime_tracking
    | progress cbv beta ].

Lemma refresh_network_grows now network e nid devices acc :
  preserves (fun w => grows d0 (db w))
            (refresh_network now network e nid devices acc).
Proof. unfold refresh_network. grows_auto. Qed.

Lemma process_networks_grows now todo acc :
  preserves (fun w => grows d0 (db w)) (process_networks now todo acc).
Proof.
  revert acc. induction todo as [|[network e] rest IH]; intros acc.
  - grows_auto.
  - simpl. apply preserves_bind; [|intros acc'; apply IH].
    unfold process_network. grows_auto.
Qed.

Lemma update_cache_grows e :
  preserves (fun w => grows d0 (db w)) (update_cache e).
Proof.
  unfold update_cache, cycle, on_failure, finish_cycle.
  grows_auto; apply process_networks_grows.
Qed.

Lemma refresh_cycles_grows cycles :
  preserves (fun w => grows d0 (db w)) (refresh_cycles cycles).
Proof.
  induction cycles as [|e rest IH]; [grows_auto|].
  simpl. apply preserves_bind; [apply update_cache_grows|intros ?; apply IH].
Qed.

End Grows.

Section grows_theorems.
Import Refresh Cache.

Lemma close_orphaned_incidents_grows (d0 : Store.database) tx now :
  preserves (fun w => grows d0 (db w)) (close_orphaned_incidents tx now).
Proof.
  unfold close_orphaned_incidents.
  apply preserves_try_except.
  2: { intros ex. apply grows_kept. keeps_step idtac. }
  destruct tx; [|apply grows_kept; keeps_step idtac].
  intros w Hw. cbn. eapply grows_trans; [exact Hw|].
  split; [|split]; cbn; [done|done|].
  intros i inc H. eexists. split.
  - rewrite list_lookup_fmap, H. reflexivity.
  - cbn. destruct (Store.is_open inc) eqn:Ho; [|by left].
    destruct (currently_online w (Store.inc_network_id inc));
      [right; eauto|by left].
Qed.

(** X23 ([update_cache], [_close_orphaned_incidents] and the inserts of
    [app/database.py]): the reconciliation at start and any number of
    refresh cycles never remove or rewrite a metrics row or an alert row,
    and never remove an incident row: each incident stays where it was,
    either as it was or, if it was open, closed; an incident that is closed
    is never changed again. *)
Theorem tables_only_grow (tx : Store.outcome) (now : Z)
    (cycles : list cycle_env) (w : world) :
  let w' := fst (refresh_cycles cycles
                   (fst (close_orphaned_incidents tx now w))) in
  grows (db w) (db w')
  /\ (forall i inc,
        Store.uptime_incidents (db w) !! i = Some inc ->
        Store.is_open inc = false ->
        Store.uptime_incidents (db w') !! i = Some inc).
Proof.
  cbn zeta.
  assert (grows (db w)
            (db (fst (refresh_cycles cycles
                        (fst (close_orphaned_incidents tx now w)))))) as Hg.
  { apply (refresh_cycles_grows (db w)).
    apply (close_orphaned_incidents_grows (db w)). apply grows_refl. }
  split; [done|]. intros i inc Hi Hc.
  destruct Hg as (_ & _ & Hinc).
  destruct (Hinc i inc Hi) as (inc' & Hi' & [->|(Ho & _)]); [done|].
  congruence.
Qed.

End grows_theorems.

(** ** The alert memory after a start *)

Section CacheOnly.

Import Refresh Cache.
Context {B : Type} (f : world -> B).
Hypothesis f_cache : forall c w, f (with_cache c w) = f w.

Lemma update_entry_keeps_rest nid g : keeps f (update_entry nid g).
Proof. intros w. apply f_cache. Qed.

Lemma ensure_entry_keeps_rest nid : keeps f (ensure_entry nid).
Proof.
  intros w. unfold ensure_entry, Eff.modify. cbn.
  destruct (networks (cache w) !! nid); [done|apply f_cache].
Qed.

End CacheOnly.

Section AlertMemory.

Import Refresh Cache.

Lemma alerts_insert_metric tx nid t total wireless wired usage capacity util
    avg (d d' : Store.database) :
  Store.insert_metric tx nid t total wireless wired usage capacity util avg d
  = Ok d' -> Store.alerts d' = Store.alerts d.
Proof. unfold Store.insert_metric. destruct tx; [|done]. by intros [= <-]. Qed.

Lemma alerts_insert_uptime_incident tx nid start (d d' : Store.database) :
  Store.insert_uptime_incident tx nid start d = Ok d' ->
  Store.alerts d' = Store.alerts d.
Proof.
  unfold Store.insert_uptime_incident. destruct tx; [|done]. by intros [= <-].
Qed.

Lemma alerts_close_open_incidents tx now nid (d d' : Store.database) :
  close_open_incidents tx now nid d = Ok d' ->
  Store.alerts d' = Store.alerts d.
Proof. unfold close_open_incidents. destruct tx; [|done]. by intros [= <-]. Qed.

Ltac engine_side :=
  first
    [ apply update_entry_keeps_rest; reflexivity
    | apply ensure_entry_keeps_rest; reflexivity
    | apply keeps_transaction; intros ? ? Htx; unfold engine_view; cbn;
      f_equal;
      first [ eapply alerts_insert_metric, Htx
            | eapply alerts_insert_uptime_incident, Htx
            | eapply alerts_close_open_incidents, Htx ] ].

Variables (e : network_env) (now : Z) (nid : string).

Lemma check_bandwidth_alert_keeps_previous_health be name util :
  keeps previous_health (Alerts.check_bandwidth_alert be nid name util).
Proof.
  unfold Alerts.check_bandwidth_alert.
  destruct (Qlt_le_dec 95 util); [|apply keeps_ret].
  apply keeps_bind; [apply persist_and_notify_keeps_previous_health|].
  intros ?. apply keeps_ret.
Qed.

Lemma check_bandwidth_alert_rows be name util (w : world) :
  exists rows,
    Store.alerts (db (fst (Alerts.check_bandwidth_alert be nid name util w)))
    = Store.alerts (db w) ++ rows
    /\ Forall (fun a => Store.alert_type a = "bandwidth") rows.
Proof.
  unfold Alerts.check_bandwidth_alert.
  destruct (Qlt_le_dec 95 util).
  - erewrite fst_bind_ok by apply persist_and_notify_returns.
    cbn [fst Eff.ret]. rewrite persist_and_notify_alerts.
    eexists. split; [done|]. unfold alert_rows.
    destruct (Alerts.insert_alert_tx be); repeat constructor.
  - exists []. split; [by rewrite app_nil_r|constructor].
Qed.

(** The first observation of a network: no health alert, and the memory of
    the other networks is as it was. *)
Lemma process_network_alerts_first he be name h util (w : world) :
  previous_health w !! nid = None ->
  let w' := fst (Alerts.process_network_alerts he be nid name h util w) in
  health_alerts w' = health_alerts w
  /\ forall other, other <> nid ->
       previous_health w' !! other = previous_health w !! other.
Proof.
  intros Hnone. cbn zeta. unfold Alerts.process_network_alerts.
  rewrite (fst_bind_ok _ _ w _ (check_health_transition_result he nid name h w)).
  set (w1 := fst (Alerts.check_health_transition he nid name h w)).
  rewrite (fst_bind_ok _ _ w1 _ (check_bandwidth_alert_result be nid name util w1)).
  cbn [fst Eff.ret].
  set (w2 := fst (Alerts.check_bandwidth_alert be nid name util w1)).
  split.
  - unfold health_alerts, w2.
    destruct (check_bandwidth_alert_rows be name util w1) as (rows & -> & Hb).
    unfold w1. rewrite check_health_transition_rows, Hnone. cbn [transition_alert].
    unfold alert_rows at 1. rewrite app_nil_r, filter_app.
    assert (filter (fun a => Store.alert_type a <> "bandwidth") rows = [])
      as ->; [|by rewrite app_nil_r].
    induction Hb as [|a rows Ha _ IH]; [done|].
    by rewrite filter_cons_False by (by intros ?).
  - intros other Hne. unfold w2.
    rewrite check_bandwidth_alert_keeps_previous_health. unfold w1.
    rewrite check_health_transition_records. by apply lookup_insert_ne.
Qed.

Ltac phase_returns :=
  first
    [ apply returns_ensure_entry | apply returns_update_entry
    | apply update_time_series_returns | apply health_check_returns
    | apply bandwidth_tracking_returns | apply uptime_tracking_returns
    | apply derive_offline_since_returns | apply uptime_percentage_returns
    | apply persist_metrics_returns | apply process_network_alerts_returns ].

Ltac carry_view v0 :=
  eapply ensures_bind;
  [ apply (ensures_kept engine_view _ (fun v => v = v0));
    [ phase_returns
    | unfold uptime_tracking; keeps_auto engine_side ]
  | intros ? ].

(** The loop body for a network the alert engine has not seen: no health
    alert is added, and the memory of the other networks is as it was. *)
Lemma refresh_network_first network devices acc (w : world) :
  previous_health w !! nid = None ->
  let w' := fst (refresh_network now network e nid devices acc w) in
  health_alerts w' = health_alerts w
  /\ forall other, other <> nid ->
       previous_health w' !! other = previous_health w !! other.
Proof.
  intros Hnone.
  assert (ensures (fun w1 => engine_view w1 = engine_view w)
            (refresh_network now network e nid devices acc)
            (fun _ w' =>
               health_alerts w' = health_alerts w
               /\ forall other, other <> nid ->
                    previous_health w' !! other = previous_health w !! other))
    as Hens.
  { unfold refresh_network.
    do 5 carry_view (engine_view w).
    match goal with |- ensures _ (let '(_, _) := ?x in _) _ =>
      destruct x as [[capacity usage] util] end.
    do 5 carry_view (engine_view w).
    eapply ensures_bind; [|intros ?; apply ensures_ret; intros ? H; exact H].
    intros w1 Hw1.
    destruct (process_network_alerts_returns nid
                (health_alert_env e) (bandwidth_alert_env e)
                (display_name network nid) a1 util w1) as [l Hl].
    exists l. split; [done|].
    injection Hw1 as Ha Hp.
    destruct (process_network_alerts_first (health_alert_env e)
                (bandwidth_alert_env e) (display_name network nid) a1 util w1)
      as [H1 H2]; [by rewrite Hp|].
    split.
    - rewrite H1. unfold health_alerts. by rewrite Ha.
    - intros other Hne. by rewrite H2, Hp. }
  destruct (Hens w eq_refl) as (a & _ & H). exact H.
Qed.

End AlertMemory.

Section FirstCycle.

Import Refresh Cache.

Lemma fst_bind_cases {A B : Type} (m : M A) (k : A -> M B) (w : world) :
  (exists a, fst (Eff.bind m k w) = fst (k a (fst (m w))))
  \/ fst (Eff.bind m k w) = fst (m w).
Proof.
  unfold Eff.bind. destruct (m w) as [w1 [a|ex]]; [left; by exists a|by right].
Qed.

Lemma process_network_first now network e acc (w : world) :
  (forall nid, usable_id network = Some nid ->
               previous_health w !! nid = None) ->
  let w' := fst (process_network now network e acc w) in
  health_alerts w' = health_alerts w
  /\ forall other, usable_id network <> Some other ->
       previous_health w' !! other = previous_health w !! other.
Proof.
  intros Hnone. cbn zeta. unfold process_network.
  destruct (usable_id network) as [nid|]; [|done].
  rewrite (fst_bind_ok _ _ w tt) by reflexivity.
  set (w1 := fst (Eff.request (GetDevices nid) w)).
  unfold Eff.bind, Eff.lift.
  destruct (devices_response e) as [[|d devices]|ex]; [done| |done].
  destruct (refresh_network_first e now nid network (d :: devices) acc w1)
    as [H1 H2]; [by apply Hnone|].
  split; [done|]. intros other Hne. apply H2. congruence.
Qed.

Lemma process_networks_first now todo :
  forall acc (w : world),
    NoDup (omap (fun p => usable_id (fst p)) todo) ->
    (forall nid, nid ∈ omap (fun p => usable_id (fst p)) todo ->
                 previous_health w !! nid = None) ->
    health_alerts (fst (process_networks now todo acc w)) = health_alerts w.
Proof.
  induction todo as [|[network e] rest IH]; intros acc w Hnd Hnone; [done|].
  cbn [process_networks].
  assert (forall nid, usable_id network = Some nid ->
                      previous_health w !! nid = None) as Hhere.
  { intros nid Hid. apply Hnone. cbn. rewrite Hid. left. }
  destruct (process_network_first now network e acc w Hhere) as [H1 H2].
  destruct (fst_bind_cases (process_network now network e acc)
              (fun acc' => process_networks now rest acc') w)
    as [[acc' ->]| ->]; [|done].
  rewrite IH; [done| |].
  - cbn in Hnd. destruct (usable_id network); [|done].
    by apply NoDup_cons in Hnd as [_ ?].
  - intros nid Hin. rewrite H2.
    + apply Hnone. cbn. destruct (usable_id network); [by right|done].
    + intros Hid. cbn in Hnd. rewrite Hid in Hnd.
      by apply NoDup_cons in Hnd as [? _].
Qed.

Lemma finish_cycle_keeps_db e acc : keeps db (finish_cycle e acc).
Proof. unfold finish_cycle. keeps_auto ltac:(fail). Qed.

Lemma on_failure_keeps_db e ex : keeps db (on_failure e ex).
Proof. unfold on_failure. keeps_auto ltac:(fail). Qed.

Lemma cycle_first e (w : world) :
  NoDup (refreshed e) ->
  (forall nid, nid ∈ refreshed e -> previous_health w !! nid = None) ->
  health_alerts (fst (cycle e w)) = health_alerts w.
Proof.
  intros Hnd Hnone. unfold cycle.
  rewrite (fst_bind_ok _ _ w tt) by reflexivity.
  set (w1 := fst (Eff.logging INFO "Starting multi-network cache update..." w)).
  unfold refreshed in *.
  destruct (active_networks e) as [|p todo] eqn:Ha; [done|].
  destruct (fst_bind_cases
              (process_networks (current_time e) (p :: todo) no_accumulated)
              (fun acc => finish_cycle e acc) w1) as [[acc ->]| ->].
  - unfold health_alerts at 1. rewrite finish_cycle_keeps_db.
    exact (process_networks_first _ (p :: todo) _ w1 Hnd Hnone).
  - exact (process_networks_first _ (p :: todo) _ w1 Hnd Hnone).
Qed.

Lemma update_cache_first e (w : world) :
  NoDup (refreshed e) ->
  (forall nid, nid ∈ refreshed e -> previous_health w !! nid = None) ->
  health_alerts (fst (update_cache e w)) = health_alerts w.
Proof.
  intros Hnd Hnone. unfold update_cache, acquire. unfold Eff.bind at 1.
  destruct (cache_lock w); [done|]. cbn [negb].
  set (w0 := with_cache_lock true w).
  pose proof (cycle_first e w0 Hnd Hnone) as Hc.
  unfold Eff.finally, Eff.try_except.
  destruct (cycle e w0) as [w1 [[]|ex]]; cbn [fst] in Hc.
  - by cbn.
  - pose proof (on_failure_keeps_db e ex w1) as Hf.
    destruct (on_failure e ex w1) as [w2 r]. cbn [fst] in Hf.
    cbn. unfold health_alerts in *. cbn. by rewrite Hf.
Qed.

End FirstCycle.

Section first_cycle_theorems.
Import Refresh Cache.

(** X24 ([check_health_transition], [update_cache], start of the process):
    the alert engine starts with an empty memory, so the first refresh
    cycle after a start adds no health alert to the table, whatever the
    networks' health is and whatever the restored cache says it was; only
    bandwidth alerts can be added.  The networks to refresh are assumed to
    have distinct keys. *)
Theorem first_cycle_adds_no_health_alert (readable : bool)
    (now traffic_networks : Z) (e : cycle_env) (w : world) :
  NoDup (refreshed e) ->
  let started := fst (Startup.import_modules readable now traffic_networks w) in
  health_alerts (fst (update_cache e started)) = health_alerts w.
Proof.
  intros Hnd. cbn zeta.
  destruct (import_modules_run readable now traffic_networks w)
    as (_ & Hp & _ & Hdb & _).
  rewrite update_cache_first; [|done|].
  - unfold health_alerts. by rewrite Hdb.
  - intros nid _. by rewrite Hp.
Qed.

Lemma first_cycle_adds_no_health_alert_witness :
  health_alerts
    (fst (update_cache (Scenario.cycle_at 300 "red" Store.Commits)
            (fst (Startup.import_modules true 290000000 0
                    (fst (refresh_cycles [Scenario.cycle_at 60 "green"
                                            Store.Commits] initial_world))))))
  = health_alerts
      (fst (refresh_cycles [Scenario.cycle_at 60 "green" Store.Commits]
              initial_world)).
Proof.
  apply (first_cycle_adds_no_health_alert true 290000000 0
           (Scenario.cycle_at 300 "red" Store.Commits)).
  apply (bool_decide_unpack _). by vm_compute.
Defined.

End first_cycle_theorems.

(** ** Uptime *)

Section uptime_facts.
Import Refresh Cache.

Lemma round_between (a b : Z) (x : Q) :
  (inject_Z a <= x)%Q -> (x <= inject_Z b)%Q -> a <= Num.round x <= b.
Proof.
  intros Ha Hb. unfold Num.round.
  assert (a <= Qfloor x) as Hfa.
  { rewrite <- (Qfloor_Z a). by apply Qfloor_resp_le. }
  assert (Qfloor x <= b) as Hfb.
  { rewrite <- (Qfloor_Z b). by apply Qfloor_resp_le. }
  assert ((inject_Z (Qfloor x) < x)%Q -> Qfloor x + 1 <= b) as Hup.
  { intros Hlt. assert (Qfloor x < b); [|lia].
    rewrite Zlt_Qlt. by eapply Qlt_le_trans. }
  destruct (Qcompare (x - inject_Z (Qfloor x)) (1 # 2)) eqn:Hc.
  - apply Qeq_alt in Hc. destruct (Z.even (Qfloor x)); [lia|].
    split; [lia|]. apply Hup. lra.
  - lia.
  - apply Qgt_alt in Hc. split; [lia|]. apply Hup. lra.
Qed.

Lemma round_exact (z : Z) (x : Q) : (x == inject_Z z)%Q -> Num.round x = z.
Proof.
  intros Hx. unfold Num.round. rewrite (Qfloor_comp _ _ Hx), Qfloor_Z.
  assert (Qcompare (x - inject_Z z) (1 # 2) = Lt) as ->; [|done].
  apply (proj1 (Qlt_alt _ _)). lra.
Qed.

Lemma share_bounds (part whole : Z) :
  0 <= part <= whole -> 0 < whole ->
  (0 <= inject_Z part / inject_Z whole * 100 * 10 <= 1000)%Q.
Proof.
  intros Hp Hw.
  assert (0 < inject_Z whole)%Q as Hq.
  { change 0%Q with (inject_Z 0). by rewrite <- Zlt_Qlt. }
  assert (0 <= inject_Z part)%Q.
  { change 0%Q with (inject_Z 0). rewrite <- Zle_Qle. lia. }
  assert (inject_Z part <= inject_Z whole)%Q by (rewrite <- Zle_Qle; lia).
  assert (0 <= inject_Z part / inject_Z whole)%Q.
  { apply Qle_shift_div_l; [done|]. lra. }
  assert (inject_Z part / inject_Z whole <= 1)%Q.
  { apply Qle_shift_div_r; [done|]. lra. }
  lra.
Qed.

End uptime_facts.

Section uptime_theorems.
Import Refresh Cache.

(** X25 (uptime percentage of [update_cache]): the percentage is always
    within 0..100; it is 100 when there is no sample yet and when every
    sample has a device connected, and 0 when none has. *)
Theorem uptime_pct_range (history : list connectivity_sample) :
  (0 <= uptime_pct history <= 100)%Q
  /\ uptime_pct [] = 100%Q
  /\ (Forall (fun p => 0 < cs_count p) history ->
      (uptime_pct history == 100)%Q)
  /\ (history <> [] -> Forall (fun p => cs_count p <= 0) history ->
      (uptime_pct history == 0)%Q).
Proof.
  split; [|split; [done|split]].
  - destruct history as [|p history]; [cbn; lra|].
    unfold uptime_pct, Num.round1.
    set (online := len (filter (fun p => 0 < cs_count p) (p :: history))).
    set (total := len (p :: history)).
    assert (0 <= online <= total) as Ho.
    { unfold online, total, len. split; [lia|].
      apply inj_le, length_filter. }
    assert (0 < total) as Ht by (unfold total, len; cbn; lia).
    pose proof (share_bounds online total Ho Ht) as Hs.
    pose proof (round_between 0 1000 _ (proj1 Hs) (proj2 Hs)) as Hr.
    set (r := Num.round _) in *.
    assert (0 <= inject_Z r)%Q.
    { change 0%Q with (inject_Z 0). rewrite <- Zle_Qle. lia. }
    assert (inject_Z r <= 1000)%Q.
    { change 1000%Q with (inject_Z 1000). rewrite <- Zle_Qle. lia. }
    split.
    + apply Qle_shift_div_l; lra.
    + apply Qle_shift_div_r; lra.
  - intros Hall. destruct history as [|p history]; [done|].
    unfold uptime_pct, Num.round1.
    rewrite (filter_all _ _ Hall).
    set (total := len (p :: history)).
    assert (~ (inject_Z total == 0)%Q) as Hne.
    { apply inject_Z_nonzero. unfold total, len. cbn. lia. }
    rewrite (round_exact 1000).
    + reflexivity.
    + change (inject_Z 1000) with 1000%Q. field. exact Hne.
  - intros Hne Hall. destruct history as [|p history]; [done|].
    unfold uptime_pct, Num.round1.
    assert (filter (fun p => 0 < cs_count p) (p :: history) = []) as ->.
    { clear Hne. induction Hall as [|q l Hq _ IH]; [done|].
      rewrite filter_cons_False by lia. exact IH. }
    set (total := len (p :: history)).
    assert (~ (inject_Z total == 0)%Q) as Hn0.
    { apply inject_Z_nonzero. unfold total, len. cbn. lia. }
    rewrite (round_exact 0).
    + reflexivity.
    + change (len []) with 0. change (inject_Z 0) with 0%Q. field. exact Hn0.
Qed.

End uptime_theorems.

(** ** Requests and mail *)

Section Requests.

Import Refresh Cache.
Variables (ids : list string) (calls0 : list api_call).

Lemma requests_kept {A : Type} (m : M A) :
  keeps api_calls m -> preserves (requests_within ids calls0) m.
Proof. apply (keeps_preserves api_calls m
                (fun l => exists new, l = calls0 ++ new
                                      /\ Forall (fun c => requested c ∈ ids) new)).
Qed.

Lemma requests_request (c : api_call) :
  requested c ∈ ids -> preserves (requests_within ids calls0) (Eff.request c).
Proof.
  intros Hc w (new & Hw & Hall). exists (new ++ [c]). cbn. split.
  - by rewrite Hw, app_assoc.
  - apply Forall_app. split; [done|]. by constructor.
Qed.

Ltac requests_auto :=
  repeat first
    [ apply preserves_bind; [|intros ?]
    | apply preserves_try_except; [|intros ?]
    | apply preserves_finally
    | apply requests_request; assumption
    | apply requests_kept, acquire_keeps; reflexivity
    | apply requests_kept, update_entry_keeps_rest; reflexivity
    | apply requests_kept, ensure_entry_keeps_rest; reflexivity
    | solve [apply requests_kept; keeps_step idtac]
    | match goal with
      | |- preserves _ (match ?x with _ => _ end) => destruct x
      | |- preserves _ (if ?x then _ else _) => destruct x
      | |- preserves _ (let '(_, _) := ?x in _) => destruct x as [[? ?] ?]
      end
    | progress autounfold with phases
    | progress unfold update_combined, release, uptime_tracking
    | progress cbv beta ].

Lemma refresh_network_requests now network e nid devices acc :
  nid ∈ ids ->
  preserves (requests_within ids calls0)
            (refresh_network now network e nid devices acc).
Proof.
  intros Hin. unfold refresh_network.
  assert (requested (GetEeros nid) ∈ ids) by done.
  assert (requested (GetNetworkInfo nid) ∈ ids) by done.
  requests_auto.
Qed.

Lemma process_networks_requests now todo acc :
  (forall nid, nid ∈ omap (fun p => usable_id (fst p)) todo -> nid ∈ ids) ->
  preserves (requests_within ids calls0) (process_networks now todo acc).
Proof.
  revert acc. induction todo as [|[network e] rest IH]; intros acc Hids.
  - requests_auto.
  - simpl. apply preserves_bind.
    + unfold process_network. destruct (usable_id network) as [nid|] eqn:Hid;
        [|requests_auto].
      assert (nid ∈ ids) as Hin.
      { apply Hids. cbn. rewrite Hid. left. }
      assert (requested (GetDevices nid) ∈ ids) by done.
      apply preserves_bind; [requests_auto|intros ?].
      apply preserves_bind; [requests_auto|intros [|d devices]];
        [requests_auto|].
      by apply refresh_network_requests.
    + intros acc'. apply IH. intros nid Hin. apply Hids. cbn.
      destruct (usable_id network); [by right|done].
Qed.

End Requests.

Section request_theorems.
Import Refresh Cache.

(** X26 ([update_cache]): a refresh cycle sends requests to the vendor
    only about the networks that are active in the configuration and have
    a key; a network that is not active is never asked about, and a cycle
    that finds the lock taken sends nothing. *)
Theorem requests_only_for_active_networks (e : cycle_env) (w : world) :
  exists new,
    api_calls (fst (update_cache e w)) = api_calls w ++ new
    /\ Forall (fun c => requested c ∈ refreshed e) new
    /\ (cache_lock w = true -> new = []).
Proof.
  assert (preserves (requests_within (refreshed e) (api_calls w))
            (update_cache e)) as Hp.
  { unfold update_cache, cycle, on_failure, finish_cycle.
    repeat first
      [ apply preserves_bind; [|intros ?]
      | apply preserves_try_except; [|intros ?]
      | apply preserves_finally
      | apply requests_kept, acquire_keeps; reflexivity
      | solve [apply requests_kept; keeps_step idtac]
      | apply process_networks_requests;
        unfold refreshed;
        match goal with H : active_networks e = _ |- _ => by rewrite H end
      | match goal with
        | |- preserves _ (match active_networks e with _ => _ end) =>
          destruct (active_networks e) eqn:?
        | |- preserves _ (match ?x with _ => _ end) => destruct x
        | |- preserves _ (if ?x then _ else _) => destruct x
        end
      | progress autounfold with phases
      | progress unfold update_combined, release
      | progress cbv beta ]. }
  destruct (Hp w) as (new & Hnew & Hall).
  { exists []. split; [by rewrite app_nil_r|constructor]. }
  exists new. split; [done|]. split; [done|].
  intros Hlocked. unfold update_cache, acquire in Hnew.
  unfold Eff.bind at 1 in Hnew. rewrite Hlocked in Hnew. cbn in Hnew.
  rewrite <- (app_nil_r (api_calls w)) in Hnew at 1.
  by apply app_inv_head in Hnew.
Qed.

End request_theorems.

Section Mail.

Import Refresh Cache.

Lemma on_record_grows (a : alert) (d d' : Store.database) :
  grows d d' -> on_record a d -> on_record a d'.
Proof.
  intros (_ & Ha & _) (row & Hin & Hrow).
  apply list_elem_of_lookup in Hin as [i Hi].
  exists row. split; [|done]. apply list_elem_of_lookup. exists i. by apply Ha.
Qed.

Lemma mail_kept {A : Type} (m : M A) :
  keeps (fun w => (outbox w, db w)) m -> preserves mailed_on_record m.
Proof.
  intros Hk w Hw a Ha. specialize (Hk w). injection Hk as Ho Hd.
  rewrite Hd. apply Hw. by rewrite <- Ho.
Qed.

Lemma mail_transaction (g : Store.database -> result Store.database) :
  (forall d d', g d = Ok d' -> grows d d') ->
  preserves mailed_on_record (Eff.transaction g).
Proof.
  intros H w Hw. unfold Eff.transaction.
  destruct (g (db w)) as [d'|ex] eqn:E; [|done].
  cbn. intros a Ha. eapply on_record_grows; [by apply H|]. by apply Hw.
Qed.

(** The mail for an alert leaves after its row is committed, or not at
    all. *)
Lemma persist_and_notify_mail (e : Alerts.env) (generated failed : string)
    (a : alert) :
  preserves mailed_on_record (Alerts.persist_and_notify e generated failed a).
Proof.
  intros w Hw.
  unfold Alerts.persist_and_notify, Eff.try_except, Alerts.insert_alert,
    Eff.bind, Eff.transaction, Store.insert_alert, Alerts.notify_alert.
  destruct (Alerts.insert_alert_tx e); cbn; [|exact Hw].
  assert (forall b, on_record b (db w) ->
            on_record b
              (Store.mkDatabase (Store.metrics (db w))
                 (Store.uptime_incidents (db w))
                 (Store.alerts (db w) ++
                    [Store.mkAlert
                       (Store.next_id Store.alert_id (Store.alerts (db w)))
                       (a_network_id a) (a_alert_type a) (a_severity a)
                       (a_message a) (Alerts.alert_clock e) false None])))
    as Hold.
  { intros b (row & Hin & Hrow). exists row. split; [|done]. cbn.
    apply elem_of_app. by left. }
  destruct (Alerts.notification e); cbn; intros b Hb.
  - apply elem_of_app in Hb as [Hb|Hb]; [by apply Hold, Hw|].
    apply list_elem_of_singleton in Hb as ->.
    eexists. split; [cbn; apply elem_of_app; right; left|done].
  - by apply Hold, Hw.
  - by apply Hold, Hw.
Qed.

Ltac mail_auto :=
  repeat first
    [ apply persist_and_notify_mail
    | apply preserves_bind; [|intros ?]
    | apply preserves_try_except; [|intros ?]
    | apply preserves_finally
    | apply mail_transaction; intros ? ?;
      first [ apply grows_insert_metric | apply grows_insert_uptime_incident
            | apply grows_insert_alert | apply grows_close_open_incidents ]
    | apply mail_kept, acquire_keeps; reflexivity
    | apply mail_kept, update_entry_keeps_rest; reflexivity
    | apply mail_kept, ensure_entry_keeps_rest; reflexivity
    | solve [apply mail_kept; keeps_step idtac]
    | match goal with
      | |- preserves _ (match ?x with _ => _ end) => destruct x
      | |- preserves _ (if ?x then _ else _) => destruct x
      | |- preserves _ (let '(_, _) := ?x in _) => destruct x as [[? ?] ?]
      end
    | progress unfold Refresh.update_time_series, Refresh.health_check,
        Refresh.bandwidth_tracking, Refresh.derive_offline_since,
        Refresh.uptime_percentage, Refresh.persist_metrics,
        Alerts.process_network_alerts, Alerts.check_health_transition,
        Alerts.check_bandwidth_alert, Refresh.save_data_cache,
        update_combined, release, uptime_tracking
    | progress cbv beta ].

Lemma process_networks_mail now todo acc :
  preserves mailed_on_record (process_networks now todo acc).
Proof.
  revert acc. induction todo as [|[network e] rest IH]; intros acc.
  - mail_auto.
  - simpl. apply preserves_bind; [|intros acc'; apply IH].
    unfold process_network. mail_auto.
Qed.

Lemma update_cache_mail e : preserves mailed_on_record (update_cache e).
Proof.
  unfold update_cache, cycle, on_failure, finish_cycle.
  mail_auto; apply process_networks_mail.
Qed.

Lemma refresh_cycles_mail cycles :
  preserves mailed_on_record (refresh_cycles cycles).
Proof.
  induction cycles as [|e rest IH]; [mail_auto|].
  simpl. apply preserves_bind; [apply update_cache_mail|intros ?; apply IH].
Qed.

Lemma close_orphaned_incidents_mail tx now :
  preserves mailed_on_record (close_orphaned_incidents tx now).
Proof.
  intros w Hw a Ha.
  assert (outbox (fst (close_orphaned_incidents tx now w)) = outbox w) as Ho.
  { assert (keeps outbox (close_orphaned_incidents tx now)) as Hk; [|apply Hk].
    unfold close_orphaned_incidents. keeps_auto ltac:(fail). }
  rewrite Ho in Ha.
  eapply on_record_grows; [|by apply Hw].
  apply (close_orphaned_incidents_grows (db w)), grows_refl.
Qed.

End Mail.

Section mail_theorems.
Import Refresh Cache.

(** X27 ([check_health_transition], [check_bandwidth_alert],
    [update_cache]): mail leaves only for alerts that are on record: the
    reconciliation at start and any number of refresh cycles never mail an
    alert whose row was not committed to the table first. *)
Theorem mail_only_for_recorded_alerts (tx : Store.outcome) (now : Z)
    (cycles : list cycle_env) (w : world) :
  mailed_on_record w ->
  mailed_on_record
    (fst (refresh_cycles cycles (fst (close_orphaned_incidents tx now w)))).
Proof.
  intros Hw. apply refresh_cycles_mail. by apply close_orphaned_incidents_mail.
Qed.

Lemma mail_only_for_recorded_alerts_witness :
  mailed_on_record
    (fst (refresh_cycles Scenario.steady
            (fst (close_orphaned_incidents Store.Commits 0 initial_world)))).
Proof.
  apply (mail_only_for_recorded_alerts Store.Commits 0 Scenario.steady
           initial_world).
  intros a Ha. by apply elem_of_nil in Ha.
Defined.

End mail_theorems.

(** ** Scores and bandwidth *)

Section score_facts.

Lemma round_monotone (x y : Q) : (x <= y)%Q -> Num.round x <= Num.round y.
Proof.
  intros Hxy. pose proof (Qfloor_resp_le x y Hxy) as Hf.
  pose proof (Qfloor_le x) as Hx1. pose proof (Qlt_floor x) as Hx2.
  pose proof (Qfloor_le y) as Hy1. pose proof (Qlt_floor y) as Hy2.
  rewrite inject_Z_plus in Hx2, Hy2.
  change (inject_Z 1) with 1%Q in Hx2, Hy2.
  assert (Qfloor x <= Num.round x <= Qfloor x + 1) as Hrx.
  { unfold Num.round.
    destruct (Qcompare _ _); [destruct (Z.even _)| |]; lia. }
  assert (Qfloor y <= Num.round y <= Qfloor y + 1) as Hry.
  { unfold Num.round.
    destruct (Qcompare _ _); [destruct (Z.even _)| |]; lia. }
  destruct (Z.eq_dec (Qfloor x) (Qfloor y)) as [Heq|Hne]; [|lia].
  unfold Num.round. rewrite <- Heq.
  destruct (Qcompare (x - inject_Z (Qfloor x)) (1 # 2)) eqn:Hcx;
    destruct (Qcompare (y - inject_Z (Qfloor x)) (1 # 2)) eqn:Hcy;
    first [ apply (proj2 (Qeq_alt _ _)) in Hcx
          | apply (proj2 (Qlt_alt _ _)) in Hcx
          | apply (proj2 (Qgt_alt _ _)) in Hcx ];
    first [ apply (proj2 (Qeq_alt _ _)) in Hcy
          | apply (proj2 (Qlt_alt _ _)) in Hcy
          | apply (proj2 (Qgt_alt _ _)) in Hcy ];
    try destruct (Z.even (Qfloor x)); try lia; exfalso; lra.
Qed.

Lemma clamp_top (x : Q) :
  (100 <= x)%Q -> Num.max 0 (Num.min 100 x) = 100%Q.
Proof.
  intros H. unfold Num.max, Num.min.
  destruct (Qlt_le_dec x 100); [lra|].
  destruct (Qlt_le_dec 0 100); [done|lra].
Qed.

(** The score once the divisions are through. *)
Lemma compute_health_score_value (green total : Z) (signal uptime bw : Q) :
  Metrics.compute_health_score green total signal uptime bw
  = Ok (Z.max 0
          (Z.min 100
             (Num.round
                ((if total >? 0
                  then inject_Z green / inject_Z total * 100 else 0)
                   * (1 # 4)
                 + Num.max 0 (Num.min 100 ((signal + 90) / 60 * 100))
                   * (1 # 4)
                 + uptime * (1 # 4) + (100 - bw) * (1 # 4))%Q))).
Proof.
  unfold Metrics.compute_health_score.
  destruct (Z.gtb_spec total 0) as [Hpos|Hle].
  - rewrite truediv_ok by (apply inject_Z_nonzero; lia). cbn [bind].
    by rewrite truediv_ok by discriminate.
  - cbn [bind]. by rewrite truediv_ok by discriminate.
Qed.

End score_facts.

Section score_theorems.

(** X28 ([compute_health_score]): the score is defined for every input and
    lies within 0..100; a network with all of its nodes green, a signal of
    -30 dBm or better, full uptime and no utilization scores 100; more
    uptime or less utilization never lowers the score. *)
Theorem compute_health_score_total (green total : Z) (signal uptime bw : Q) :
  (exists score,
     Metrics.compute_health_score green total signal uptime bw = Ok score
     /\ 0 <= score <= 100)
  /\ (0 < total -> (-30 <= signal)%Q ->
      Metrics.compute_health_score total total signal 100 0 = Ok 100)
  /\ (forall uptime' bw' score score',
        (uptime <= uptime')%Q -> (bw' <= bw)%Q ->
        Metrics.compute_health_score green total signal uptime bw = Ok score ->
        Metrics.compute_health_score green total signal uptime' bw'
        = Ok score' ->
        score <= score').
Proof.
  split; [|split].
  - rewrite compute_health_score_value. eexists. split; [done|]. lia.
  - intros Hpos Hsig. rewrite compute_health_score_value.
    rewrite (proj2 (Z.gtb_lt total 0)) by lia.
    rewrite clamp_top.
    2: { unfold Qdiv. change (/ 60)%Q with (1 # 60)%Q. lra. }
    rewrite (round_exact 100); [done|].
    change (inject_Z 100) with 100%Q. field.
    apply inject_Z_nonzero. lia.
  - intros uptime' bw' score score' Hu Hb.
    rewrite !compute_health_score_value. intros [= <-] [= <-].
    apply Z.max_le_compat_l, Z.min_le_compat_l, round_monotone. lra.
Qed.

End score_theorems.

Section bandwidth_theorems.
Import Refresh.

Lemma clamp_range (x : Q) :
  (0 <= Num.max 0 (Num.min 100 x) <= 100)%Q.
Proof.
  unfold Num.max, Num.min.
  destruct (Qlt_le_dec x 100);
  repeat match goal with
         | |- context [Qlt_le_dec ?a ?b] => destruct (Qlt_le_dec a b)
         end; lra.
Qed.

Lemma clamp_above (x : Q) :
  (95 < Num.max 0 (Num.min 100 x))%Q -> (95 < x)%Q.
Proof.
  unfold Num.max, Num.min.
  destruct (Qlt_le_dec x 100);
  repeat match goal with
         | |- context [Qlt_le_dec ?a ?b] => destruct (Qlt_le_dec a b)
         end; lra.
Qed.

(** X29 (bandwidth tracking of [update_cache],
    [calculate_bandwidth_utilization], [check_bandwidth_alert]): the
    utilization a cycle works out for a network is always within 0..100,
    and the bandwidth alert is raised only when the link has a capacity
    above zero and the connected devices, at 2.5 Mbps each, take more than
    95 percent of it. *)
Theorem bandwidth_alert_needs_load (e : Alerts.env)
    (network_id network_name : string) (response : result (Q * Q))
    (n_connected : Z) (w : world) :
  let '(capacity_mbps, usage_mbps, bw_util) :=
    bandwidth_figures response n_connected in
  (0 <= bw_util <= 100)%Q
  /\ (forall a,
        snd (Alerts.check_bandwidth_alert e network_id network_name bw_util w)
        = Ok (Some a) ->
        0 < capacity_mbps
        /\ (95 * inject_Z capacity_mbps < 250 * inject_Z n_connected)%Q).
Proof.
  assert (forall a util,
            snd (Alerts.check_bandwidth_alert e network_id network_name util w)
            = Ok (Some a) -> (95 < util)%Q) as Halert.
  { intros a util. rewrite check_bandwidth_alert_result.
    by destruct (Qlt_le_dec 95 util). }
  unfold bandwidth_figures.
  destruct response as [[up down]|ex]; cbn [bind fst snd].
  2: { split; [lra|]. intros a Ha. apply Halert in Ha. lra. }
  set (capacity := Num.round (up + down)).
  destruct (Z.gtb_spec capacity 0) as [Hpos|Hle]; cbn [bind].
  2: { split; [lra|]. intros a Ha. apply Halert in Ha. lra. }
  unfold Metrics.calculate_bandwidth_utilization.
  assert (0 < inject_Z capacity)%Q as Hc.
  { change 0%Q with (inject_Z 0). by rewrite <- Zlt_Qlt. }
  assert (Qle_bool (inject_Z capacity) 0 = false) as ->.
  { apply not_true_iff_false. rewrite Qle_bool_iff. lra. }
  rewrite truediv_ok by lra. cbn [bind].
  split; [apply clamp_range|].
  intros a Ha. apply Halert, clamp_above in Ha. split; [done|].
  set (usage := (inject_Z n_connected * (5 # 2))%Q) in *.
  assert (inject_Z capacity * (usage / inject_Z capacity) == usage)%Q as Hq.
  { apply Qmult_div_r. lra. }
  assert (95 * inject_Z capacity
          < usage / inject_Z capacity * 100 * inject_Z capacity)%Q as Hm.
  { by apply Qmult_lt_compat_r. }
  unfold usage in *. lra.
Qed.

End bandwidth_theorems.

(** ** Health from the node inventory *)

Section node_health_theorems.
Import Refresh.

Lemma filter_length_all {A : Type} (P : A -> Prop)
    `{!forall x, Decision (P x)} (l : list A) :
  length (filter P l) = length l <-> Forall P l.
Proof.
  split; [|intros Hall; by rewrite (filter_all P l Hall)].
  induction l as [|x l IH]; [constructor|].
  rewrite filter_cons. destruct (decide (P x)) as [Hx|Hx]; cbn.
  - intros [= Hlen]. constructor; auto.
  - intros Hlen. pose proof (length_filter P l). lia.
Qed.

Lemma filter_length_none {A : Type} (P : A -> Prop)
    `{!forall x, Decision (P x)} (l : list A) :
  length (filter P l) = 0%nat <-> Forall (fun x => ~ P x) l.
Proof.
  induction l as [|x l IH]; [by split; [constructor|]|].
  rewrite filter_cons, Forall_cons. destruct (decide (P x)) as [Hx|Hx]; cbn.
  - split; [done|]. by intros [? _].
  - rewrite IH. tauto.
Qed.

(** X30 (health check of [update_cache]): when the node inventory comes
    back with status 200 and at least one node, the health of the network
    is healthy exactly when every node is green, offline exactly when none
    is, and degraded otherwise, whatever the number of connected clients;
    the letter case of the node status does not matter. *)
Theorem node_health_by_nodes (statuses : list string) (n_connected : Z) :
  statuses <> [] ->
  let health := fst (node_health (Inventory 200 (Some statuses)) n_connected) in
  (health = "healthy" <-> Forall (fun s => lower s = "green") statuses)
  /\ (health = "offline" <-> Forall (fun s => lower s <> "green") statuses)
  /\ (health = "degraded" <->
      ~ Forall (fun s => lower s = "green") statuses
      /\ ~ Forall (fun s => lower s <> "green") statuses).
Proof.
  intros Hne. destruct statuses as [|s rest]; [done|].
  cbn zeta. unfold node_health. cbn [fst].
  set (l := s :: rest).
  pose proof (filter_length_all (fun s => lower s = "green") l) as Hall.
  pose proof (filter_length_none (fun s => lower s = "green") l) as Hnone.
  pose proof (length_filter (fun s => lower s = "green") l) as Hle.
  assert (length l <> 0%nat) as Hpos by done.
  unfold len.
  set (green := length (filter (fun s => lower s = "green") l)) in *.
  destruct (Z.eqb_spec (Z.of_nat green) (Z.of_nat (length l))) as [Heq|Hneq].
  - assert (green = length l) as Hg by lia.
    split; [|split].
    + split; [intros _; by apply Hall|done].
    + split; [done|]. intros H. apply Hnone in H. exfalso. lia.
    + split; [done|]. intros [H _]. exfalso. apply H. by apply Hall.
  - destruct (Z.gtb_spec (Z.of_nat green) 0) as [Hgt|Hle0].
    + split; [|split].
      * split; [done|]. intros H. apply Hall in H. exfalso. lia.
      * split; [done|]. intros H. apply Hnone in H. exfalso. lia.
      * split; [|done]. intros _. split; intros H.
        -- apply Hall in H. lia.
        -- apply Hnone in H. lia.
    + assert (green = 0%nat) as Hg by lia.
      split; [|split].
      * split; [done|]. intros H. apply Hall in H. exfalso. lia.
      * split; [intros _; by apply Hnone|done].
      * split; [done|]. intros [_ H]. exfalso. apply H. by apply Hnone.
Qed.

Lemma node_health_by_nodes_witness :
  fst (node_health (Inventory 200 (Some ["Green"; "red"])) 4) = "degraded".
Proof.
  apply (proj2 (proj2 (node_health_by_nodes ["Green"; "red"] 4
                         ltac:(discriminate)))).
  split; intros H.
  - apply Forall_cons in H as [_ H]. apply Forall_cons in H as [H _].
    discriminate.
  - apply Forall_cons in H as [H _]. by apply H.
Defined.

End node_health_theorems.
